(** * GoldenEra cryptoj (TypeScript): RLP codec, transaction codec, builder

    A shallow embedding of the transaction pipeline of
    [GoldenEraGlobal/goldenera-cryptoj-js]:

    - [types.ts]            hex conversions, fixed-width literals
    - [enums.ts]            numeric codes
    - [serialization/rlp.ts]        scalar encoding, [RLPWriter], decoding helpers
    - [serialization/PayloadCodec.ts], [TxEncoder.ts], [TxDecoder.ts]
    - [crypto/PrivateKey.ts]        signing, recovery, structural validation
    - [tx/TxBuilder.ts], [tx/payloads/index.ts], [utils/TxUtil.ts]
    - [utils/Amounts.ts]            decimal texts of amounts

    Conventions.  A [Uint8Array] is a [list byte]; a [bigint] is a [Z], and
    so is an integer [number] that a caller passes in; a [number] that
    [Number(bigint)] made is a [number], an integer or an infinity; [null]
    is [None]; a hex literal ([Address], [Hash], [Signature], [Hex]) is the
    [string] the code holds.  What [RLP.decode] returns is an [RLPDecoded],
    bytes or an array, and stays one where the code casts it unchecked.
    A function that can throw returns a [result]; the constructor of [error]
    names the [throw] statement that fired. *)

From Stdlib Require Import ZArith NArith List String Ascii Bool Lia.
From Stdlib Require Import Strings.Byte.
Import ListNotations.
Local Open Scope string_scope.
Local Open Scope list_scope.
Local Open Scope Z_scope.

Set Implicit Arguments.
Set Warnings "-register-all".

(* ================================================================== *)
(** ** Errors and the exception monad *)

Inductive BuilderMsg : Set :=
| TypeRequired | NetworkRequired | NonceRequired
| RecipientRequired
| PayloadRequiredCreate | AmountMustBeNullCreate
| PayloadRequiredVote | ReferenceHashRequired | AmountMustBeNullVote.

Inductive error : Set :=
| TxBuilderError (m : BuilderMsg)      (* new TxBuilderError(...) *)
| UnknownPayloadType                   (* 'Unknown payload type: ...' *)
| UnknownPayloadTypeCode               (* 'Unknown TxPayloadType code: ...' *)
| UnknownNetworkCode | UnknownVersionCode | UnknownTxTypeCode
| UnsupportedVersion
| CannotDecodeEmpty | ExpectedList | MissingVersion
| InvalidPayloadExpectedList
| InvalidSignatureLength
| InvalidAddressLength | InvalidHashLength
| AddressSize | HashSize | SignatureSize    (* toAddress / toHash / toSignature *)
| SignatureMustBe65 | InvalidRecoveryId
| PrivateKeyLength | PrivateKeyRange
| TypeError        (* a built-in applied to [undefined]: BigInt(undefined), undefined.length *)
| SyntaxError      (* BigInt of a string that is not a numeric literal *)
| RangeError       (* TypedArray.prototype.set past the end; BigInt(Infinity) *)
| RlpError         (* any throw of the [rlp] package *)
| CryptoError      (* any throw of the secp256k1 package *)
| OutOfFuel        (* the fuel of [decodeItem] ran out; see [rlpDecode_fuel] *)
| IllTyped.        (* a branch the code cannot reach *)

Inductive result (A : Type) : Type :=
| Ok (a : A)
| Err (e : error).
Arguments Ok {A} a.
Arguments Err {A} e.

Definition bind {A B} (r : result A) (k : A -> result B) : result B :=
  match r with
  | Ok a => k a
  | Err e => Err e
  end.

Notation "x <- c ;; k" := (bind c (fun x => k))
  (at level 61, c at next level, right associativity).
Notation "' pat <- c ;; k" := (bind c (fun x => match x with pat => k end))
  (at level 61, pat pattern, c at next level, right associativity).

Definition isOk {A} (r : result A) : bool :=
  match r with Ok _ => true | Err _ => false end.

Lemma bind_Ok_inv {A B} (r : result A) (k : A -> result B) b :
  bind r k = Ok b -> exists a, r = Ok a /\ k a = Ok b.
Proof. destruct r as [a|e]; simpl; intros H; [eauto | discriminate]. Qed.

Ltac inv_bind H :=
  let a := fresh "a" in
  let Ha := fresh "Ha" in
  apply bind_Ok_inv in H; destruct H as (a & Ha & H).

(* ================================================================== *)
(** ** Bytes and typed arrays *)

Definition bytes := list byte.

(** The value of a byte, as the [number] JavaScript reads from a [Uint8Array]. *)
Definition byteZ (b : byte) : Z := Z.of_N (Byte.to_N b).

(** Storing a [number] into a [Uint8Array] element: [ToUint8], reduction
    modulo 256. *)
Definition toUint8 (z : Z) : byte :=
  match Byte.of_N (Z.to_N (z mod 256)) with
  | Some b => b
  | None => x00
  end.

(** [bytes.length] as a number. *)
Definition len {A} (l : list A) : Z := Z.of_nat (List.length l).

(** [a.slice(start, end)] on arrays, for [0 <= start]. *)
Definition slice {A} (start stop : Z) (l : list A) : list A :=
  firstn (Z.to_nat (stop - start)) (skipn (Z.to_nat start) l).

(** [a.slice(start)]. *)
Definition sliceFrom {A} (start : Z) (l : list A) : list A :=
  skipn (Z.to_nat start) l.

(** [dst.set(src, offset)]: throws a RangeError when [src] does not fit. *)
Definition typedSet (dst src : bytes) (offset : Z) : result bytes :=
  if len dst <? offset + len src then Err RangeError
  else Ok (firstn (Z.to_nat offset) dst ++ src
           ++ skipn (Z.to_nat (offset + len src)) dst).

Lemma byteZ_range b : 0 <= byteZ b < 256.
Proof.
  unfold byteZ. pose proof (Byte.to_N_bounded b) as H.
  split; [apply N2Z.is_nonneg|]. lia.
Qed.

Lemma toUint8_byteZ b : toUint8 (byteZ b) = b.
Proof.
  unfold toUint8. pose proof (byteZ_range b) as H.
  rewrite Z.mod_small by exact H. unfold byteZ.
  rewrite N2Z.id, Byte.of_to_N. reflexivity.
Qed.

Lemma byteZ_toUint8 z : byteZ (toUint8 z) = z mod 256.
Proof.
  unfold toUint8, byteZ.
  pose proof (Z.mod_pos_bound z 256 ltac:(lia)) as Hr.
  destruct (Byte.of_N (Z.to_N (z mod 256))) as [b|] eqn:E.
  - apply Byte.to_of_N in E. rewrite E. lia.
  - apply Byte.of_N_None_iff in E. lia.
Qed.

Lemma len_nonneg {A} (l : list A) : 0 <= len l.
Proof. unfold len. lia. Qed.

Lemma len_app {A} (l1 l2 : list A) : len (l1 ++ l2) = len l1 + len l2.
Proof. unfold len. rewrite length_app. lia. Qed.

Lemma len_cons {A} (x : A) l : len (x :: l) = 1 + len l.
Proof. unfold len. cbn [List.length]. lia. Qed.

Lemma len_nil_iff {A} (l : list A) : len l = 0 <-> l = [].
Proof.
  unfold len. destruct l; cbn [List.length]; split; intros H;
    try reflexivity; try discriminate; lia.
Qed.

(* ================================================================== *)
(** ** JavaScript built-ins on strings and numbers

    The code units of a [string] are the characters [0..255]; the hex
    literals the code handles are ASCII. *)

(** [value.toString(16)] on a [bigint] or an integer [number]: lower-case
    digits, no leading zero, a minus sign for a negative value. *)
Definition hexDigit (d : Z) : ascii :=
  match d with
  | 0 => "0" | 1 => "1" | 2 => "2" | 3 => "3" | 4 => "4" | 5 => "5"
  | 6 => "6" | 7 => "7" | 8 => "8" | 9 => "9" | 10 => "a" | 11 => "b"
  | 12 => "c" | 13 => "d" | 14 => "e" | _ => "f"
  end%char.

Fixpoint hexDigits (fuel : nat) (n : Z) (acc : string) : string :=
  match fuel with
  | O => acc
  | S fuel' =>
      if n =? 0 then acc
      else hexDigits fuel' (n / 16) (String (hexDigit (n mod 16)) acc)
  end.

Definition toString16 (z : Z) : string :=
  if z =? 0 then "0"
  else
    let m := Z.abs z in
    let body := hexDigits (S (Z.to_nat (Z.log2 m))) m "" in
    if z <? 0 then String "-" body else body.

(** [s.padStart(target, c)] for a one-character pad string. *)
Fixpoint strRepeat (c : ascii) (n : nat) : string :=
  match n with
  | O => ""
  | S n' => String c (strRepeat c n')
  end.

Definition padStart (target : nat) (c : ascii) (s : string) : string :=
  (strRepeat c (target - String.length s) ++ s)%string.

(** [s.slice(-n)]: the last [n] code units. *)
Definition sliceLast (n : nat) (s : string) : string :=
  substring (String.length s - n) n s.

(** [s.toLowerCase()] on code units below 256. *)
Definition lowerChar (c : ascii) : ascii :=
  let n := N_of_ascii c in
  if ((65 <=? n) && (n <=? 90) ||
      (192 <=? n) && (n <=? 222) && negb (n =? 215))%N
  then ascii_of_N (n + 32) else c.

Fixpoint toLowerCase (s : string) : string :=
  match s with
  | EmptyString => ""
  | String c r => String (lowerChar c) (toLowerCase r)
  end.

(** The value of a hexadecimal digit, either case. *)
Definition hexVal (c : ascii) : option Z :=
  let n := Z.of_N (N_of_ascii c) in
  if (48 <=? n) && (n <=? 57) then Some (n - 48)
  else if (97 <=? n) && (n <=? 102) then Some (n - 87)
  else if (65 <=? n) && (n <=? 70) then Some (n - 55)
  else None.

(** [parseInt(s, 16)]: leading white space is skipped, then a sign, then an
    optional [0x], then the longest run of hex digits; [None] is [NaN]. *)
Definition isWhiteSpace (c : ascii) : bool :=
  let n := N_of_ascii c in
  ((9 <=? n) && (n <=? 13) || (n =? 32) || (n =? 160))%N.

Fixpoint trimStart (s : string) : string :=
  match s with
  | String c r => if isWhiteSpace c then trimStart r else s
  | EmptyString => ""
  end.

Fixpoint parseDigits (s : string) (acc : option Z) : option Z :=
  match s with
  | String c r =>
      match hexVal c with
      | Some d =>
          parseDigits r (Some (16 * match acc with Some a => a | None => 0 end + d))
      | None => acc
      end
  | EmptyString => acc
  end.

Definition parseInt16 (s : string) : option Z :=
  let s := trimStart s in
  let '(neg, s) :=
    match s with
    | String "-" r => (true, r)
    | String "+" r => (false, r)
    | _ => (false, s)
    end in
  let s :=
    match s with
    | String "0" (String "x" r) => r
    | String "0" (String "X" r) => r
    | _ => s
    end in
  match parseDigits s None with
  | Some n => Some (if neg then - n else n)
  | None => None
  end.

(** [NaN] stored into a [Uint8Array] is [0]. *)
Definition storeParsed (p : option Z) : byte :=
  match p with
  | Some z => toUint8 z
  | None => x00
  end.

(** [BigInt(s)] for a string that starts with [0x]; the code only applies it
    to the output of [bytesToHex].  [BigInt("0x")] is a SyntaxError. *)
Fixpoint allDigits (s : string) (acc : Z) : option Z :=
  match s with
  | EmptyString => Some acc
  | String c r =>
      match hexVal c with
      | Some d => allDigits r (16 * acc + d)
      | None => None
      end
  end.

Definition BigInt_ofHex (s : string) : result Z :=
  match s with
  | String "0" (String "x" EmptyString) => Err SyntaxError
  | String "0" (String "x" r) =>
      match allDigits r 0 with
      | Some n => Ok n
      | None => Err SyntaxError
      end
  | _ => Err IllTyped
  end.

(** A [number] that came from an integer: an integer, or an infinity. *)
Inductive number : Set :=
| Finite (z : Z)
| Infinity (negative : bool).

Coercion Finite : Z >-> number.

Definition MAX_SAFE_INTEGER : Z := 2 ^ 53 - 1.

(** [Number(b)] for a [bigint]: the nearest double, ties to the even
    significand of 53 bits; beyond the largest double, an infinity. *)
Definition Number_ofBigInt (b : Z) : number :=
  let a := Z.abs b in
  if a <=? MAX_SAFE_INTEGER then Finite b
  else
    let e := Z.log2 a - 52 in              (* the bits that do not fit *)
    let q := Z.shiftr a e in
    let r := a - Z.shiftl q e in
    let half := Z.shiftl 1 (e - 1) in
    let q := if (half <? r) || ((r =? half) && Z.odd q) then q + 1 else q in
    let m := Z.shiftl q e in
    if 2 ^ 1024 <=? m then Infinity (b <? 0)
    else Finite (if b <? 0 then - m else m).

(** [BigInt(n)] for a [number]: a RangeError on an infinity. *)
Definition BigInt_ofNumber (n : number) : result Z :=
  match n with
  | Finite z => Ok z
  | Infinity _ => Err RangeError
  end.

(** The integer of a finite [number]. *)
Definition numberValue (n : number) : Z :=
  match n with
  | Finite z => z
  | Infinity _ => 0
  end.

(** [n === k] for an integer [k]. *)
Definition number_eqb (n : number) (k : Z) : bool :=
  match n with
  | Finite z => z =? k
  | Infinity _ => false
  end.

(** [value.toString(radix)] on a [bigint], for a radix up to 16. *)
Fixpoint digitsRadix (radix : Z) (fuel : nat) (n : Z) (acc : string) : string :=
  match fuel with
  | O => acc
  | S fuel' =>
      if n =? 0 then acc
      else digitsRadix radix fuel' (n / radix) (String (hexDigit (n mod radix)) acc)
  end.

Definition toString10 (z : Z) : string :=
  if z =? 0 then "0"
  else
    let m := Z.abs z in
    let body := digitsRadix 10 (S (Z.to_nat (Z.log2 m))) m "" in
    if z <? 0 then String "-" body else body.

(** [s.startsWith(c)] for a one-character [c]. *)
Definition startsWithChar (c : ascii) (s : string) : bool :=
  match s with
  | String c0 _ => Ascii.eqb c0 c
  | EmptyString => false
  end.

(** [BigInt(text)]: white space is trimmed at both ends; the empty text is
    0; 0x, 0o and 0b (either case) introduce hexadecimal, octal and binary
    digits, without sign; otherwise an optional sign and decimal digits.
    Anything else is a SyntaxError. *)
Fixpoint trimEnd (s : string) : string :=
  match s with
  | EmptyString => ""
  | String c r =>
      match trimEnd r with
      | EmptyString => if isWhiteSpace c then "" else String c ""
      | String c' r' => String c (String c' r')
      end
  end.

Definition digitVal (radix : Z) (c : ascii) : option Z :=
  match hexVal c with
  | Some d => if d <? radix then Some d else None
  | None => None
  end.

Fixpoint digitsValue (radix : Z) (s : string) (acc : Z) : option Z :=
  match s with
  | EmptyString => Some acc
  | String c r =>
      match digitVal radix c with
      | Some d => digitsValue radix r (radix * acc + d)
      | None => None
      end
  end.

(** A run of digits, one at least. *)
Definition numeral (radix : Z) (s : string) : result Z :=
  match s with
  | EmptyString => Err SyntaxError
  | String _ _ =>
      match digitsValue radix s 0 with
      | Some n => Ok n
      | None => Err SyntaxError
      end
  end.

Definition radixOf (c : ascii) : option Z :=
  if (Ascii.eqb c "x" || Ascii.eqb c "X")%bool then Some 16
  else if (Ascii.eqb c "o" || Ascii.eqb c "O")%bool then Some 8
  else if (Ascii.eqb c "b" || Ascii.eqb c "B")%bool then Some 2
  else None.

Definition BigInt_ofString (text : string) : result Z :=
  let s := trimEnd (trimStart text) in
  match s with
  | EmptyString => Ok 0
  | String c0 rest =>
      let prefixed :=
        if Ascii.eqb c0 "0" then
          match rest with
          | String c1 r =>
              match radixOf c1 with
              | Some radix => Some (radix, r)
              | None => None
              end
          | EmptyString => None
          end
        else None in
      match prefixed with
      | Some (radix, r) => numeral radix r
      | None =>
          if Ascii.eqb c0 "-" then n <- numeral 10 rest ;; Ok (- n)
          else if Ascii.eqb c0 "+" then numeral 10 rest
          else numeral 10 s
      end
  end.

(** [s.split('.')]: the pieces between the dots, one piece at least. *)
Fixpoint splitDot (s : string) : list string :=
  match s with
  | EmptyString => [""]
  | String c r =>
      if Ascii.eqb c "."
      then "" :: splitDot r
      else
        match splitDot r with
        | p :: ps => String c p :: ps
        | [] => [String c ""]
        end
  end.

(** [s.padEnd(target, c)] for a one-character pad string. *)
Definition padEnd (target : nat) (c : ascii) (s : string) : string :=
  (s ++ strRepeat c (target - String.length s))%string.

(** [s.replace(/0+$/, '')] *)
Fixpoint trimTrailingZeros (s : string) : string :=
  match s with
  | EmptyString => ""
  | String c r =>
      match trimTrailingZeros r with
      | EmptyString => if Ascii.eqb c "0" then "" else String c ""
      | String c' r' => String c (String c' r')
      end
  end.

(** [x || d] on a string that may be [undefined]: the empty string is
    falsy. *)
Definition orElse (x : option string) (d : string) : string :=
  match x with
  | Some (String c r) => String c r
  | _ => d
  end.

(* ================================================================== *)
(** ** types.ts *)

Definition Hex := string.
Definition Address := string.
Definition Hash := string.
Definition Signature := string.

Definition ADDRESS_SIZE : Z := 20.
Definition HASH_SIZE : Z := 32.
Definition SIGNATURE_SIZE : Z := 65.

Definition ZERO_ADDRESS : Address := "0x0000000000000000000000000000000000000000".
Definition NATIVE_TOKEN : Address := ZERO_ADDRESS.

(** [s.startsWith('0x')] *)
Definition startsWith0x (s : string) : bool :=
  match s with
  | String "0" (String "x" _) => true
  | _ => false
  end.

(** [hex.startsWith('0x') ? hex.slice(2) : hex] *)
Definition stripHexPrefix (hex : string) : string :=
  match hex with
  | String "0" (String "x" r) => r
  | _ => hex
  end.

(** The loop of [hexToBytes]: [cleanHex.length / 2] bytes (the typed array's
    length is truncated to an integer), byte [i] parsed from the two
    characters at [2i]. *)
Fixpoint hexPairs (cleanHex : string) : bytes :=
  match cleanHex with
  | String a (String b r) =>
      storeParsed (parseInt16 (String a (String b ""))) :: hexPairs r
  | _ => []
  end.

Definition hexToBytes (hex : Hex) : bytes := hexPairs (stripHexPrefix hex).

Definition byteHex (b : byte) : string := padStart 2 "0" (toString16 (byteZ b)).

Definition bytesToHex (b : bytes) : Hex :=
  ("0x" ++ String.concat "" (map byteHex b))%string.

(** [toAddress], [toHash], [toSignature] share one shape. *)
Definition toFixed (size : Z) (e : error) (value : bytes + Hex) : result Hex :=
  match value with
  | inl b => if len b =? size then Ok (bytesToHex b) else Err e
  | inr h => if len (hexToBytes h) =? size then Ok (toLowerCase h) else Err e
  end.

Definition toAddress := toFixed ADDRESS_SIZE AddressSize.
Definition toHash := toFixed HASH_SIZE HashSize.
Definition toSignature := toFixed SIGNATURE_SIZE SignatureSize.

(* ================================================================== *)
(** ** enums.ts *)

Inductive Network : Set := MAINNET | TESTNET.
Inductive TxVersion : Set := V1.
Inductive TxType : Set := TRANSFER | BIP_CREATE | BIP_VOTE.

Inductive TxPayloadType : Set :=
| BIP_ADDRESS_ALIAS_ADD | BIP_ADDRESS_ALIAS_REMOVE
| BIP_AUTHORITY_ADD | BIP_AUTHORITY_REMOVE
| BIP_NETWORK_PARAMS_SET
| BIP_TOKEN_BURN | BIP_TOKEN_CREATE | BIP_TOKEN_MINT | BIP_TOKEN_UPDATE
| BIP_VOTE_PAYLOAD.   (* TxPayloadType.BIP_VOTE; the name BIP_VOTE is TxType's here *)

Definition networkCode (n : Network) : Z :=
  match n with MAINNET => 0 | TESTNET => 1 end.
Definition versionCode (v : TxVersion) : Z :=
  match v with V1 => 1 end.
Definition txTypeCode (t : TxType) : Z :=
  match t with TRANSFER => 0 | BIP_CREATE => 1 | BIP_VOTE => 2 end.
Definition payloadTypeCode (t : TxPayloadType) : Z :=
  match t with
  | BIP_ADDRESS_ALIAS_ADD => 0 | BIP_ADDRESS_ALIAS_REMOVE => 1
  | BIP_AUTHORITY_ADD => 2 | BIP_AUTHORITY_REMOVE => 3
  | BIP_NETWORK_PARAMS_SET => 4
  | BIP_TOKEN_BURN => 5 | BIP_TOKEN_CREATE => 6 | BIP_TOKEN_MINT => 7
  | BIP_TOKEN_UPDATE => 8 | BIP_VOTE_PAYLOAD => 9
  end.

(** The members of [TxPayloadType], as [Object.values] lists them. *)
Definition TxPayloadType_members : list TxPayloadType :=
  [BIP_ADDRESS_ALIAS_ADD; BIP_ADDRESS_ALIAS_REMOVE; BIP_AUTHORITY_ADD;
   BIP_AUTHORITY_REMOVE; BIP_NETWORK_PARAMS_SET; BIP_TOKEN_BURN;
   BIP_TOKEN_CREATE; BIP_TOKEN_MINT; BIP_TOKEN_UPDATE; BIP_VOTE_PAYLOAD].

(** BipVoteType: the decoder stores whatever code is on the wire, so the
    payload holds the number. *)
Definition DISAPPROVAL : Z := 0.
Definition APPROVAL : Z := 1.

Definition networkFromCode (code : number) : result Network :=
  if number_eqb code 0 then Ok MAINNET
  else if number_eqb code 1 then Ok TESTNET
  else Err UnknownNetworkCode.

Definition txVersionFromCode (code : number) : result TxVersion :=
  if number_eqb code 1 then Ok V1 else Err UnknownVersionCode.

Definition txTypeFromCode (code : number) : result TxType :=
  if number_eqb code 0 then Ok TRANSFER
  else if number_eqb code 1 then Ok BIP_CREATE
  else if number_eqb code 2 then Ok BIP_VOTE
  else Err UnknownTxTypeCode.

Definition txPayloadTypeFromCode (code : number) : result TxPayloadType :=
  match find (fun t => number_eqb code (payloadTypeCode t)) TxPayloadType_members with
  | Some t => Ok t
  | None => Err UnknownPayloadTypeCode
  end.

(* ================================================================== *)
(** ** serialization/rlp.ts: scalars *)

(** [encodeScalar]: the minimal big-endian bytes of an integer, through its
    hexadecimal spelling. *)
Definition encodeScalar (value : Z) : bytes :=
  if value =? 0 then []
  else
    let hex := toString16 value in
    let hex := if Nat.even (String.length hex) then hex else String "0" hex in
    hexToBytes ("0x" ++ hex)%string.

Definition decodeScalar (b : bytes) : result Z :=
  if len b =? 0 then Ok 0 else BigInt_ofHex (bytesToHex b).

(** [encodeBool] and the text codec's entry points are further down, with the
    platform. *)

(* ================================================================== *)
(** ** What [RLP.decode] returns, and arrays where bytes are expected

    [RLP.decode] returns a [Uint8Array] or an array of such values.  The
    decoder passes them on through unchecked casts ([x as Uint8Array]), so an
    array can reach code written for bytes; what JavaScript does then is
    written out here. *)

Inductive RLPDecoded : Type :=
| DBytes (b : bytes)               (* a Uint8Array *)
| DList (l : list RLPDecoded).     (* an array *)

(** [value.length] *)
Definition valueLength (value : RLPDecoded) : Z :=
  match value with
  | DBytes b => len b
  | DList l => len l
  end.

(** [value.toString()], which is [join(',')] for a typed array and for an
    array alike (an argument is ignored): the bytes in decimal, the items
    by their own [toString]. *)
Fixpoint jsToString (value : RLPDecoded) : string :=
  match value with
  | DBytes b => String.concat "," (map (fun x => toString10 (byteZ x)) b)
  | DList l => String.concat "," (map jsToString l)
  end.

(** [Number(text)] for the text [jsToString] gives, which holds decimal
    digits and commas: 0 for the empty text, the decimal value of a run of
    digits, [NaN] ([None]) when there is a comma. *)
Definition Number_ofJoined (text : string) : option Z :=
  match text with
  | EmptyString => Some 0
  | String _ _ => digitsValue 10 text 0
  end.

(** The number an item of an array is taken for, in a comparison and when
    it is stored in a typed array. *)
Definition itemNumber (item : RLPDecoded) : option Z :=
  Number_ofJoined (jsToString item).

(** [bytesToHex(value)] of types.ts on an array: every item by [toString],
    padded to two characters. *)
Definition arrayToHex (items : list RLPDecoded) : Hex :=
  ("0x" ++ String.concat "" (map (fun b => padStart 2 "0" (jsToString b)) items))%string.

(* ================================================================== *)
(** ** serialization/rlp.ts: [RLPWriter] *)

Inductive RLPElement : Type :=
| ElBytes (data : bytes)             (* type: 'bytes' *)
| ElArray (data : list RLPDecoded)   (* type: 'bytes', the data an array *)
| ElRaw (data : bytes)               (* type: 'raw'   *)
| ElList (data : list RLPElement).   (* type: 'list'  *)

Module RLPWriter.

(** The writer is its [elements] array; every write pushes one element. *)
Definition t := list RLPElement.

Definition new : t := [].

Definition writeBytes (value : bytes) (w : t) : t := w ++ [ElBytes value].

Definition writeScalar (value : Z) (w : t) : t :=
  w ++ [ElBytes (encodeScalar value)].

Definition writeLongScalar (value : Z) (w : t) : t := writeScalar value w.
Definition writeIntScalar (value : Z) (w : t) : t := writeScalar value w.

Definition writeRaw (rlpBytes : bytes) (w : t) : t := w ++ [ElRaw rlpBytes].

Definition writeEmptyList (w : t) : t := w ++ [ElRaw [xc0]].

Definition writeList (builder : t -> t) (w : t) : t :=
  w ++ [ElList (builder new)].

Definition writeBigIntegerScalar (value : Z) (w : t) : t := writeScalar value w.
Definition writeWeiScalar (value : Z) (w : t) : t := writeBigIntegerScalar value w.

(** [writeBytes] on a value that may be an array: [writeOptionalBytes] is
    given [tx.message], which the decoder can leave an array. *)
Definition writeBytesValue (value : RLPDecoded) (w : t) : t :=
  w ++ [match value with
        | DBytes b => ElBytes b
        | DList l => ElArray l
        end].

Definition writeOptionalBytes (value : option RLPDecoded) (w : t) : t :=
  match value with
  | None => writeEmptyList w
  | Some v => writeList (writeBytesValue v) w
  end.

Definition writeOptionalLongScalar (value : option Z) (w : t) : t :=
  match value with
  | None => writeEmptyList w
  | Some v => writeList (writeLongScalar v) w
  end.

Definition writeOptionalWeiScalar (value : option Z) (w : t) : t :=
  match value with
  | None => writeEmptyList w
  | Some v => writeList (writeBigIntegerScalar v) w
  end.

Definition writeOptionalRaw (value : option bytes) (w : t) : t :=
  match value with
  | None => writeEmptyList w
  | Some v => writeList (writeRaw v) w
  end.

(** [writeOptionalBytes32]: a [Hash] string is converted, bytes are taken
    as they are. *)
Definition writeOptionalBytes32 (value : option (bytes + Hash)) (w : t) : t :=
  match value with
  | None => writeEmptyList w
  | Some v =>
      let b := match v with inl b => b | inr h => hexToBytes h end in
      writeList (writeBytes b) w
  end.

(** [startList] hands out a fresh writer, [addList] pushes its elements. *)
Definition startList (w : t) : t := new.
Definition addList (sublist : t) (w : t) : t := w ++ [ElList sublist].

(** [length >> k] and [& 0xff] act on the 32-bit integer; stored in a
    [Uint8Array] each is the corresponding byte of [length]. *)
Definition encodeLengthBytes (length : Z) : bytes :=
  if length <? 256 then [toUint8 length]
  else if length <? 65536 then
    [toUint8 (Z.shiftr length 8); toUint8 (Z.land length 255)]
  else if length <? 16777216 then
    [toUint8 (Z.shiftr length 16);
     toUint8 (Z.land (Z.shiftr length 8) 255);
     toUint8 (Z.land length 255)]
  else
    [toUint8 (Z.shiftr length 24);
     toUint8 (Z.land (Z.shiftr length 16) 255);
     toUint8 (Z.land (Z.shiftr length 8) 255);
     toUint8 (Z.land length 255)].

Definition encodeListHeader (payloadSize : Z) : bytes :=
  if payloadSize <=? 55 then [toUint8 (192 + payloadSize)]
  else
    let lengthBytes := encodeLengthBytes payloadSize in
    toUint8 (247 + len lengthBytes) :: lengthBytes.

Definition encodeString (b : bytes) : bytes :=
  match b with
  | [] => [x80]
  | first :: rest =>
      if (len b =? 1) && (byteZ first <? 128) then b
      else if len b <=? 55 then toUint8 (128 + len b) :: b
      else
        let lengthBytes := encodeLengthBytes (len b) in
        toUint8 (183 + len lengthBytes) :: lengthBytes ++ b
  end.

(** [encodeString] on an array, as the part ends up in the result of
    [encodeElements]: the length is the number of items; [bytes[0] < 0x80]
    compares the number of the first item ([NaN] is below nothing); [set]
    stores every item as the byte of its number ([NaN] as 0).  In the second
    branch the array itself is returned, and stored by the [set] of
    [encodeElements]. *)
Definition encodeStringArray (items : list RLPDecoded) : bytes :=
  let stored := map (fun item => storeParsed (itemNumber item)) items in
  match items with
  | [] => [x80]
  | first :: rest =>
      if (len items =? 1)
         && (match itemNumber first with Some n => n <? 128 | None => false end)
      then stored
      else if len items <=? 55 then toUint8 (128 + len items) :: stored
      else
        let lengthBytes := encodeLengthBytes (len items) in
        toUint8 (183 + len lengthBytes) :: lengthBytes ++ stored
  end.

(** One pass of the loop of [encodeElements]: the encoded part of an
    element.  A list element is encoded by the recursive call, header
    included. *)
Fixpoint encodePart (elem : RLPElement) : bytes :=
  match elem with
  | ElBytes data => encodeString data
  | ElArray data => encodeStringArray data
  | ElRaw data => data
  | ElList data =>
      let encodedParts := map encodePart data in
      let payload := List.concat encodedParts in
      encodeListHeader (len payload) ++ payload
  end.

Definition encodeElements (elements : list RLPElement) : bytes :=
  let encodedParts := map encodePart elements in
  let payload := List.concat encodedParts in
  encodeListHeader (len payload) ++ payload.

Definition encode (w : t) : bytes := encodeElements w.

End RLPWriter.

(** [EMPTY_LIST], [encodeBool]. *)
Definition EMPTY_LIST : bytes := [xc0].
Definition encodeBool (value : bool) : bytes := if value then [x01] else [x00].

(* ================================================================== *)
(** ** The [rlp] package: [RLP.decode]

    [rlpDecode] calls the package's [decode]; its algorithm is the standard
    one.  Every throw of the package is [RlpError]. *)

Definition beValue (b : bytes) : Z :=
  fold_left (fun acc x => 256 * acc + byteZ x) b 0.

Definition safeSlice (input : bytes) (start stop : Z) : result bytes :=
  if len input <? stop then Err RlpError else Ok (slice start stop input).

Definition decodeLength (v : bytes) : result Z :=
  match v with
  | [] => Err RlpError
  | first :: _ => if byteZ first =? 0 then Err RlpError else Ok (beValue v)
  end.

Fixpoint decodeItem (fuel : nat) (input : bytes) {struct fuel}
  : result (RLPDecoded * bytes) :=
  match fuel with
  | O => Err OutOfFuel
  | S fuel' =>
      match input with
      | [] => Err RlpError
      | first :: _ =>
          let firstByte := byteZ first in
          if firstByte <=? 127 then
            Ok (DBytes (slice 0 1 input), sliceFrom 1 input)
          else if firstByte <=? 183 then
            let length := firstByte - 127 in
            data <- (if firstByte =? 128 then Ok [] else safeSlice input 1 length) ;;
            if (length =? 2) && (match data with d :: _ => byteZ d <? 128 | [] => false end)
            then Err RlpError
            else Ok (DBytes data, sliceFrom length input)
          else if firstByte <=? 191 then
            let llength := firstByte - 182 in
            if len input - 1 <? llength then Err RlpError
            else
              lbytes <- safeSlice input 1 llength ;;
              length <- decodeLength lbytes ;;
              if length <=? 55 then Err RlpError
              else
                data <- safeSlice input llength (length + llength) ;;
                Ok (DBytes data, sliceFrom (length + llength) input)
          else if firstByte <=? 247 then
            let length := firstByte - 191 in
            innerRemainder <- safeSlice input 1 length ;;
            decoded <- decodeItems fuel' innerRemainder ;;
            Ok (DList decoded, sliceFrom length input)
          else
            let llength := firstByte - 246 in
            lbytes <- safeSlice input 1 llength ;;
            length <- decodeLength lbytes ;;
            if length <? 56 then Err RlpError
            else
              let totalLength := llength + length in
              if len input <? totalLength then Err RlpError
              else
                innerRemainder <- safeSlice input llength totalLength ;;
                decoded <- decodeItems fuel' innerRemainder ;;
                Ok (DList decoded, sliceFrom totalLength input)
      end
  end
with decodeItems (fuel : nat) (input : bytes) {struct fuel}
  : result (list RLPDecoded) :=
  match fuel with
  | O => Err OutOfFuel
  | S fuel' =>
      match input with
      | [] => Ok []
      | _ :: _ =>
          '(d, remainder) <- decodeItem fuel' input ;;
          ds <- decodeItems fuel' remainder ;;
          Ok (d :: ds)
      end
  end.

(** Fuel [2 * length] is enough ([rlpDecode_fuel]). *)
Definition rlpDecode (input : bytes) : result RLPDecoded :=
  match input with
  | [] => Ok (DBytes [])
  | _ :: _ =>
      '(d, remainder) <- decodeItem (2 * List.length input) input ;;
      match remainder with
      | [] => Ok d
      | _ :: _ => Err RlpError
      end
  end.

(* ================================================================== *)
(** ** serialization/rlp.ts: decoding helpers

    The helpers are declared on [Uint8Array] and called through unchecked
    casts ([items[i] as Uint8Array]) on what [RLP.decode] returned: bytes, an
    array, or [undefined] past the end ([None] here). *)

(** [decodeScalar] on bytes or an array: 0n when the length is 0, else
    [BigInt(bytesToHex(value))]. *)
Definition decodeScalarValue (value : RLPDecoded) : result Z :=
  match value with
  | DBytes b => decodeScalar b
  | DList l => if len l =? 0 then Ok 0 else BigInt_ofString (arrayToHex l)
  end.

Definition decodeBigint (x : option RLPDecoded) : result Z :=
  match x with
  | None => Err TypeError                 (* undefined.length *)
  | Some value => decodeScalarValue value
  end.

(** [Number(decodeBigint(x))], and [decodeInt]. *)
Definition decodeInt (x : option RLPDecoded) : result number :=
  b <- decodeBigint x ;; Ok (Number_ofBigInt b).

Definition decodeAddress (x : option RLPDecoded) : result Address :=
  match x with
  | None => Err TypeError
  | Some (DBytes b) =>
      if negb (len b =? 20) then Err InvalidAddressLength else toAddress (inl b)
  | Some (DList l) =>
      (* an array of 20 items reaches toAddress, which calls startsWith on it *)
      if negb (len l =? 20) then Err InvalidAddressLength else Err TypeError
  end.

Definition decodeHash (x : option RLPDecoded) : result Hash :=
  match x with
  | None => Err TypeError
  | Some (DBytes b) =>
      if negb (len b =? 32) then Err InvalidHashLength else toHash (inl b)
  | Some (DList l) =>
      if negb (len l =? 32) then Err InvalidHashLength else Err TypeError
  end.

Definition isEmptyList (item : option RLPDecoded) : bool :=
  match item with
  | Some (DList []) => true
  | Some (DBytes []) => true
  | _ => false
  end.

(** [decodeOptionalBytes]: the one item of an array is returned as it is,
    bytes or not. *)
Definition decodeOptionalBytes (item : option RLPDecoded) : option RLPDecoded :=
  if isEmptyList item then None
  else
    match item with
    | Some (DList [x]) => Some x
    | Some (DBytes b) => Some (DBytes b)      (* non-empty, by isEmptyList *)
    | _ => None
    end.

Definition decodeOptionalAddress (item : option RLPDecoded) : result (option Address) :=
  match decodeOptionalBytes item with
  | None => Ok None
  | Some value =>
      if valueLength value =? 0 then Ok None
      else a <- decodeAddress (Some value) ;; Ok (Some a)
  end.

Definition decodeOptionalHash (item : option RLPDecoded) : result (option Hash) :=
  match decodeOptionalBytes item with
  | None => Ok None
  | Some value =>
      if valueLength value =? 0 then Ok None
      else h <- decodeHash (Some value) ;; Ok (Some h)
  end.

Definition decodeOptionalBigint (item : option RLPDecoded) : result (option Z) :=
  if isEmptyList item then Ok None
  else
    match item with
    | Some (DList [x]) => v <- decodeScalarValue x ;; Ok (Some v)
    | Some (DBytes b) => v <- decodeScalar b ;; Ok (Some v)
    | _ => Ok None
    end.

(* ================================================================== *)
(** ** The platform: hashing, the curve, the text codec

    The Keccak and secp256k1 primitives and the [TextEncoder]/[TextDecoder]
    built-ins are outside the repository; the code is modelled over any
    implementation of them. *)

Record ECSig : Set := { sig_r : Z; sig_s : Z; sig_recovery : Z }.

Class Platform : Type := {
  (** [keccak_256] of the hash package, which viem's [keccak256] wraps *)
  keccak_256 : bytes -> bytes;
  (** [secp256k1.sign(hash, key, { lowS: true })] *)
  secp256k1_sign : bytes -> bytes -> ECSig;
  (** [secp256k1.getPublicKey(key, isCompressed)] *)
  secp256k1_getPublicKey : bytes -> bool -> bytes;
  (** [new secp256k1.Signature(r, s).addRecoveryBit(id)
        .recoverPublicKey(hash).toRawBytes(false)] *)
  secp256k1_recover : Z -> Z -> Z -> bytes -> result bytes;
  (** [new TextEncoder().encode(str)] *)
  TextEncoder_encode : string -> bytes;
  (** [new TextDecoder().decode(bytes)] *)
  TextDecoder_decode : bytes -> string
}.

(** viem's [keccak256(bytes)]: the digest as a hex string. *)
Definition keccak256 `{Platform} (data : bytes) : Hex :=
  bytesToHex (keccak_256 data).

(** rlp.ts [encodeString] (text to UTF-8), [decodeString] and
    [decodeOptionalString]. *)
Definition encodeString `{Platform} (str : string) : bytes := TextEncoder_encode str.

Definition decodeString `{Platform} (x : option RLPDecoded) : result string :=
  match x with
  | None => Ok (TextDecoder_decode [])   (* decode(undefined) is the empty text *)
  | Some (DBytes b) => Ok (TextDecoder_decode b)
  | Some (DList _) => Err TypeError      (* decode of a value that is no buffer *)
  end.

Definition decodeOptionalString `{Platform} (item : option RLPDecoded)
  : result (option string) :=
  match decodeOptionalBytes item with
  | None => Ok None
  | Some value =>
      if valueLength value =? 0 then Ok None
      else s <- decodeString (Some value) ;; Ok (Some s)
  end.

(* ================================================================== *)
(** ** tx/payloads/types.ts and index.ts *)

Inductive TxPayload : Type :=
| TokenMintPayload (tokenAddress recipient : Address) (amount : Z)
| TokenBurnPayload (tokenAddress sender : Address) (amount : Z)
| TokenCreatePayload (name smallestUnitName : string) (numberOfDecimals : number)
    (websiteUrl logoUrl : option string) (maxSupply : option Z)
    (userBurnable : bool)
| TokenUpdatePayload (tokenAddress : Address)
    (name smallestUnitName websiteUrl logoUrl : option string)
| VotePayload (voteType : number)
| AddressAliasAddPayload (address : Address) (alias : string)
| AddressAliasRemovePayload (alias : string)
| AuthorityAddPayload (authorityAddress : Address)
| AuthorityRemovePayload (authorityAddress : Address)
| NetworkParamsSetPayload (blockReward : option Z)
    (blockRewardPoolAddress : option Address)
    (targetMiningTimeMs asertHalfLifeBlocks minDifficulty
     minTxBaseFee minTxByteFee : option Z)
| ValidatorAddPayload (validatorAddress : Address)
| ValidatorRemovePayload (validatorAddress : Address).

(** [payload.payloadType]: the factories of the two validator payloads read
    [TxPayloadType.BIP_VALIDATOR_ADD] and [TxPayloadType.BIP_VALIDATOR_REMOVE],
    which the enum does not have; the property is [undefined]. *)
Definition payloadType (p : TxPayload) : option TxPayloadType :=
  match p with
  | TokenMintPayload _ _ _ => Some BIP_TOKEN_MINT
  | TokenBurnPayload _ _ _ => Some BIP_TOKEN_BURN
  | TokenCreatePayload _ _ _ _ _ _ _ => Some BIP_TOKEN_CREATE
  | TokenUpdatePayload _ _ _ _ _ => Some BIP_TOKEN_UPDATE
  | VotePayload _ => Some BIP_VOTE_PAYLOAD
  | AddressAliasAddPayload _ _ => Some BIP_ADDRESS_ALIAS_ADD
  | AddressAliasRemovePayload _ => Some BIP_ADDRESS_ALIAS_REMOVE
  | AuthorityAddPayload _ => Some BIP_AUTHORITY_ADD
  | AuthorityRemovePayload _ => Some BIP_AUTHORITY_REMOVE
  | NetworkParamsSetPayload _ _ _ _ _ _ _ => Some BIP_NETWORK_PARAMS_SET
  | ValidatorAddPayload _ => None
  | ValidatorRemovePayload _ => None
  end.

Definition createTokenMintPayload (tokenAddress recipient : Address) (amount : Z) :=
  TokenMintPayload tokenAddress recipient amount.

Definition createTokenBurnPayload (tokenAddress sender : Address) (amount : Z) :=
  TokenBurnPayload tokenAddress sender amount.

(** [params.x ?? null] and [params.userBurnable ?? false]: a missing
    property is [None]. *)
Definition createTokenCreatePayload (name smallestUnitName : string)
    (numberOfDecimals : number) (websiteUrl logoUrl : option string)
    (maxSupply : option Z) (userBurnable : option bool) :=
  TokenCreatePayload name smallestUnitName numberOfDecimals websiteUrl logoUrl
    maxSupply (match userBurnable with Some b => b | None => false end).

Definition createTokenUpdatePayload (tokenAddress : Address)
    (name smallestUnitName websiteUrl logoUrl : option string) :=
  TokenUpdatePayload tokenAddress name smallestUnitName websiteUrl logoUrl.

Definition createVotePayload (voteType : number) := VotePayload voteType.
Definition createApprovalVote := createVotePayload APPROVAL.
Definition createDisapprovalVote := createVotePayload DISAPPROVAL.

Definition createAddressAliasAddPayload (address : Address) (alias : string) :=
  AddressAliasAddPayload address alias.
Definition createAddressAliasRemovePayload (alias : string) :=
  AddressAliasRemovePayload alias.
Definition createAuthorityAddPayload (authorityAddress : Address) :=
  AuthorityAddPayload authorityAddress.
Definition createAuthorityRemovePayload (authorityAddress : Address) :=
  AuthorityRemovePayload authorityAddress.
Definition createValidatorAddPayload (validatorAddress : Address) :=
  ValidatorAddPayload validatorAddress.
Definition createValidatorRemovePayload (validatorAddress : Address) :=
  ValidatorRemovePayload validatorAddress.

Definition createNetworkParamsSetPayload (blockReward : option Z)
    (blockRewardPoolAddress : option Address)
    (targetMiningTimeMs asertHalfLifeBlocks minDifficulty
     minTxBaseFee minTxByteFee : option Z) :=
  NetworkParamsSetPayload blockReward blockRewardPoolAddress targetMiningTimeMs
    asertHalfLifeBlocks minDifficulty minTxBaseFee minTxByteFee.

(* ================================================================== *)
(** ** tx/Tx.ts *)

Module Tx.

(** The thirteen serialized fields, as [encodeTx] reads them from a
    [Tx | UnsignedTx]; an [UnsignedTx] has [signature = None].  The
    interface declares [nonce] non-null, the encoder accepts [null].
    [message] is declared a [Uint8Array]; the decoder can leave an array
    there, so the field holds either. *)
Record fields : Type := {
  version : TxVersion;
  timestamp : number;
  type : TxType;
  network : Network;
  nonce : option Z;
  recipient : option Address;
  tokenAddress : option Address;
  amount : option Z;
  fee : Z;
  message : option RLPDecoded;
  payload : option TxPayload;
  referenceHash : option Hash;
  signature : option Signature
}.

(** A signed transaction: the fields and the derived data. *)
Record t : Type := {
  rlp : fields;
  sender : Address;
  hash : Hash;
  size : Z
}.

Definition withSignature (s : option Signature) (f : fields) : fields :=
  {| version := version f; timestamp := timestamp f; type := type f;
     network := network f; nonce := nonce f; recipient := recipient f;
     tokenAddress := tokenAddress f; amount := amount f; fee := fee f;
     message := message f; payload := payload f;
     referenceHash := referenceHash f; signature := s |}.

End Tx.

Section Codec.
Context `{Platform}.

(* ================================================================== *)
(** ** serialization/PayloadCodec.ts *)

(** [BigInt(value)], the first statement of [encodeScalar]: a TypeError on
    [undefined]. *)
Definition BigInt_of (value : option Z) : result Z :=
  match value with
  | Some v => Ok v
  | None => Err TypeError
  end.

Definition writeOptionalString (value : option string) (writer : RLPWriter.t)
  : RLPWriter.t :=
  match value with
  | None => RLPWriter.writeEmptyList writer
  | Some value =>
      let sublist := RLPWriter.startList writer in
      let sublist := RLPWriter.writeBytes (encodeString value) sublist in
      RLPWriter.addList sublist writer
  end.

Definition writeOptionalAddressField (address : option Address) (writer : RLPWriter.t)
  : RLPWriter.t :=
  match address with
  | None => RLPWriter.writeEmptyList writer
  | Some address =>
      let sublist := RLPWriter.startList writer in
      let sublist := RLPWriter.writeBytes (hexToBytes address) sublist in
      RLPWriter.addList sublist writer
  end.

Definition writeOptionalBigInteger (value : option Z) (writer : RLPWriter.t)
  : RLPWriter.t :=
  match value with
  | None => RLPWriter.writeEmptyList writer
  | Some value =>
      let sublist := RLPWriter.startList writer in
      let sublist := RLPWriter.writeBigIntegerScalar value sublist in
      RLPWriter.addList sublist writer
  end.

(** [s || null] on a nullable string: the empty string is falsy. *)
Definition orNull (s : option string) : option string :=
  match s with
  | Some EmptyString => None
  | _ => s
  end.

(** The [switch] on [payload.payloadType]: one arm per enum member, the
    [default] arm for a payload whose tag is none of them. *)
Definition encodePayloadFields (payload : TxPayload) (writer : RLPWriter.t)
  : result RLPWriter.t :=
  match payload with
  | TokenMintPayload tokenAddress recipient amount =>
      let writer := RLPWriter.writeBytes (hexToBytes tokenAddress) writer in
      let writer := RLPWriter.writeBytes (hexToBytes recipient) writer in
      Ok (RLPWriter.writeBigIntegerScalar amount writer)
  | TokenBurnPayload tokenAddress sender amount =>
      let writer := RLPWriter.writeBytes (hexToBytes tokenAddress) writer in
      let writer := RLPWriter.writeBytes (hexToBytes sender) writer in
      Ok (RLPWriter.writeBigIntegerScalar amount writer)
  | TokenCreatePayload name smallestUnitName numberOfDecimals websiteUrl logoUrl
      maxSupply userBurnable =>
      let writer := RLPWriter.writeBytes (encodeString name) writer in
      let writer := RLPWriter.writeBytes (encodeString smallestUnitName) writer in
      (* writeIntScalar(p.numberOfDecimals): BigInt(value) in encodeScalar *)
      numberOfDecimals <- BigInt_ofNumber numberOfDecimals ;;
      let writer := RLPWriter.writeIntScalar numberOfDecimals writer in
      let writer := writeOptionalString (orNull websiteUrl) writer in
      let writer := writeOptionalString (orNull logoUrl) writer in
      let writer := writeOptionalBigInteger maxSupply writer in
      Ok (RLPWriter.writeIntScalar (if userBurnable then 1 else 0) writer)
  | TokenUpdatePayload tokenAddress name smallestUnitName websiteUrl logoUrl =>
      let writer := RLPWriter.writeBytes (hexToBytes tokenAddress) writer in
      let writer := writeOptionalString name writer in
      let writer := writeOptionalString smallestUnitName writer in
      let writer := writeOptionalString websiteUrl writer in
      Ok (writeOptionalString logoUrl writer)
  | VotePayload voteType =>
      voteType <- BigInt_ofNumber voteType ;;
      Ok (RLPWriter.writeIntScalar voteType writer)
  | AddressAliasAddPayload address alias =>
      let writer := RLPWriter.writeBytes (encodeString alias) writer in
      Ok (RLPWriter.writeBytes (hexToBytes address) writer)
  | AddressAliasRemovePayload alias =>
      Ok (RLPWriter.writeBytes (encodeString alias) writer)
  | AuthorityAddPayload authorityAddress =>
      Ok (RLPWriter.writeBytes (hexToBytes authorityAddress) writer)
  | AuthorityRemovePayload authorityAddress =>
      Ok (RLPWriter.writeBytes (hexToBytes authorityAddress) writer)
  | NetworkParamsSetPayload blockReward blockRewardPoolAddress targetMiningTimeMs
      asertHalfLifeBlocks minDifficulty minTxBaseFee minTxByteFee =>
      let writer := RLPWriter.writeOptionalWeiScalar blockReward writer in
      let writer := writeOptionalAddressField blockRewardPoolAddress writer in
      let writer := RLPWriter.writeOptionalLongScalar targetMiningTimeMs writer in
      let writer := RLPWriter.writeOptionalLongScalar asertHalfLifeBlocks writer in
      let writer := writeOptionalBigInteger minDifficulty writer in
      let writer := RLPWriter.writeOptionalWeiScalar minTxBaseFee writer in
      Ok (RLPWriter.writeOptionalWeiScalar minTxByteFee writer)
  | ValidatorAddPayload _ => Err UnknownPayloadType
  | ValidatorRemovePayload _ => Err UnknownPayloadType
  end.

Definition encodePayload (payload : option TxPayload) (_version : TxVersion)
  : result bytes :=
  match payload with
  | None => Ok EMPTY_LIST
  | Some payload =>
      let writer := RLPWriter.new in
      (* writer.writeIntScalar(payload.payloadType), before the switch *)
      code <- BigInt_of (option_map payloadTypeCode (payloadType payload)) ;;
      let writer := RLPWriter.writeIntScalar code writer in
      writer <- encodePayloadFields payload writer ;;
      Ok (RLPWriter.encode writer)
  end.

(** [decodePayload], from the unwrapping of the optional wrapper on. *)
Definition decodePayloadList (data : list RLPDecoded) : result (option TxPayload) :=
  let data := match data with
              | [DList inner] => inner
              | _ => data
              end in
  match data with
  | [] => Ok None
  | _ :: _ =>
      let at_ (i : nat) := nth_error data i in
      code <- decodeInt (at_ 0%nat) ;;
      type <- txPayloadTypeFromCode code ;;
      match type with
      | BIP_TOKEN_MINT =>
          tokenAddress <- decodeAddress (at_ 1%nat) ;;
          recipient <- decodeAddress (at_ 2%nat) ;;
          amount <- decodeBigint (at_ 3%nat) ;;
          Ok (Some (TokenMintPayload tokenAddress recipient amount))
      | BIP_TOKEN_BURN =>
          tokenAddress <- decodeAddress (at_ 1%nat) ;;
          sender <- decodeAddress (at_ 2%nat) ;;
          amount <- decodeBigint (at_ 3%nat) ;;
          Ok (Some (TokenBurnPayload tokenAddress sender amount))
      | BIP_TOKEN_CREATE =>
          name <- decodeString (at_ 1%nat) ;;
          smallestUnitName <- decodeString (at_ 2%nat) ;;
          numberOfDecimals <- decodeInt (at_ 3%nat) ;;
          websiteUrl <- decodeOptionalString (at_ 4%nat) ;;
          logoUrl <- decodeOptionalString (at_ 5%nat) ;;
          maxSupply <- decodeOptionalBigint (at_ 6%nat) ;;
          userBurnable <- decodeInt (at_ 7%nat) ;;
          Ok (Some (TokenCreatePayload name smallestUnitName numberOfDecimals
                      (Some (match websiteUrl with Some s => s | None => "" end))
                      (Some (match logoUrl with Some s => s | None => "" end))
                      (Some (match maxSupply with Some n => n | None => 0 end))
                      (number_eqb userBurnable 1)))
      | BIP_TOKEN_UPDATE =>
          tokenAddress <- decodeAddress (at_ 1%nat) ;;
          name <- decodeOptionalString (at_ 2%nat) ;;
          smallestUnitName <- decodeOptionalString (at_ 3%nat) ;;
          websiteUrl <- decodeOptionalString (at_ 4%nat) ;;
          logoUrl <- decodeOptionalString (at_ 5%nat) ;;
          Ok (Some (TokenUpdatePayload tokenAddress name smallestUnitName
                      websiteUrl logoUrl))
      | BIP_VOTE_PAYLOAD =>
          voteType <- decodeInt (at_ 1%nat) ;;
          Ok (Some (VotePayload voteType))
      | BIP_ADDRESS_ALIAS_ADD =>
          alias <- decodeString (at_ 1%nat) ;;
          address <- decodeAddress (at_ 2%nat) ;;
          Ok (Some (AddressAliasAddPayload address alias))
      | BIP_ADDRESS_ALIAS_REMOVE =>
          alias <- decodeString (at_ 1%nat) ;;
          Ok (Some (AddressAliasRemovePayload alias))
      | BIP_AUTHORITY_ADD =>
          authorityAddress <- decodeAddress (at_ 1%nat) ;;
          Ok (Some (AuthorityAddPayload authorityAddress))
      | BIP_AUTHORITY_REMOVE =>
          authorityAddress <- decodeAddress (at_ 1%nat) ;;
          Ok (Some (AuthorityRemovePayload authorityAddress))
      | BIP_NETWORK_PARAMS_SET =>
          blockReward <- decodeOptionalBigint (at_ 1%nat) ;;
          blockRewardPoolAddress <- decodeOptionalAddress (at_ 2%nat) ;;
          targetMiningTimeMs <- decodeOptionalBigint (at_ 3%nat) ;;
          asertHalfLifeBlocks <- decodeOptionalBigint (at_ 4%nat) ;;
          minDifficulty <- decodeOptionalBigint (at_ 5%nat) ;;
          minTxBaseFee <- decodeOptionalBigint (at_ 6%nat) ;;
          minTxByteFee <- decodeOptionalBigint (at_ 7%nat) ;;
          Ok (Some (NetworkParamsSetPayload blockReward blockRewardPoolAddress
                      targetMiningTimeMs asertHalfLifeBlocks minDifficulty
                      minTxBaseFee minTxByteFee))
      end
  end.

Definition decodePayload (data : option RLPDecoded) (_version : TxVersion)
  : result (option TxPayload) :=
  match data with
  | Some (DBytes b) =>
      if (len b =? 0)
         || (len b =? 1) && (match b with x :: _ => byteZ x =? 192 | [] => false end)
      then Ok None
      else
        decoded <- rlpDecode b ;;
        match decoded with
        | DBytes _ => Err InvalidPayloadExpectedList
        | DList [] => Ok None
        | DList l => decodePayloadList l
        end
  | Some (DList []) => Ok None
  | Some (DList l) => decodePayloadList l
  | None => Ok None
  end.

(* ================================================================== *)
(** ** serialization/TxEncoder.ts *)

Definition writeOptionalAddress (address : option Address) (writer : RLPWriter.t)
  : RLPWriter.t :=
  match address with
  | None => RLPWriter.writeEmptyList writer
  | Some address =>
      let sublist := RLPWriter.startList writer in
      let sublist := RLPWriter.writeBytes (hexToBytes address) sublist in
      RLPWriter.addList sublist writer
  end.

Definition isEmptyPayload (b : bytes) : bool :=
  (len b =? 1) && (match b with x :: _ => byteZ x =? 192 | [] => false end).

(** A string in a condition: [null] and the empty string are falsy. *)
Definition truthy (s : option string) : option string := orNull s.

(** The writes of [encodeTxV1], up to [writer.encode()]. *)
Definition encodeTxV1_writer (tx : Tx.fields) (includeSignature : bool)
  : result RLPWriter.t :=
  let writer := RLPWriter.new in
  let writer := RLPWriter.writeIntScalar (versionCode (Tx.version tx)) writer in
  timestamp <- BigInt_ofNumber (Tx.timestamp tx) ;;
  let writer := RLPWriter.writeLongScalar timestamp writer in
  let writer := RLPWriter.writeIntScalar (txTypeCode (Tx.type tx)) writer in
  let writer := RLPWriter.writeIntScalar (networkCode (Tx.network tx)) writer in
  let writer := RLPWriter.writeOptionalLongScalar (Tx.nonce tx) writer in
  let writer := writeOptionalAddress (Tx.recipient tx) writer in
  let writer := writeOptionalAddress (Tx.tokenAddress tx) writer in
  let writer := RLPWriter.writeOptionalWeiScalar (Tx.amount tx) writer in
  let writer := RLPWriter.writeWeiScalar (Tx.fee tx) writer in
  let writer := RLPWriter.writeOptionalBytes (Tx.message tx) writer in
  payloadBytes <- encodePayload (Tx.payload tx) (Tx.version tx) ;;
  let writer :=
    if (len payloadBytes =? 0) || isEmptyPayload payloadBytes
    then RLPWriter.writeEmptyList writer
    else RLPWriter.writeOptionalRaw (Some payloadBytes) writer in
  let writer :=
    RLPWriter.writeOptionalBytes32
      (match truthy (Tx.referenceHash tx) with
       | Some h => Some (inl (hexToBytes h))
       | None => None
       end) writer in
  let writer :=
    match (if includeSignature then truthy (Tx.signature tx) else None) with
    | Some s => RLPWriter.writeBytes (hexToBytes s) writer
    | None => writer
    end in
  Ok writer.

Definition encodeTxV1 (tx : Tx.fields) (includeSignature : bool) : result bytes :=
  writer <- encodeTxV1_writer tx includeSignature ;;
  Ok (RLPWriter.encode writer).

Definition encodeTx (tx : Tx.fields) (includeSignature : bool) : result bytes :=
  match Tx.version tx with
  | V1 => encodeTxV1 tx includeSignature
  end.

(* ================================================================== *)
(** ** crypto/PrivateKey.ts: [hash]; utils/TxUtil.ts *)

Definition hash (data : bytes + Hex) : result Hash :=
  match data with
  | inr h => toHash (inr (keccak256 (hexToBytes h)))
  | inl b => toHash (inr (keccak256 b))
  end.

Definition hashForSigning (tx : Tx.fields) : result Hash :=
  data <- encodeTx tx false ;; hash (inl data).

Definition hashTx (tx : Tx.fields) : result Hash :=
  data <- encodeTx tx true ;; hash (inl data).

Definition sizeTx (tx : Tx.fields) : result Z :=
  data <- encodeTx tx true ;; Ok (len data).

End Codec.

(* ================================================================== *)
(** ** crypto/PrivateKey.ts *)

Definition CURVE_N : Z :=
  115792089237316195423570985008687907852837564279074904382605163141518161494337.
Definition HALF_CURVE_ORDER : Z := Z.shiftr CURVE_N 1.

(** [BigInt(bytesToHex(bytes))] *)
Definition bigintOfBytes (b : bytes) : result Z := BigInt_ofHex (bytesToHex b).

Module PrivateKey.
Section WithPlatform.
Context `{Platform}.

Record t : Type := { keyBytes : bytes }.

(** The constructor. *)
Definition make (b : bytes) : result t :=
  if negb (len b =? 32) then Err PrivateKeyLength
  else
    d <- bigintOfBytes b ;;
    if (d <=? 0) || (CURVE_N <=? d) then Err PrivateKeyRange
    else Ok {| keyBytes := b |}.

Definition wrap (value : bytes + Hex) : result t :=
  match value with
  | inr h => make (hexToBytes h)
  | inl b => make b
  end.

Definition toBytes (k : t) : bytes := keyBytes k.
Definition toHex (k : t) : Hex := bytesToHex (keyBytes k).

Definition getPublicKey (k : t) : bytes :=
  sliceFrom 1 (secp256k1_getPublicKey (keyBytes k) false).

Definition getPublicKeyCompressed (k : t) : bytes :=
  secp256k1_getPublicKey (keyBytes k) true.

Definition getAddress (k : t) : result Address :=
  let publicKey := getPublicKey k in
  let hash := keccak256 publicKey in
  let addressHex := ("0x" ++ sliceLast 40 hash)%string in
  toAddress (inr addressHex).

Definition sign (k : t) (messageHash : Hash) : result Signature :=
  let hashBytes := hexToBytes messageHash in
  let sig := secp256k1_sign hashBytes (keyBytes k) in
  let r := sig_r sig in
  let s := sig_s sig in
  let finalS := if HALF_CURVE_ORDER <? s then CURVE_N - s else s in
  let recoveryId := sig_recovery sig in
  let v := recoveryId + 27 in
  let signatureBytes := repeat x00 65 in
  let rHex := padStart 64 "0" (toString16 r) in
  let rBytes := hexToBytes ("0x" ++ rHex)%string in
  signatureBytes <- typedSet signatureBytes rBytes 0 ;;
  let sHex := padStart 64 "0" (toString16 finalS) in
  let sBytes := hexToBytes ("0x" ++ sHex)%string in
  signatureBytes <- typedSet signatureBytes sBytes 32 ;;
  signatureBytes <- typedSet signatureBytes [toUint8 v] 64 ;;
  toSignature (inl signatureBytes).

End WithPlatform.
End PrivateKey.

Section Crypto.
Context `{Platform}.

Definition recoverAddress (messageHash : Hash) (signature : Signature)
  : result Address :=
  let hashBytes := hexToBytes messageHash in
  let sigBytes := hexToBytes signature in
  if negb (len sigBytes =? 65) then Err SignatureMustBe65
  else
    r <- bigintOfBytes (slice 0 32 sigBytes) ;;
    s <- bigintOfBytes (slice 32 64 sigBytes) ;;
    let v := byteZ (nth 64 sigBytes x00) in
    let recoveryId := v - 27 in
    if negb (recoveryId =? 0) && negb (recoveryId =? 1) then Err InvalidRecoveryId
    else
      raw <- secp256k1_recover r s recoveryId hashBytes ;;
      let publicKey := sliceFrom 1 raw in
      let hash := keccak256 publicKey in
      let addressHex := ("0x" ++ sliceLast 40 hash)%string in
      toAddress (inr addressHex).

Definition validateSignature (messageHash : Hash) (signature : Signature)
    (expectedAddress : Address) : bool :=
  match recoverAddress messageHash signature with
  | Ok recovered => String.eqb (toLowerCase recovered) (toLowerCase expectedAddress)
  | Err _ => false
  end.

End Crypto.

(** The body of the [try] block of [isSignatureStructurallyValid]. *)
Definition isSignatureStructurallyValid_try (signature : Signature) : result bool :=
  let sigBytes := hexToBytes signature in
  if negb (len sigBytes =? 65) then Ok false
  else
    let v := byteZ (nth 64 sigBytes x00) in
    if negb (v =? 27) && negb (v =? 28) then Ok false
    else
      r <- bigintOfBytes (slice 0 32 sigBytes) ;;
      s <- bigintOfBytes (slice 32 64 sigBytes) ;;
      if (r <=? 0) || (CURVE_N <=? r) then Ok false
      else if (s <=? 0) || (CURVE_N <=? s) then Ok false
      else if HALF_CURVE_ORDER <? s then Ok false
      else Ok true.

(** [try { ... } catch { return false }] *)
Definition isSignatureStructurallyValid (signature : Signature) : bool :=
  match isSignatureStructurallyValid_try signature with
  | Ok b => b
  | Err _ => false
  end.

(* ================================================================== *)
(** ** serialization/TxDecoder.ts *)

Section Decoder.
Context `{Platform}.

Definition decodeTxV1 (items : list RLPDecoded) (originalBytes : bytes)
  : result Tx.t :=
  let at_ (i : nat) := nth_error items i in
  version <- (c <- decodeInt (at_ 0%nat) ;; txVersionFromCode c) ;;
  timestamp <- decodeInt (at_ 1%nat) ;;
  type <- (c <- decodeInt (at_ 2%nat) ;; txTypeFromCode c) ;;
  network <- (c <- decodeInt (at_ 3%nat) ;; networkFromCode c) ;;
  nonce <- decodeOptionalBigint (at_ 4%nat) ;;
  recipient <- decodeOptionalAddress (at_ 5%nat) ;;
  tokenAddress <- decodeOptionalAddress (at_ 6%nat) ;;
  amount <- decodeOptionalBigint (at_ 7%nat) ;;
  fee <- decodeBigint (at_ 8%nat) ;;
  let message := decodeOptionalBytes (at_ 9%nat) in
  payload <- decodePayload (at_ 10%nat) version ;;
  referenceHash <- decodeOptionalHash (at_ 11%nat) ;;
  (* Signature is last item *)
  signature <-
    match at_ 12%nat with
    | Some (DBytes sigBytes) =>
        if negb (len sigBytes =? 65) then Err InvalidSignatureLength
        else toSignature (inl sigBytes)
    | Some (DList l) =>
        (* an array of 65 items reaches toSignature, which calls startsWith *)
        if negb (len l =? 65) then Err InvalidSignatureLength else Err TypeError
    | None => Err InvalidSignatureLength
    end ;;
  let partialTx :=
    {| Tx.version := version; Tx.timestamp := timestamp; Tx.type := type;
       Tx.network := network;
       Tx.nonce := Some (match nonce with Some n => n | None => 0 end);
       Tx.recipient := recipient; Tx.tokenAddress := tokenAddress;
       Tx.amount := amount; Tx.fee := fee; Tx.message := message;
       Tx.payload := payload; Tx.referenceHash := referenceHash;
       Tx.signature := None |} in
  signingHash <- hashForSigning partialTx ;;
  sender <- recoverAddress signingHash signature ;;
  let fields := Tx.withSignature (Some signature) partialTx in
  hash <- hashTx fields ;;
  Ok {| Tx.rlp := fields; Tx.sender := sender; Tx.hash := hash;
        Tx.size := len originalBytes |}.

(** [typeof rlpBytes === 'string' ? hexToBytes(rlpBytes) : rlpBytes] *)
Definition inputBytes (rlpBytes : bytes + Hex) : bytes :=
  match rlpBytes with
  | inr h => hexToBytes h
  | inl b => b
  end.

Definition decodeTx (rlpBytes : bytes + Hex) : result Tx.t :=
  let b := inputBytes rlpBytes in
  if len b =? 0 then Err CannotDecodeEmpty
  else
    decoded <- rlpDecode b ;;
    match decoded with
    | DBytes _ => Err ExpectedList
    | DList items =>
        if len items <? 1 then Err MissingVersion
        else
          version <- (c <- decodeInt (nth_error items 0) ;; txVersionFromCode c) ;;
          match version with
          | V1 => decodeTxV1 items b
          end
    end.

End Decoder.

(* ================================================================== *)
(** ** tx/TxBuilder.ts *)

(** [TxInput]: a property that may be left out is an [option], [None] being
    [undefined]; [message] is bytes, a hex string or a text. *)
Inductive MessageInput : Type :=
| MsgBytes (b : bytes)
| MsgString (s : string).

Record TxInput : Type := {
  in_type : TxType;
  in_network : Network;
  in_nonce : Z;
  in_fee : option Z;
  in_version : option TxVersion;
  in_timestamp : option Z;
  in_recipient : option (option Address);
  in_tokenAddress : option Address;
  in_amount : option (option Z);
  in_message : option (option MessageInput);
  in_payload : option (option TxPayload);
  in_referenceHash : option (option Hash)
}.

Module TxBuilder.
Section WithPlatform.
Context `{Platform}.

(** The private fields of the builder. *)
Record t : Type := {
  _version : TxVersion;
  _timestamp : Z;
  _type : option TxType;
  _network : option Network;
  _nonce : option Z;
  _recipient : option Address;
  _tokenAddress : option Address;
  _amount : option Z;
  _fee : Z;
  _message : option bytes;
  _payload : option TxPayload;
  _referenceHash : option Hash
}.

(** [TxBuilder.create()]; [now] is what [Date.now()] returns. *)
Definition create (now : Z) : t :=
  {| _version := V1; _timestamp := now; _type := None;
     _network := None; _nonce := None; _recipient := None;
     _tokenAddress := None; _amount := None; _fee := 0;
     _message := None; _payload := None; _referenceHash := None |}.

Definition version (version : TxVersion) (b : t) : t :=
  {| _version := version; _timestamp := _timestamp b; _type := _type b;
     _network := _network b; _nonce := _nonce b; _recipient := _recipient b;
     _tokenAddress := _tokenAddress b; _amount := _amount b; _fee := _fee b;
     _message := _message b; _payload := _payload b; _referenceHash := _referenceHash b |}.

Definition timestamp (timestamp : Z) (b : t) : t :=
  {| _version := _version b; _timestamp := timestamp; _type := _type b;
     _network := _network b; _nonce := _nonce b; _recipient := _recipient b;
     _tokenAddress := _tokenAddress b; _amount := _amount b; _fee := _fee b;
     _message := _message b; _payload := _payload b; _referenceHash := _referenceHash b |}.

Definition type (type : TxType) (b : t) : t :=
  {| _version := _version b; _timestamp := _timestamp b; _type := Some type;
     _network := _network b; _nonce := _nonce b; _recipient := _recipient b;
     _tokenAddress := _tokenAddress b; _amount := _amount b; _fee := _fee b;
     _message := _message b; _payload := _payload b; _referenceHash := _referenceHash b |}.

Definition network (network : Network) (b : t) : t :=
  {| _version := _version b; _timestamp := _timestamp b; _type := _type b;
     _network := Some network; _nonce := _nonce b; _recipient := _recipient b;
     _tokenAddress := _tokenAddress b; _amount := _amount b; _fee := _fee b;
     _message := _message b; _payload := _payload b; _referenceHash := _referenceHash b |}.

Definition nonce (nonce : Z) (b : t) : t :=
  {| _version := _version b; _timestamp := _timestamp b; _type := _type b;
     _network := _network b; _nonce := Some nonce; _recipient := _recipient b;
     _tokenAddress := _tokenAddress b; _amount := _amount b; _fee := _fee b;
     _message := _message b; _payload := _payload b; _referenceHash := _referenceHash b |}.

Definition recipient (recipient : Address) (b : t) : t :=
  {| _version := _version b; _timestamp := _timestamp b; _type := _type b;
     _network := _network b; _nonce := _nonce b; _recipient := Some recipient;
     _tokenAddress := _tokenAddress b; _amount := _amount b; _fee := _fee b;
     _message := _message b; _payload := _payload b; _referenceHash := _referenceHash b |}.

Definition tokenAddress (tokenAddress : option Address) (b : t) : t :=
  {| _version := _version b; _timestamp := _timestamp b; _type := _type b;
     _network := _network b; _nonce := _nonce b; _recipient := _recipient b;
     _tokenAddress := tokenAddress; _amount := _amount b; _fee := _fee b;
     _message := _message b; _payload := _payload b; _referenceHash := _referenceHash b |}.

Definition amount (amount : Z) (b : t) : t :=
  {| _version := _version b; _timestamp := _timestamp b; _type := _type b;
     _network := _network b; _nonce := _nonce b; _recipient := _recipient b;
     _tokenAddress := _tokenAddress b; _amount := Some amount; _fee := _fee b;
     _message := _message b; _payload := _payload b; _referenceHash := _referenceHash b |}.

Definition fee (fee : Z) (b : t) : t :=
  {| _version := _version b; _timestamp := _timestamp b; _type := _type b;
     _network := _network b; _nonce := _nonce b; _recipient := _recipient b;
     _tokenAddress := _tokenAddress b; _amount := _amount b; _fee := fee;
     _message := _message b; _payload := _payload b; _referenceHash := _referenceHash b |}.

Definition message (message : bytes) (b : t) : t :=
  {| _version := _version b; _timestamp := _timestamp b; _type := _type b;
     _network := _network b; _nonce := _nonce b; _recipient := _recipient b;
     _tokenAddress := _tokenAddress b; _amount := _amount b; _fee := _fee b;
     _message := Some message; _payload := _payload b; _referenceHash := _referenceHash b |}.

Definition messageString (message : string) (b : t) : t :=
  {| _version := _version b; _timestamp := _timestamp b; _type := _type b;
     _network := _network b; _nonce := _nonce b; _recipient := _recipient b;
     _tokenAddress := _tokenAddress b; _amount := _amount b; _fee := _fee b;
     _message := Some (TextEncoder_encode message); _payload := _payload b; _referenceHash := _referenceHash b |}.

Definition messageHex (message : Hex) (b : t) : t :=
  {| _version := _version b; _timestamp := _timestamp b; _type := _type b;
     _network := _network b; _nonce := _nonce b; _recipient := _recipient b;
     _tokenAddress := _tokenAddress b; _amount := _amount b; _fee := _fee b;
     _message := Some (hexToBytes message); _payload := _payload b; _referenceHash := _referenceHash b |}.

Definition payload (payload : TxPayload) (b : t) : t :=
  {| _version := _version b; _timestamp := _timestamp b; _type := _type b;
     _network := _network b; _nonce := _nonce b; _recipient := _recipient b;
     _tokenAddress := _tokenAddress b; _amount := _amount b; _fee := _fee b;
     _message := _message b; _payload := Some payload; _referenceHash := _referenceHash b |}.

Definition referenceHash (hash : Hash) (b : t) : t :=
  {| _version := _version b; _timestamp := _timestamp b; _type := _type b;
     _network := _network b; _nonce := _nonce b; _recipient := _recipient b;
     _tokenAddress := _tokenAddress b; _amount := _amount b; _fee := _fee b;
     _message := _message b; _payload := _payload b; _referenceHash := Some hash |}.

(** The assignments of [TxBuilder.from]: a nullable property is stored as
    it is. *)
Definition setRecipient (x : option Address) (b : t) : t :=
  {| _version := _version b; _timestamp := _timestamp b; _type := _type b;
     _network := _network b; _nonce := _nonce b; _recipient := x;
     _tokenAddress := _tokenAddress b; _amount := _amount b; _fee := _fee b;
     _message := _message b; _payload := _payload b; _referenceHash := _referenceHash b |}.

Definition setAmount (x : option Z) (b : t) : t :=
  {| _version := _version b; _timestamp := _timestamp b; _type := _type b;
     _network := _network b; _nonce := _nonce b; _recipient := _recipient b;
     _tokenAddress := _tokenAddress b; _amount := x; _fee := _fee b;
     _message := _message b; _payload := _payload b; _referenceHash := _referenceHash b |}.

Definition setPayload (x : option TxPayload) (b : t) : t :=
  {| _version := _version b; _timestamp := _timestamp b; _type := _type b;
     _network := _network b; _nonce := _nonce b; _recipient := _recipient b;
     _tokenAddress := _tokenAddress b; _amount := _amount b; _fee := _fee b;
     _message := _message b; _payload := x; _referenceHash := _referenceHash b |}.

Definition setReferenceHash (x : option Hash) (b : t) : t :=
  {| _version := _version b; _timestamp := _timestamp b; _type := _type b;
     _network := _network b; _nonce := _nonce b; _recipient := _recipient b;
     _tokenAddress := _tokenAddress b; _amount := _amount b; _fee := _fee b;
     _message := _message b; _payload := _payload b; _referenceHash := x |}.

(** [if (input.x !== undefined) builder._x = input.x] *)
Definition assign {A} (value : option A) (set : A -> t -> t) (b : t) : t :=
  match value with
  | Some x => set x b
  | None => b
  end.

(** [TxBuilder.from(input)] *)
Definition from (now : Z) (input : TxInput) : t :=
  let b := create now in
  let b := type (in_type input) b in
  let b := network (in_network input) b in
  let b := nonce (in_nonce input) b in
  let b := assign (in_version input) version b in
  let b := assign (in_timestamp input) timestamp b in
  let b := assign (in_fee input) fee b in
  let b := assign (in_recipient input) setRecipient b in
  let b := assign (in_tokenAddress input) (fun x => tokenAddress (Some x)) b in
  let b := assign (in_amount input) setAmount b in
  let b := assign (in_payload input) setPayload b in
  let b := assign (in_referenceHash input) setReferenceHash b in
  match in_message input with
  | Some (Some (MsgString s)) =>
      if startsWith0x s then messageHex s b else messageString s b
  | Some (Some (MsgBytes m)) => message m b
  | _ => b
  end.

Definition validate (b : t) : result unit :=
  match _type b with
  | None => Err (TxBuilderError TypeRequired)
  | Some type =>
      match _network b with
      | None => Err (TxBuilderError NetworkRequired)
      | Some _ =>
          match _nonce b with
          | None => Err (TxBuilderError NonceRequired)
          | Some _ =>
              match type with
              | TRANSFER =>
                  match _recipient b with
                  | None => Err (TxBuilderError RecipientRequired)
                  | Some _ => Ok tt
                  end
              | BIP_CREATE =>
                  match _payload b with
                  | None => Err (TxBuilderError PayloadRequiredCreate)
                  | Some _ =>
                      match _amount b with
                      | Some _ => Err (TxBuilderError AmountMustBeNullCreate)
                      | None => Ok tt
                      end
                  end
              | BIP_VOTE =>
                  match _payload b with
                  | None => Err (TxBuilderError PayloadRequiredVote)
                  | Some _ =>
                      match _referenceHash b with
                      | None => Err (TxBuilderError ReferenceHashRequired)
                      | Some _ =>
                          match _amount b with
                          | Some _ => Err (TxBuilderError AmountMustBeNullVote)
                          | None => Ok tt
                          end
                      end
                  end
              end
          end
      end
  end.

(** [buildUnsigned]: after [validate], [this._type!], [this._network!] and
    [this._nonce!] are not null. *)
Definition buildUnsigned (b : t) : result Tx.fields :=
  _ <- validate b ;;
  match _type b, _network b, _nonce b with
  | Some type, Some network, Some nonce =>
      Ok {| Tx.version := _version b; Tx.timestamp := _timestamp b;
            Tx.type := type; Tx.network := network; Tx.nonce := Some nonce;
            Tx.recipient := _recipient b; Tx.tokenAddress := _tokenAddress b;
            Tx.amount := _amount b; Tx.fee := _fee b;
            Tx.message := option_map DBytes (_message b); Tx.payload := _payload b;
            Tx.referenceHash := _referenceHash b; Tx.signature := None |}
  | _, _, _ => Err IllTyped
  end.

Definition sign (b : t) (privateKey : PrivateKey.t) : result Tx.t :=
  unsignedTx <- buildUnsigned b ;;
  txHashForSigning <- hashForSigning unsignedTx ;;
  signature <- PrivateKey.sign privateKey txHashForSigning ;;
  sender <- PrivateKey.getAddress privateKey ;;
  let fields := Tx.withSignature (Some signature) unsignedTx in
  hash <- hashTx fields ;;
  size <- sizeTx fields ;;
  Ok {| Tx.rlp := fields; Tx.sender := sender; Tx.hash := hash; Tx.size := size |}.

Definition computeSigningHash (b : t) : result Hash :=
  unsignedTx <- buildUnsigned b ;;
  hashForSigning unsignedTx.

Definition estimateSize (b : t) : result Z :=
  unsignedTx <- buildUnsigned b ;;
  let mock := ("0x" ++ strRepeat "0" 130)%string in
  sizeTx (Tx.withSignature (Some mock) unsignedTx).

End WithPlatform.
End TxBuilder.

(* ================================================================== *)
(** ** types.ts: [isHash], [isSignature] *)

(** [/^0x[0-9a-fA-F]{n}$/.test(value)] *)
Definition isHexDigit (c : ascii) : bool :=
  match hexVal c with
  | Some _ => true
  | None => false
  end.

Fixpoint allHexDigits (s : string) : bool :=
  match s with
  | EmptyString => true
  | String c r => isHexDigit c && allHexDigits r
  end.

Definition test0xHex (n : nat) (value : string) : bool :=
  match value with
  | String "0" (String "x" r) => (String.length r =? n)%nat && allHexDigits r
  | _ => false
  end.

Definition isHash (value : string) : bool :=
  if negb (startsWith0x value) then false
  else if negb (String.length value =? 66)%nat then false
  else test0xHex 64 value.

Definition isSignature (value : string) : bool :=
  if negb (startsWith0x value) then false
  else if negb (String.length value =? 132)%nat then false
  else test0xHex 130 value.

(* ================================================================== *)
(** ** types.ts: [padHex], [bigintToHex], [hexToBigint] *)

Definition padHex (hex : Hex) (byteLength : Z) : Hex :=
  ("0x" ++ padStart (Z.to_nat (byteLength * 2)) "0" (stripHexPrefix hex))%string.

(** [byteLength] is [None] when the argument is left out. *)
Definition bigintToHex (value : Z) (byteLength : option Z) : Hex :=
  let hex := toString16 value in
  let hex := if negb (Nat.even (String.length hex)) then String "0" hex else hex in
  let hex :=
    match byteLength with
    | Some n => padStart (Z.to_nat (n * 2)) "0" hex
    | None => hex
    end in
  ("0x" ++ hex)%string.

Definition hexToBigint (hex : Hex) : result Z := BigInt_ofString hex.

(* ================================================================== *)
(** ** utils/Amounts.ts

    [decimals] is an integer here. *)

Module Amounts.

Inductive outcome (A : Type) : Type :=
| Value (a : A)
| DecimalsOutOfRange                 (* 'Decimals must be between 0 and 18' *)
| Thrown (e : error).                (* what [BigInt] threw *)
Arguments Value {A} a.
Arguments DecimalsOutOfRange {A}.
Arguments Thrown {A} e.

Definition DECIMALS_STANDARD : Z := 8.
Definition DECIMALS_MAX : Z := 18.
Definition WEI_PER_TOKEN : Z := 10 ^ DECIMALS_STANDARD.

Definition tokens (t : Z) : Z := t * WEI_PER_TOKEN.

Definition parseWithDecimals (tokensDecimal : string) (decimals : Z) : outcome Z :=
  if (decimals <? 0) || (DECIMALS_MAX <? decimals) then DecimalsOutOfRange
  else
    let isNegative := startsWithChar "-" tokensDecimal in
    let cleanValue :=
      if isNegative then substring 1 (String.length tokensDecimal - 1) tokensDecimal
      else tokensDecimal in
    let parts := splitDot cleanValue in
    let integerPart := orElse (nth_error parts 0) "0" in
    let fractionalPart :=
      padEnd (Z.to_nat decimals) "0"
        (substring 0 (Z.to_nat decimals) (orElse (nth_error parts 1) "")) in
    let combined := (integerPart ++ fractionalPart)%string in
    match BigInt_ofString combined with
    | Ok result => Value (if isNegative then - result else result)
    | Err e => Thrown e
    end.

Definition parseTokens (tokensDecimal : string) : outcome Z :=
  parseWithDecimals tokensDecimal DECIMALS_STANDARD.

Definition formatWithDecimals (wei : Z) (decimals : Z) : outcome string :=
  if (decimals <? 0) || (DECIMALS_MAX <? decimals) then DecimalsOutOfRange
  else
    let isNegative := wei <? 0 in
    let absWei := if isNegative then - wei else wei in
    let divisor := 10 ^ decimals in
    let integerPart := Z.quot absWei divisor in
    let fractionalPart := Z.rem absWei divisor in
    let result := toString10 integerPart in
    let result :=
      if 0 <? fractionalPart then
        let fracStr := padStart (Z.to_nat decimals) "0" (toString10 fractionalPart) in
        let trimmed := trimTrailingZeros fracStr in
        match trimmed with
        | EmptyString => result
        | String _ _ => (result ++ "." ++ trimmed)%string
        end
      else result in
    Value (if isNegative then String "-" result else result).

Definition formatTokens (wei : Z) : outcome string :=
  formatWithDecimals wei DECIMALS_STANDARD.

End Amounts.

(* ================================================================== *)
(** * Properties *)

(** ** Hexadecimal spelling and scalars *)

Lemma append_assoc (s1 s2 s3 : string) :
  ((s1 ++ s2) ++ s3 = s1 ++ (s2 ++ s3))%string.
Proof. induction s1; simpl; congruence. Qed.

Lemma hexDigits_acc fuel : forall n acc,
  hexDigits fuel n acc = (hexDigits fuel n "" ++ acc)%string.
Proof.
  induction fuel as [|fuel IH]; intros n acc; simpl.
  - reflexivity.
  - destruct (n =? 0); [reflexivity|].
    rewrite IH. rewrite (IH _ (String _ "")).
    rewrite append_assoc. reflexivity.
Qed.

Lemma hexDigits_fuel f : forall g n acc,
  0 <= n < 16 ^ Z.of_nat f -> n < 16 ^ Z.of_nat g ->
  hexDigits f n acc = hexDigits g n acc.
Proof.
  induction f as [|f IH]; intros g n acc Hf Hg.
  - assert (n = 0) by (simpl in Hf; lia). subst n.
    destruct g; reflexivity.
  - destruct g as [|g].
    + assert (n = 0) by (simpl in Hg; lia). subst n. reflexivity.
    + simpl hexDigits. destruct (n =? 0) eqn:E; [reflexivity|].
      apply Z.eqb_neq in E.
      rewrite Nat2Z.inj_succ, Z.pow_succ_r in Hf, Hg by lia.
      apply IH.
      * split; [apply Z.div_pos; lia|].
        apply Z.div_lt_upper_bound; lia.
      * apply Z.div_lt_upper_bound; lia.
Qed.

(** Padding to an even number of digits, as [encodeScalar] does. *)
Definition padEven (hex : string) : string :=
  if Nat.even (String.length hex) then hex else String "0" hex.

Lemma hexPairs_app_le n : forall s1 s2,
  (String.length s1 <= n)%nat ->
  Nat.even (String.length s1) = true ->
  hexPairs (s1 ++ s2) = hexPairs s1 ++ hexPairs s2.
Proof.
  induction n as [|n IH]; intros [|a [|b r]] s2 Hlen Hev;
    cbn [String.length Nat.even] in *;
    try reflexivity; try discriminate; try lia.
  cbn [String.append hexPairs]. rewrite IH by (assumption || lia).
  reflexivity.
Qed.

Lemma hexPairs_app s1 s2 :
  Nat.even (String.length s1) = true ->
  hexPairs (s1 ++ s2) = hexPairs s1 ++ hexPairs s2.
Proof. apply hexPairs_app_le with (n := String.length s1). lia. Qed.

Lemma length_append s1 s2 :
  String.length (s1 ++ s2) = (String.length s1 + String.length s2)%nat.
Proof. induction s1; simpl; congruence. Qed.

Lemma padEven_even s : Nat.even (String.length (padEven s)) = true.
Proof.
  unfold padEven. destruct (Nat.even (String.length s)) eqn:E; [exact E|].
  cbn [String.length]. rewrite Nat.even_succ.
  rewrite <- Nat.negb_even, E. reflexivity.
Qed.

Lemma padEven_app2 s a b :
  padEven (s ++ String a (String b "")) = (padEven s ++ String a (String b ""))%string.
Proof.
  unfold padEven. rewrite length_append. cbn [String.length].
  replace (String.length s + 2)%nat with (S (S (String.length s))) by lia.
  cbn [Nat.even]. destruct (Nat.even (String.length s)); reflexivity.
Qed.

(** One byte and its two digits. *)
Lemma hexPairs_byte (b : byte) :
  hexPairs (String (hexDigit ((byteZ b / 16) mod 16))
             (String (hexDigit (byteZ b mod 16)) "")) = [b].
Proof. destruct b; vm_compute; reflexivity. Qed.

Lemma hexPairs_small (b : byte) :
  hexPairs (padEven (hexDigits 2 (byteZ b) "")) =
  if byteZ b =? 0 then [] else [b].
Proof. destruct b; vm_compute; reflexivity. Qed.

Lemma beValue_app l x : beValue (l ++ [x]) = 256 * beValue l + byteZ x.
Proof. unfold beValue. rewrite fold_left_app. reflexivity. Qed.

Lemma toUint8_zero_iff z : 0 <= z < 256 -> toUint8 z = x00 -> z = 0.
Proof.
  intros Hz E. pose proof (byteZ_toUint8 z) as H. rewrite E in H.
  rewrite Z.mod_small in H by lia. change (byteZ x00) with 0 in H. lia.
Qed.

Lemma nib_lo n : n mod 16 = (n mod 256) mod 16.
Proof. Z.div_mod_to_equations. lia. Qed.

Lemma nib_hi n : (n / 16) mod 16 = ((n mod 256) / 16) mod 16.
Proof. Z.div_mod_to_equations. lia. Qed.

(** The bytes of the padded spelling of [n]: their big-endian value is [n],
    and the first is not zero. *)
Lemma hexDigits_bytes k : forall g n,
  0 < n < 256 ^ Z.of_nat k -> n < 16 ^ Z.of_nat g ->
  let bs := hexPairs (padEven (hexDigits g n "")) in
  beValue bs = n /\ exists b rest, bs = b :: rest /\ b <> x00.
Proof.
  induction k as [|k IH]; intros g n Hk Hg bs.
  - simpl in Hk. lia.
  - destruct (Z.lt_ge_cases n 256) as [Hsmall|Hbig].
    + assert (Hn : n = byteZ (toUint8 n))
        by (rewrite byteZ_toUint8, Z.mod_small; lia).
      assert (E : bs = [toUint8 n]).
      { subst bs. rewrite (@hexDigits_fuel g 2%nat) by (simpl; lia).
        rewrite Hn at 1. rewrite hexPairs_small. rewrite <- Hn.
        destruct (n =? 0) eqn:E0; [apply Z.eqb_eq in E0; lia|reflexivity]. }
      rewrite E. split.
      * unfold beValue. simpl. rewrite byteZ_toUint8, Z.mod_small; lia.
      * exists (toUint8 n), []. split; [reflexivity|].
        intros C. apply toUint8_zero_iff in C; lia.
    + destruct g as [|[|g]]; [simpl in Hg; lia | simpl in Hg; lia |].
      assert (Hg' : n < 256 * 16 ^ Z.of_nat g).
      { rewrite !Nat2Z.inj_succ, !Z.pow_succ_r in Hg by lia. lia. }
      assert (Hk' : n < 256 * 256 ^ Z.of_nat k).
      { rewrite Nat2Z.inj_succ, Z.pow_succ_r in Hk by lia. lia. }
      assert (Hdiv : n / 16 / 16 = n / 256)
        by (Z.div_mod_to_equations; lia).
      assert (E : bs = hexPairs (padEven (hexDigits g (n / 256) ""))
                       ++ [toUint8 (n mod 256)]).
      { subst bs. cbn [hexDigits].
        destruct (n =? 0) eqn:E0; [apply Z.eqb_eq in E0; lia|].
        destruct (n / 16 =? 0) eqn:E1.
        { apply Z.eqb_eq in E1. revert E1. Z.div_mod_to_equations. lia. }
        rewrite Hdiv, hexDigits_acc, padEven_app2.
        rewrite hexPairs_app by apply padEven_even.
        f_equal.
        rewrite (nib_hi n), (nib_lo n).
        rewrite <- (Z.mod_mod n 256) at 1 2 by lia.
        rewrite <- !byteZ_toUint8.
        apply hexPairs_byte. }
      assert (Hq : 0 < n / 256 < 256 ^ Z.of_nat k).
      { split.
        - apply Z.div_str_pos. lia.
        - apply Z.div_lt_upper_bound; lia. }
      assert (Hq' : n / 256 < 16 ^ Z.of_nat g)
        by (apply Z.div_lt_upper_bound; lia).
      destruct (IH g (n / 256) Hq Hq') as (Hv & b & rest & Hb & Hnz).
      rewrite E. split.
      * rewrite beValue_app, Hv, byteZ_toUint8, Z.mod_mod by lia.
        pose proof (Z.div_mod n 256 ltac:(lia)). lia.
      * rewrite Hb. exists b, (rest ++ [toUint8 (n mod 256)]).
        split; [reflexivity|exact Hnz].
Qed.

Lemma hexDigits_fuel_enough n :
  0 < n -> n < 16 ^ Z.of_nat (S (Z.to_nat (Z.log2 n))).
Proof.
  intros Hn. pose proof (Z.log2_spec n Hn) as [_ Hlt].
  pose proof (Z.log2_nonneg n) as Hl.
  rewrite Nat2Z.inj_succ, Z2Nat.id by lia.
  eapply Z.lt_le_trans; [exact Hlt|].
  apply Z.pow_le_mono_l. lia.
Qed.

(** [encodeScalar] writes the minimal big-endian form of a non-negative
    integer. *)
Lemma encodeScalar_minimal v :
  0 <= v ->
  beValue (encodeScalar v) = v /\
  (v = 0 /\ encodeScalar v = [] \/
   0 < v /\ exists b rest, encodeScalar v = b :: rest /\ b <> x00).
Proof.
  intros Hv. unfold encodeScalar.
  destruct (v =? 0) eqn:E.
  - apply Z.eqb_eq in E. subst v. split; [reflexivity|]. left. split; reflexivity.
  - apply Z.eqb_neq in E. assert (Hpos : 0 < v) by lia.
    unfold toString16. rewrite (proj2 (Z.eqb_neq v 0) E).
    rewrite (proj2 (Z.ltb_ge v 0)) by lia.
    rewrite Z.abs_eq by lia.
    change (hexToBytes ("0x" ++ ?s)%string) with (hexPairs s).
    set (g := S (Z.to_nat (Z.log2 v))).
    pose proof (hexDigits_fuel_enough Hpos) as Hg. fold g in Hg.
    assert (Hk : 0 < v < 256 ^ Z.of_nat g).
    { split; [lia|]. eapply Z.lt_le_trans; [exact Hg|].
      apply Z.pow_le_mono_l. lia. }
    destruct (@hexDigits_bytes g g v Hk Hg) as (Hval & b & rest & Hb & Hnz).
    unfold padEven in Hval, Hb.
    split; [exact Hval|]. right. split; [lia|]. eauto.
Qed.

(** [BigInt(bytesToHex(b))] reads the big-endian value of [b]. *)
Lemma byteHex_digits (x : byte) :
  exists c1 c2,
    byteHex x = String c1 (String c2 "") /\
    hexVal c1 = Some (byteZ x / 16) /\ hexVal c2 = Some (byteZ x mod 16).
Proof.
  exists (hexDigit (byteZ x / 16)), (hexDigit (byteZ x mod 16)).
  destruct x; vm_compute; repeat split.
Qed.

Lemma allDigits_byteHex x s acc :
  allDigits (byteHex x ++ s) acc = allDigits s (256 * acc + byteZ x).
Proof.
  destruct (byteHex_digits x) as (c1 & c2 & E & H1 & H2).
  rewrite E. cbn [String.append allDigits]. rewrite H1, H2.
  f_equal. pose proof (Z.div_mod (byteZ x) 16 ltac:(lia)). lia.
Qed.

Lemma concat_empty_cons (x : string) (xs : list string) :
  String.concat "" (x :: xs) = (x ++ String.concat "" xs)%string.
Proof.
  destruct xs as [|y ys]; cbn [String.concat].
  - induction x; simpl; congruence.
  - reflexivity.
Qed.

Lemma allDigits_bytes b : forall acc,
  allDigits (String.concat "" (map byteHex b)) acc =
  Some (fold_left (fun a x => 256 * a + byteZ x) b acc).
Proof.
  induction b as [|x b IH]; intros acc.
  - reflexivity.
  - cbn [map fold_left]. rewrite concat_empty_cons, allDigits_byteHex. apply IH.
Qed.

Lemma bigintOfBytes_value b :
  b <> [] -> bigintOfBytes b = Ok (beValue b).
Proof.
  intros Hb. destruct b as [|x b]; [congruence|].
  unfold bigintOfBytes, bytesToHex, BigInt_ofHex.
  cbn [String.append].
  pose proof (allDigits_bytes (x :: b) 0) as Hd.
  cbn [map] in *. rewrite concat_empty_cons in *.
  destruct (byteHex_digits x) as (c1 & c2 & E & _ & _).
  rewrite E in *. cbn [String.append] in *.
  rewrite Hd. reflexivity.
Qed.

Lemma decodeScalar_value b : decodeScalar b = Ok (beValue b).
Proof.
  unfold decodeScalar. destruct b as [|x b].
  - reflexivity.
  - replace (len (x :: b) =? 0) with false
      by (symmetry; apply Z.eqb_neq; rewrite len_cons; pose proof (len_nonneg b); lia).
    apply bigintOfBytes_value. discriminate.
Qed.

Lemma fold_be_nonneg l : forall acc,
  0 <= acc -> 0 <= fold_left (fun a x => 256 * a + byteZ x) l acc.
Proof.
  induction l as [|x l IH]; intros acc Ha; cbn [fold_left]; [exact Ha|].
  apply IH. pose proof (byteZ_range x). lia.
Qed.

Lemma beValue_nonneg b : 0 <= beValue b.
Proof. unfold beValue. apply fold_be_nonneg. lia. Qed.

(* ================================================================== *)
(** ** A stand-in platform

    An instance of [Platform] on which the model can be run: the digest, the
    signature and the recovered key are placeholders (nothing about Keccak
    or the curve is claimed of them), and text is taken as its bytes. *)

Definition stubPlatform : Platform := {|
  keccak_256 := fun data => repeat (toUint8 (len data)) 32;
  secp256k1_sign := fun _ key =>
    {| sig_r := beValue key; sig_s := 2; sig_recovery := 0 |};
  secp256k1_getPublicKey := fun key _ => x04 :: key ++ key;
  secp256k1_recover := fun _ _ _ _ => Ok (x04 :: repeat x01 64);
  TextEncoder_encode := list_byte_of_string;
  TextDecoder_decode := string_of_list_byte
|}.

(* ================================================================== *)
(** ** Scalars on the wire (RLP writer) *)

Lemma scalar_byte_forms (b : byte) :
  encodeScalar (byteZ b) = (if byteZ b =? 0 then [] else [b]) /\
  map RLPWriter.encodePart (RLPWriter.writeScalar (byteZ b) RLPWriter.new) =
    [if byteZ b =? 0 then [x80]
     else if byteZ b <? 128 then [b]
     else [x81; b]].
Proof. destruct b; vm_compute; split; reflexivity. Qed.

(** C4. A scalar that fits one byte ([0 <= v < 256]), as [writeScalar]
    stores it and as [encodeElements] emits it: zero is stored as the empty
    byte string and emitted as the single byte 0x80 (not 0x00); a non-zero
    value below 0x80 is emitted as that byte itself; a value at or above
    0x80 is emitted as 0x81 followed by the byte. *)
Theorem scalar_single_byte_wire_form (v : Z) :
  0 <= v < 256 ->
  encodeScalar v = (if v =? 0 then [] else [toUint8 v]) /\
  RLPWriter.writeScalar v RLPWriter.new = [ElBytes (encodeScalar v)] /\
  map RLPWriter.encodePart (RLPWriter.writeScalar v RLPWriter.new) =
    [if v =? 0 then [x80]
     else if v <? 128 then [toUint8 v]
     else [x81; toUint8 v]].
Proof.
  intros Hv.
  assert (E : byteZ (toUint8 v) = v)
    by (rewrite byteZ_toUint8; apply Z.mod_small; exact Hv).
  destruct (scalar_byte_forms (toUint8 v)) as [H1 H2].
  rewrite E in H1, H2. repeat split; assumption.
Qed.

Lemma scalar_single_byte_wire_form_witness :
  (encodeScalar 0 = [] /\
   map RLPWriter.encodePart (RLPWriter.writeScalar 0 RLPWriter.new) = [[x80]]) /\
  map RLPWriter.encodePart (RLPWriter.writeScalar 127 RLPWriter.new) = [[x7f]] /\
  map RLPWriter.encodePart (RLPWriter.writeScalar 128 RLPWriter.new) = [[x81; x80]].
Proof.
  split; [split|split].
  - exact (proj1 (@scalar_single_byte_wire_form 0 ltac:(lia))).
  - exact (proj2 (proj2 (@scalar_single_byte_wire_form 0 ltac:(lia)))).
  - exact (proj2 (proj2 (@scalar_single_byte_wire_form 127 ltac:(lia)))).
  - exact (proj2 (proj2 (@scalar_single_byte_wire_form 128 ltac:(lia)))).
Defined.

(* ================================================================== *)
(** ** The elements [encodeTxV1] writes *)

Definition optScalarEl (v : option Z) : RLPElement :=
  match v with
  | None => ElRaw [xc0]
  | Some v => ElList [ElBytes (encodeScalar v)]
  end.

Definition optBytesEl (b : option bytes) : RLPElement :=
  match b with
  | None => ElRaw [xc0]
  | Some b => ElList [ElBytes b]
  end.

Definition optValueEl (v : option RLPDecoded) : RLPElement :=
  match v with
  | None => ElRaw [xc0]
  | Some (DBytes b) => ElList [ElBytes b]
  | Some (DList l) => ElList [ElArray l]
  end.

Definition payloadEl (payloadBytes : bytes) : RLPElement :=
  if (len payloadBytes =? 0) || isEmptyPayload payloadBytes
  then ElRaw [xc0]
  else ElList [ElRaw payloadBytes].

Definition signatureEls (tx : Tx.fields) (includeSignature : bool) : list RLPElement :=
  match (if includeSignature then truthy (Tx.signature tx) else None) with
  | Some s => [ElBytes (hexToBytes s)]
  | None => []
  end.

Definition txElements (tx : Tx.fields) (includeSignature : bool)
    (payloadBytes : bytes) : list RLPElement :=
  [ElBytes (encodeScalar (versionCode (Tx.version tx)));
   ElBytes (encodeScalar (numberValue (Tx.timestamp tx)));
   ElBytes (encodeScalar (txTypeCode (Tx.type tx)));
   ElBytes (encodeScalar (networkCode (Tx.network tx)));
   optScalarEl (Tx.nonce tx);
   optBytesEl (option_map hexToBytes (Tx.recipient tx));
   optBytesEl (option_map hexToBytes (Tx.tokenAddress tx));
   optScalarEl (Tx.amount tx);
   ElBytes (encodeScalar (Tx.fee tx));
   optValueEl (Tx.message tx);
   payloadEl payloadBytes;
   optBytesEl (option_map hexToBytes (truthy (Tx.referenceHash tx)))]
  ++ signatureEls tx includeSignature.

Section EncoderFacts.
Context `{Platform}.

Lemma encodeTxV1_writer_elements tx includeSignature :
  encodeTxV1_writer tx includeSignature =
  (_ <- BigInt_ofNumber (Tx.timestamp tx) ;;
   payloadBytes <- encodePayload (Tx.payload tx) (Tx.version tx) ;;
   Ok (txElements tx includeSignature payloadBytes)).
Proof.
  unfold encodeTxV1_writer, txElements, signatureEls.
  destruct (Tx.timestamp tx) as [timestamp|]; [|reflexivity].
  cbn [BigInt_ofNumber bind numberValue].
  destruct (encodePayload (Tx.payload tx) (Tx.version tx)) as [pb|e];
    [|reflexivity].
  cbn [bind]. f_equal.
  assert (A : forall v w, RLPWriter.writeOptionalLongScalar v w = w ++ [optScalarEl v])
    by (intros [v|] w; reflexivity).
  assert (B : forall v w, RLPWriter.writeOptionalWeiScalar v w = w ++ [optScalarEl v])
    by (intros [v|] w; reflexivity).
  assert (C : forall a w,
             writeOptionalAddress a w = w ++ [optBytesEl (option_map hexToBytes a)])
    by (intros [a|] w; reflexivity).
  assert (D : forall m w, RLPWriter.writeOptionalBytes m w = w ++ [optValueEl m])
    by (intros [[m|m]|] w; reflexivity).
  assert (E : forall (h : option Hash) w,
             RLPWriter.writeOptionalBytes32
               (match h with Some h => Some (inl (hexToBytes h)) | None => None end) w
             = w ++ [optBytesEl (option_map hexToBytes h)])
    by (intros [h|] w; reflexivity).
  rewrite A, B, !C, D, E.
  unfold payloadEl.
  destruct ((len pb =? 0) || isEmptyPayload pb);
    destruct (if includeSignature then truthy (Tx.signature tx) else None);
    reflexivity.
Qed.

(** The array [encodedParts] of the outermost [encodeElements]. *)
Definition encodeTx_parts (tx : Tx.fields) (includeSignature : bool)
  : result (list bytes) :=
  writer <- encodeTxV1_writer tx includeSignature ;;
  Ok (map RLPWriter.encodePart writer).

Lemma encodeTx_of_parts tx includeSignature parts :
  encodeTx_parts tx includeSignature = Ok parts ->
  encodeTx tx includeSignature =
    Ok (RLPWriter.encodeListHeader (len (List.concat parts)) ++ List.concat parts).
Proof.
  unfold encodeTx_parts, encodeTx, encodeTxV1. destruct (Tx.version tx).
  destruct (encodeTxV1_writer tx includeSignature) as [w|e]; cbn [bind];
    intros E; [|discriminate].
  injection E as <-. reflexivity.
Qed.

Lemma encodeTx_parts_elements tx includeSignature parts :
  encodeTx_parts tx includeSignature = Ok parts ->
  exists payloadBytes,
    encodePayload (Tx.payload tx) (Tx.version tx) = Ok payloadBytes /\
    parts = map RLPWriter.encodePart (txElements tx includeSignature payloadBytes).
Proof.
  unfold encodeTx_parts. rewrite encodeTxV1_writer_elements.
  destruct (BigInt_ofNumber (Tx.timestamp tx)); cbn [bind]; [|discriminate].
  destruct (encodePayload (Tx.payload tx) (Tx.version tx)) as [pb|e]; cbn [bind];
    intros E; [|discriminate].
  injection E as <-. eauto.
Qed.

Lemma encodeTx_parts_exist tx includeSignature data :
  encodeTx tx includeSignature = Ok data ->
  exists parts, encodeTx_parts tx includeSignature = Ok parts.
Proof.
  unfold encodeTx, encodeTxV1. intros E. destruct (Tx.version tx).
  apply bind_Ok_inv in E. destruct E as (w & Hw & _).
  unfold encodeTx_parts. rewrite Hw. cbn [bind]. eauto.
Qed.

End EncoderFacts.

(* ================================================================== *)
(** ** The outer list of [encodeTxV1] *)

Lemma len_encodeListHeader_pos n : 1 <= len (RLPWriter.encodeListHeader n).
Proof.
  unfold RLPWriter.encodeListHeader. destruct (n <=? 55).
  - rewrite len_cons. pose proof (@len_nonneg byte []). lia.
  - rewrite len_cons. pose proof (len_nonneg (RLPWriter.encodeLengthBytes n)). lia.
Qed.

Lemma len_encodeString_pos b : 1 <= len (RLPWriter.encodeString b).
Proof.
  unfold RLPWriter.encodeString. destruct b as [|x r].
  - rewrite len_cons. pose proof (@len_nonneg byte []). lia.
  - destruct ((len (x :: r) =? 1) && (byteZ x <? 128));
      [|destruct (len (x :: r) <=? 55)];
      repeat rewrite ?len_cons, ?len_app;
      pose proof (len_nonneg r);
      pose proof (len_nonneg (RLPWriter.encodeLengthBytes (1 + len r))); lia.
Qed.

Lemma encodeString_65 b :
  len b = 65 -> RLPWriter.encodeString b = xb8 :: x41 :: b.
Proof.
  intros Hb. unfold RLPWriter.encodeString.
  destruct b as [|x r]; [discriminate|].
  rewrite Hb. reflexivity.
Qed.

Section OuterList.
Context `{Platform}.

(** Every arm of the payload switch only pushes elements. *)
Lemma encodePayloadFields_extends p w w' :
  encodePayloadFields p w = Ok w' -> exists rest, w' = w ++ rest.
Proof.
  assert (S1 : forall v u, exists e, writeOptionalString v u = u ++ [e])
    by (intros [v|] u; eexists; reflexivity).
  assert (S2 : forall v u, exists e, writeOptionalBigInteger v u = u ++ [e])
    by (intros [v|] u; eexists; reflexivity).
  assert (S3 : forall v u, exists e, writeOptionalAddressField v u = u ++ [e])
    by (intros [v|] u; eexists; reflexivity).
  assert (S4 : forall v u, exists e, RLPWriter.writeOptionalWeiScalar v u = u ++ [e])
    by (intros [v|] u; eexists; reflexivity).
  assert (S5 : forall v u, exists e, RLPWriter.writeOptionalLongScalar v u = u ++ [e])
    by (intros [v|] u; eexists; reflexivity).
  destruct p; cbn [encodePayloadFields]; intros E; try discriminate;
    try (apply bind_Ok_inv in E; destruct E as (? & _ & E));
    injection E as <-;
    unfold RLPWriter.writeBytes, RLPWriter.writeBigIntegerScalar,
      RLPWriter.writeIntScalar, RLPWriter.writeScalar;
    repeat match goal with
      | |- context [writeOptionalString ?v ?u] =>
          let e := fresh "e" in let He := fresh "He" in
          destruct (S1 v u) as [e He]; rewrite He; clear He
      | |- context [writeOptionalBigInteger ?v ?u] =>
          let e := fresh "e" in let He := fresh "He" in
          destruct (S2 v u) as [e He]; rewrite He; clear He
      | |- context [writeOptionalAddressField ?v ?u] =>
          let e := fresh "e" in let He := fresh "He" in
          destruct (S3 v u) as [e He]; rewrite He; clear He
      | |- context [RLPWriter.writeOptionalWeiScalar ?v ?u] =>
          let e := fresh "e" in let He := fresh "He" in
          destruct (S4 v u) as [e He]; rewrite He; clear He
      | |- context [RLPWriter.writeOptionalLongScalar ?v ?u] =>
          let e := fresh "e" in let He := fresh "He" in
          destruct (S5 v u) as [e He]; rewrite He; clear He
      end;
    rewrite <- ?app_assoc; eexists; reflexivity.
Qed.

(** An encoded payload is the encoding of a list whose first element is the
    payload-type scalar; it is neither empty nor the lone byte 0xc0. *)
Lemma encodePayload_Some_shape p v payloadBytes :
  encodePayload (Some p) v = Ok payloadBytes ->
  (exists code rest,
     payloadBytes = RLPWriter.encodeElements (ElBytes (encodeScalar code) :: rest)) /\
  payloadEl payloadBytes = ElList [ElRaw payloadBytes].
Proof.
  unfold encodePayload. intros E.
  inv_bind E. inv_bind E. injection E as <-.
  apply encodePayloadFields_extends in Ha0. destruct Ha0 as [rest ->].
  cbn [RLPWriter.writeIntScalar RLPWriter.writeScalar RLPWriter.new app].
  split; [eauto|].
  unfold payloadEl, isEmptyPayload, RLPWriter.encode, RLPWriter.encodeElements.
  cbn [map List.concat].
  set (body := RLPWriter.encodePart (ElBytes (encodeScalar a)) ++ _).
  assert (Hb : 1 <= len body).
  { subst body. rewrite len_app. cbn [RLPWriter.encodePart].
    pose proof (len_encodeString_pos (encodeScalar a)).
    match goal with |- context [len (List.concat ?l)] =>
      pose proof (len_nonneg (List.concat l)) end. lia. }
  pose proof (len_encodeListHeader_pos (len body)) as Hh.
  assert (Hl : 2 <= len (RLPWriter.encodeListHeader (len body) ++ body))
    by (rewrite len_app; lia).
  replace (len (RLPWriter.encodeListHeader (len body) ++ body) =? 0) with false
    by (symmetry; apply Z.eqb_neq; lia).
  replace (len (RLPWriter.encodeListHeader (len body) ++ body) =? 1) with false
    by (symmetry; apply Z.eqb_neq; lia).
  reflexivity.
Qed.

(** C2. The outer list of a V1 transaction: the encoder's output is the list
    header followed by the encoded parts; part 9 (index 8) is the RLP string
    of the fee scalar, with no list around it, and the scalar is the minimal
    big-endian form of the fee; part 11 (index 10) is the byte 0xc0 for a
    null payload and otherwise a one-element list (header, then the bytes
    [encodePayload] returned, themselves an encoded list); with
    [includeSignature] and a signature present, part 13 (index 12) is the RLP
    string of the signature bytes, which for 65 bytes is 0xb8 0x41 followed
    by the bytes. *)
Theorem encodeTx_outer_list_exceptions tx includeSignature parts :
  encodeTx_parts tx includeSignature = Ok parts ->
  0 <= Tx.fee tx ->
  encodeTx tx includeSignature =
    Ok (RLPWriter.encodeListHeader (len (List.concat parts)) ++ List.concat parts) /\
  (nth_error parts 8 = Some (RLPWriter.encodeString (encodeScalar (Tx.fee tx))) /\
   beValue (encodeScalar (Tx.fee tx)) = Tx.fee tx /\
   (forall b rest, encodeScalar (Tx.fee tx) = b :: rest -> b <> x00)) /\
  (exists payloadBytes,
     encodePayload (Tx.payload tx) (Tx.version tx) = Ok payloadBytes /\
     nth_error parts 10 =
       Some (match Tx.payload tx with
             | None => [xc0]
             | Some _ =>
                 RLPWriter.encodeListHeader (len payloadBytes) ++ payloadBytes
             end) /\
     (Tx.payload tx <> None ->
      exists elements, payloadBytes = RLPWriter.encodeElements elements)) /\
  nth_error parts 12 =
    match (if includeSignature then truthy (Tx.signature tx) else None) with
    | Some s => Some (RLPWriter.encodeString (hexToBytes s))
    | None => None
    end /\
  (forall s : Signature,
     len (hexToBytes s) = 65 ->
     RLPWriter.encodeString (hexToBytes s) = xb8 :: x41 :: hexToBytes s).
Proof.
  intros Hparts Hfee.
  split; [apply encodeTx_of_parts; exact Hparts|].
  destruct (encodeTx_parts_elements _ _ Hparts) as (pb & Hpb & ->).
  destruct (encodeScalar_minimal Hfee) as [Hval Hmin].
  split; [|split; [|split]].
  - split; [reflexivity|]. split; [exact Hval|].
    intros b rest E.
    destruct Hmin as [[_ E0]|(_ & b' & rest' & E' & Hnz)]; congruence.
  - exists pb. split; [exact Hpb|]. split.
    + unfold txElements. cbn [map app nth_error].
      destruct (Tx.payload tx) as [p|] eqn:Ep.
      * destruct (encodePayload_Some_shape _ _ Hpb) as [_ ->].
        cbn [RLPWriter.encodePart map List.concat]. rewrite app_nil_r. reflexivity.
      * cbn in Hpb. injection Hpb as <-. reflexivity.
    + intros Hp. destruct (Tx.payload tx) as [p|]; [|congruence].
      destruct (encodePayload_Some_shape _ _ Hpb) as [(code & rest & ->) _].
      eauto.
  - unfold txElements, signatureEls. cbn [map app nth_error].
    destruct (if includeSignature then truthy (Tx.signature tx) else None);
      reflexivity.
  - intros s. apply encodeString_65.
Qed.

(** C3. Absent and zero are kept apart at the nonce position (part 5, index
    4): nonce 0 is written as 0xc1 0x80, a one-element list holding the
    empty-bytes scalar; a null nonce as the single byte 0xc0. *)
Theorem nonce_zero_is_not_absent tx includeSignature parts :
  encodeTx_parts tx includeSignature = Ok parts ->
  encodeTx tx includeSignature =
    Ok (RLPWriter.encodeListHeader (len (List.concat parts)) ++ List.concat parts) /\
  (Tx.nonce tx = Some 0 -> nth_error parts 4 = Some [xc1; x80]) /\
  (Tx.nonce tx = None -> nth_error parts 4 = Some [xc0]) /\
  [xc1; x80] <> [xc0].
Proof.
  intros Hparts.
  split; [apply encodeTx_of_parts; exact Hparts|].
  destruct (encodeTx_parts_elements _ _ Hparts) as (pb & Hpb & ->).
  unfold txElements. cbn [map app nth_error].
  repeat split.
  - intros ->. reflexivity.
  - intros ->. reflexivity.
  - discriminate.
Qed.

(** Two records that agree on every field but [signature]. *)
Definition sameExceptSignature (t t' : Tx.fields) : Prop :=
  Tx.version t = Tx.version t' /\ Tx.timestamp t = Tx.timestamp t' /\
  Tx.type t = Tx.type t' /\ Tx.network t = Tx.network t' /\
  Tx.nonce t = Tx.nonce t' /\ Tx.recipient t = Tx.recipient t' /\
  Tx.tokenAddress t = Tx.tokenAddress t' /\ Tx.amount t = Tx.amount t' /\
  Tx.fee t = Tx.fee t' /\ Tx.message t = Tx.message t' /\
  Tx.payload t = Tx.payload t' /\ Tx.referenceHash t = Tx.referenceHash t'.

(** C7. The encoding without signature, and so the signing hash, does not
    depend on the signature field. *)
Theorem hashForSigning_ignores_signature t t' :
  sameExceptSignature t t' ->
  encodeTx t false = encodeTx t' false /\
  hashForSigning t = hashForSigning t'.
Proof.
  intros S.
  assert (E : encodeTx t false = encodeTx t' false).
  { destruct t, t'. unfold sameExceptSignature in S. cbn in S.
    destruct S as (-> & -> & -> & -> & -> & -> & -> & -> & -> & -> & -> & ->).
    unfold encodeTx, encodeTxV1. rewrite !encodeTxV1_writer_elements.
    reflexivity. }
  split; [exact E|]. unfold hashForSigning. rewrite E. reflexivity.
Qed.

End OuterList.

(* ================================================================== *)
(** ** Sample transactions *)

Definition sampleSignature : Signature :=
  ("0x" ++ strRepeat "1" 128 ++ "1b")%string.

(** The [simple_transfer] scenario, with a placeholder signature. *)
Definition sampleTransfer : Tx.fields :=
  {| Tx.version := V1; Tx.timestamp := 1702200000000; Tx.type := TRANSFER;
     Tx.network := MAINNET; Tx.nonce := Some 1;
     Tx.recipient := Some "0x1111111111111111111111111111111111111111";
     Tx.tokenAddress := Some NATIVE_TOKEN; Tx.amount := Some 10000000000;
     Tx.fee := 100000; Tx.message := None; Tx.payload := None;
     Tx.referenceHash := None; Tx.signature := Some sampleSignature |}.

(** A vote with nonce 0. *)
Definition sampleVote : Tx.fields :=
  {| Tx.version := V1; Tx.timestamp := 1702200000011; Tx.type := BIP_VOTE;
     Tx.network := MAINNET; Tx.nonce := Some 0;
     Tx.recipient := None; Tx.tokenAddress := None; Tx.amount := None;
     Tx.fee := 100000; Tx.message := None;
     Tx.payload := Some (createVotePayload APPROVAL);
     Tx.referenceHash :=
       Some "0xabcdef1234567890abcdef1234567890abcdef1234567890abcdef1234567890";
     Tx.signature := Some sampleSignature |}.

(** The same vote with the nonce left out. *)
Definition sampleVoteNoNonce : Tx.fields :=
  {| Tx.version := V1; Tx.timestamp := 1702200000011; Tx.type := BIP_VOTE;
     Tx.network := MAINNET; Tx.nonce := None;
     Tx.recipient := None; Tx.tokenAddress := None; Tx.amount := None;
     Tx.fee := 100000; Tx.message := None;
     Tx.payload := Some (createVotePayload APPROVAL);
     Tx.referenceHash :=
       Some "0xabcdef1234567890abcdef1234567890abcdef1234567890abcdef1234567890";
     Tx.signature := Some sampleSignature |}.

Definition partsOf (tx : Tx.fields) (includeSignature : bool) : list bytes :=
  match @encodeTx_parts stubPlatform tx includeSignature with
  | Ok parts => parts
  | Err _ => []
  end.

Definition sampleTransferParts : list bytes :=
  Eval vm_compute in partsOf sampleTransfer true.
Definition sampleVoteParts : list bytes :=
  Eval vm_compute in partsOf sampleVote true.
Definition sampleVoteNoNonceParts : list bytes :=
  Eval vm_compute in partsOf sampleVoteNoNonce true.

Lemma encodeTx_outer_list_exceptions_witness :
  (nth_error sampleTransferParts 8 = Some [x83; x01; x86; xa0] /\
   nth_error sampleTransferParts 10 = Some [xc0]) /\
  nth_error sampleVoteParts 10 = Some [xc3; xc2; x09; x01] /\
  nth_error sampleVoteParts 12 =
    Some (xb8 :: x41 :: hexToBytes sampleSignature).
Proof.
  assert (T : @encodeTx_parts stubPlatform sampleTransfer true = Ok sampleTransferParts)
    by (vm_compute; reflexivity).
  assert (V : @encodeTx_parts stubPlatform sampleVote true = Ok sampleVoteParts)
    by (vm_compute; reflexivity).
  pose proof (@encodeTx_outer_list_exceptions stubPlatform _ _ _ T ltac:(cbn; lia))
    as (_ & (Tfee & _) & (tpb & Etpb & Tpay & _) & _).
  pose proof (@encodeTx_outer_list_exceptions stubPlatform _ _ _ V ltac:(cbn; lia))
    as (_ & _ & (vpb & Evpb & Vpay & _) & Vsig & V65).
  split; [split|split].
  - exact Tfee.
  - exact Tpay.
  - vm_compute in Evpb. injection Evpb as <-. exact Vpay.
  - rewrite Vsig.
    change (Some (RLPWriter.encodeString (hexToBytes sampleSignature)) =
            Some (xb8 :: x41 :: hexToBytes sampleSignature)).
    rewrite V65 by (vm_compute; reflexivity). reflexivity.
Defined.

Lemma nonce_zero_is_not_absent_witness :
  nth_error sampleVoteParts 4 = Some [xc1; x80] /\
  nth_error sampleVoteNoNonceParts 4 = Some [xc0].
Proof.
  split.
  - refine (proj1 (proj2 (@nonce_zero_is_not_absent stubPlatform sampleVote true
                            sampleVoteParts _)) eq_refl).
    vm_compute; reflexivity.
  - refine (proj1 (proj2 (proj2 (@nonce_zero_is_not_absent stubPlatform
                            sampleVoteNoNonce true sampleVoteNoNonceParts _))) eq_refl).
    vm_compute; reflexivity.
Defined.

Lemma hashForSigning_ignores_signature_witness :
  @hashForSigning stubPlatform sampleTransfer =
  @hashForSigning stubPlatform (Tx.withSignature None sampleTransfer).
Proof.
  refine (proj2 (@hashForSigning_ignores_signature stubPlatform sampleTransfer
                   (Tx.withSignature None sampleTransfer) _)).
  unfold sameExceptSignature. cbn. repeat split.
Defined.

(* ================================================================== *)
(** ** Builder validation *)

Definition samplePrivateKey : PrivateKey.t :=
  {| PrivateKey.keyBytes := repeat x01 32 |}.

(** A TRANSFER that carries a payload and a reference hash. *)
Definition transferWithPayload : TxBuilder.t :=
  TxBuilder.referenceHash
    "0xabcdef1234567890abcdef1234567890abcdef1234567890abcdef1234567890"
    (TxBuilder.payload createApprovalVote
       (TxBuilder.recipient "0x1111111111111111111111111111111111111111"
          (TxBuilder.nonce 1
             (TxBuilder.network MAINNET
                (TxBuilder.type TRANSFER (TxBuilder.create 1702200000000)))))).

(** A BIP_CREATE that carries a recipient and a reference hash. *)
Definition createWithRecipient : TxBuilder.t :=
  TxBuilder.referenceHash
    "0xabcdef1234567890abcdef1234567890abcdef1234567890abcdef1234567890"
    (TxBuilder.recipient "0x1111111111111111111111111111111111111111"
       (TxBuilder.payload
          (createTokenMintPayload "0x3333333333333333333333333333333333333333"
             "0x4444444444444444444444444444444444444444" 100000000000000)
          (TxBuilder.nonce 10
             (TxBuilder.network MAINNET
                (TxBuilder.type BIP_CREATE (TxBuilder.create 1702200000002)))))).

(** What [validate] checks. *)
Definition violatesChecked (b : TxBuilder.t) : Prop :=
  TxBuilder._type b = None \/ TxBuilder._network b = None \/
  TxBuilder._nonce b = None \/
  (TxBuilder._type b = Some TRANSFER /\ TxBuilder._recipient b = None) \/
  (TxBuilder._type b = Some BIP_CREATE /\
   (TxBuilder._payload b = None \/ TxBuilder._amount b <> None)) \/
  (TxBuilder._type b = Some BIP_VOTE /\
   (TxBuilder._payload b = None \/ TxBuilder._referenceHash b = None \/
    TxBuilder._amount b <> None)).

Lemma validate_Err_iff b :
  violatesChecked b <-> exists m, TxBuilder.validate b = Err (TxBuilderError m).
Proof.
  unfold violatesChecked, TxBuilder.validate.
  destruct (TxBuilder._type b) as [[| |]|];
    destruct (TxBuilder._network b), (TxBuilder._nonce b),
      (TxBuilder._recipient b), (TxBuilder._payload b),
      (TxBuilder._referenceHash b), (TxBuilder._amount b);
    (split;
     [ intros _; eexists; reflexivity
     | intros [m E]; try discriminate E; clear E m;
       first [ left; reflexivity
             | right; left; reflexivity
             | right; right; left; reflexivity
             | right; right; right; left; split; reflexivity
             | right; right; right; right; left; split;
               [reflexivity| first [left; reflexivity | right; discriminate]]
             | right; right; right; right; right; split;
               [reflexivity
               | first [left; reflexivity | right; left; reflexivity
                       | right; right; discriminate]] ] ])
    || (split;
        [ intros V; exfalso;
          repeat match goal with
                 | V : _ \/ _ |- _ => destruct V as [V|V]
                 | V : _ /\ _ |- _ => destruct V as [? V]
                 end; congruence
        | intros [m E]; discriminate E ]).
Qed.

Lemma buildUnsigned_after_validate b :
  TxBuilder.validate b = Ok tt -> exists u, TxBuilder.buildUnsigned b = Ok u.
Proof.
  unfold TxBuilder.buildUnsigned, TxBuilder.validate.
  destruct (TxBuilder._type b) as [ty|]; [|discriminate].
  destruct (TxBuilder._network b); [|discriminate].
  destruct (TxBuilder._nonce b); [|discriminate].
  intros ->. cbn [bind]. eauto.
Qed.

(** No step of [sign] after [buildUnsigned] throws a [TxBuilderError]. *)
Definition notBuilderError {A} (r : result A) : Prop :=
  forall m, r <> Err (TxBuilderError m).

Lemma bind_notBuilderError {A B} (r : result A) (k : A -> result B) :
  notBuilderError r -> (forall a, r = Ok a -> notBuilderError (k a)) ->
  notBuilderError (bind r k).
Proof.
  destruct r as [a|e]; cbn [bind]; intros H1 H2; [apply H2; reflexivity|].
  intros m C. injection C as ->. exact (H1 m eq_refl).
Qed.

Lemma toFixed_notBuilderError size e value :
  (forall m, e <> TxBuilderError m) -> notBuilderError (toFixed size e value).
Proof.
  intros He m. unfold toFixed.
  destruct value; destruct (_ =? _); try discriminate;
    intros C; injection C as C; exact (He m C).
Qed.

Lemma typedSet_notBuilderError dst src offset :
  notBuilderError (typedSet dst src offset).
Proof. intros m. unfold typedSet. destruct (_ <? _); discriminate. Qed.

Section SignErrors.
Context `{Platform}.

Lemma encodePayload_notBuilderError payload v :
  notBuilderError (encodePayload payload v).
Proof.
  intros m. unfold encodePayload. destruct payload as [p|]; [|discriminate].
  destruct p;
    try match goal with n : number |- _ => destruct n end;
    cbn [payloadType option_map BigInt_of BigInt_ofNumber bind encodePayloadFields];
    discriminate.
Qed.

Lemma encodeTx_notBuilderError tx includeSignature :
  notBuilderError (encodeTx tx includeSignature).
Proof.
  unfold encodeTx, encodeTxV1. destruct (Tx.version tx) eqn:V.
  rewrite encodeTxV1_writer_elements, V.
  apply bind_notBuilderError; [|intros; discriminate].
  apply bind_notBuilderError.
  - intros m. destruct (Tx.timestamp tx); discriminate.
  - intros _ _. apply bind_notBuilderError; [|intros; discriminate].
    apply encodePayload_notBuilderError.
Qed.

Lemma hash_notBuilderError data : notBuilderError (hash data).
Proof.
  unfold hash, toHash. destruct data; apply toFixed_notBuilderError; discriminate.
Qed.

Lemma hashForSigning_notBuilderError tx : notBuilderError (hashForSigning tx).
Proof.
  unfold hashForSigning. apply bind_notBuilderError;
    [apply encodeTx_notBuilderError|intros; apply hash_notBuilderError].
Qed.

Lemma hashTx_notBuilderError tx : notBuilderError (hashTx tx).
Proof.
  unfold hashTx. apply bind_notBuilderError;
    [apply encodeTx_notBuilderError|intros; apply hash_notBuilderError].
Qed.

Lemma sizeTx_notBuilderError tx : notBuilderError (sizeTx tx).
Proof.
  unfold sizeTx. apply bind_notBuilderError;
    [apply encodeTx_notBuilderError|intros; discriminate].
Qed.

Lemma PrivateKey_sign_notBuilderError key h :
  notBuilderError (PrivateKey.sign key h).
Proof.
  unfold PrivateKey.sign. cbv zeta.
  apply bind_notBuilderError; [apply typedSet_notBuilderError|]. intros b1 _.
  apply bind_notBuilderError; [apply typedSet_notBuilderError|]. intros b2 _.
  apply bind_notBuilderError; [apply typedSet_notBuilderError|]. intros b3 _.
  apply toFixed_notBuilderError. discriminate.
Qed.

Lemma PrivateKey_getAddress_notBuilderError key :
  notBuilderError (PrivateKey.getAddress key).
Proof.
  unfold PrivateKey.getAddress. cbv zeta. apply toFixed_notBuilderError. discriminate.
Qed.

(** A [TxBuilderError] of [sign] is the one [buildUnsigned] threw. *)
Lemma sign_builderError b privateKey m :
  TxBuilder.sign b privateKey = Err (TxBuilderError m) ->
  TxBuilder.buildUnsigned b = Err (TxBuilderError m).
Proof.
  unfold TxBuilder.sign.
  destruct (TxBuilder.buildUnsigned b) as [u|e]; cbn [bind];
    [|intros E; injection E as ->; reflexivity].
  intros E. exfalso. revert m E.
  apply bind_notBuilderError; [apply hashForSigning_notBuilderError|]. intros h _.
  apply bind_notBuilderError; [apply PrivateKey_sign_notBuilderError|]. intros s _.
  apply bind_notBuilderError; [apply PrivateKey_getAddress_notBuilderError|].
  intros sender _.
  apply bind_notBuilderError; [apply hashTx_notBuilderError|]. intros hash' _.
  apply bind_notBuilderError; [apply sizeTx_notBuilderError|]. intros size _.
  intros m. discriminate.
Qed.

End SignErrors.

(** C5, as the code has it.  The builder throws a [TxBuilderError], from
    [buildUnsigned] and from [sign], exactly when type, network or nonce is
    missing, a TRANSFER has no recipient, a BIP_CREATE has no payload or has
    an amount, or a BIP_VOTE has no payload, no reference hash or has an
    amount.  [sign] throws it with the message of [buildUnsigned], whatever
    the key and the platform, and throws no [TxBuilderError] of its own;
    in every other state [buildUnsigned] returns a record. *)
Theorem builder_rejects_checked_violations `{Platform}
    (b : TxBuilder.t) (privateKey : PrivateKey.t) :
  (violatesChecked b <->
   exists m, TxBuilder.buildUnsigned b = Err (TxBuilderError m)) /\
  (forall m, TxBuilder.buildUnsigned b = Err (TxBuilderError m) <->
             TxBuilder.sign b privateKey = Err (TxBuilderError m)) /\
  (violatesChecked b <->
   exists m, TxBuilder.sign b privateKey = Err (TxBuilderError m)) /\
  (~ violatesChecked b <-> exists u, TxBuilder.buildUnsigned b = Ok u).
Proof.
  assert (V : TxBuilder.validate b = Ok tt \/
              exists m, TxBuilder.validate b = Err (TxBuilderError m)).
  { unfold TxBuilder.validate.
    destruct (TxBuilder._type b) as [[| |]|];
      destruct (TxBuilder._network b), (TxBuilder._nonce b),
        (TxBuilder._recipient b), (TxBuilder._payload b),
        (TxBuilder._referenceHash b), (TxBuilder._amount b);
      (left; reflexivity) || (right; eexists; reflexivity). }
  assert (B : forall m, TxBuilder.validate b = Err (TxBuilderError m) <->
                        TxBuilder.buildUnsigned b = Err (TxBuilderError m)).
  { intros m. unfold TxBuilder.buildUnsigned.
    destruct V as [Hok|[m' Hm']].
    - destruct (buildUnsigned_after_validate b Hok) as [u Hu].
      unfold TxBuilder.buildUnsigned in Hu. rewrite Hu, Hok.
      split; discriminate.
    - rewrite Hm'. cbn [bind]. split; intros E; injection E as ->; reflexivity. }
  assert (S : forall m, TxBuilder.buildUnsigned b = Err (TxBuilderError m) <->
                        TxBuilder.sign b privateKey = Err (TxBuilderError m)).
  { intros m. split.
    - intros E. unfold TxBuilder.sign. rewrite E. reflexivity.
    - apply sign_builderError. }
  split; [|split; [|split]].
  - rewrite validate_Err_iff. split; intros [m E]; exists m; apply B; exact E.
  - exact S.
  - rewrite validate_Err_iff.
    split; intros [m E]; exists m; [apply S, B|apply B, S]; exact E.
  - split.
    + intros N. destruct V as [Hok|[m Hm]].
      * apply buildUnsigned_after_validate; exact Hok.
      * exfalso. apply N. apply validate_Err_iff. eauto.
    + intros [u Hu] C. apply validate_Err_iff in C. destruct C as [m Hm].
      apply B in Hm. congruence.
Qed.

(** C5, the claim as stated fails: a TRANSFER with a payload and a reference
    hash, and a BIP_CREATE with a recipient and a reference hash, are built
    and signed. *)
Lemma builder_accepts_unchecked_fields :
  (TxBuilder._type transferWithPayload = Some TRANSFER /\
   TxBuilder._payload transferWithPayload <> None /\
   TxBuilder._referenceHash transferWithPayload <> None /\
   isOk (TxBuilder.buildUnsigned transferWithPayload) = true /\
   isOk (@TxBuilder.sign stubPlatform transferWithPayload samplePrivateKey) = true) /\
  (TxBuilder._type createWithRecipient = Some BIP_CREATE /\
   TxBuilder._recipient createWithRecipient <> None /\
   TxBuilder._referenceHash createWithRecipient <> None /\
   isOk (TxBuilder.buildUnsigned createWithRecipient) = true /\
   isOk (@TxBuilder.sign stubPlatform createWithRecipient samplePrivateKey) = true).
Proof.
  split; (split; [reflexivity|]); (split; [discriminate|]);
    (split; [discriminate|]); split; vm_compute; reflexivity.
Qed.

(** C6, evaluated: a TRANSFER built without a call to [tokenAddress] gets
    the documented defaults [version = V1] and [fee = 0], and a null
    [tokenAddress], not [NATIVE_TOKEN]; a builder made by [TxBuilder.from]
    holds the input's [tokenAddress], null when the input leaves it out. *)
Theorem buildUnsigned_transfer_defaults `{Platform}
    (now : Z) (network : Network) (nonce : Z) (recipient : Address) :
  (exists u,
     TxBuilder.buildUnsigned
       (TxBuilder.recipient recipient
          (TxBuilder.nonce nonce
             (TxBuilder.network network
                (TxBuilder.type TRANSFER (TxBuilder.create now))))) = Ok u /\
     Tx.version u = V1 /\ Tx.fee u = 0 /\ Tx.timestamp u = now /\
     Tx.tokenAddress u = None /\ Tx.tokenAddress u <> Some NATIVE_TOKEN) /\
  (forall input : TxInput,
     TxBuilder._tokenAddress (TxBuilder.from now input) = in_tokenAddress input).
Proof.
  split.
  - eexists. split; [reflexivity|]. cbn. repeat split. discriminate.
  - intros input. unfold TxBuilder.from. cbv zeta.
    assert (A : forall (T : Type) (v : option T) (set : T -> TxBuilder.t -> TxBuilder.t) b,
               (forall x c, TxBuilder._tokenAddress (set x c) = TxBuilder._tokenAddress c) ->
               TxBuilder._tokenAddress (TxBuilder.assign v set b)
               = TxBuilder._tokenAddress b)
      by (intros T [x|] set b Hs; [apply Hs|reflexivity]).
    match goal with
    | |- TxBuilder._tokenAddress (match _ with _ => _ end) = _ =>
        transitivity
          (TxBuilder._tokenAddress
             (TxBuilder.assign (in_tokenAddress input)
                (fun x => TxBuilder.tokenAddress (Some x))
                (TxBuilder.assign (in_recipient input) TxBuilder.setRecipient
                   (TxBuilder.assign (in_fee input) TxBuilder.fee
                      (TxBuilder.assign (in_timestamp input) TxBuilder.timestamp
                         (TxBuilder.assign (in_version input) TxBuilder.version
                            (TxBuilder.nonce (in_nonce input)
                               (TxBuilder.network (in_network input)
                                  (TxBuilder.type (in_type input)
                                     (TxBuilder.create now))))))))))
    end.
    + destruct (in_message input) as [[[m|s]|]|];
        [|destruct (startsWith0x s)| |];
        cbn [TxBuilder.message TxBuilder.messageHex TxBuilder.messageString
             TxBuilder._tokenAddress];
        rewrite !A by reflexivity; reflexivity.
    + destruct (in_tokenAddress input) as [a|]; cbn [TxBuilder.assign].
      * reflexivity.
      * rewrite !A by reflexivity. reflexivity.
Qed.

(* ================================================================== *)
(** ** Structural validity of a signature *)

Lemma slice_nonempty (b : bytes) (start stop : Z) :
  0 <= start < stop -> stop <= len b -> slice start stop b <> [].
Proof.
  intros Hs Hb E. apply (f_equal (@List.length byte)) in E.
  unfold slice in E. rewrite length_firstn, length_skipn in E.
  unfold len in Hb. cbn [List.length] in E. lia.
Qed.


(* ================================================================== *)
(** ** The validator payloads *)

(** C9, evaluated at the validator payloads.  The factories build
    objects whose [payloadType] is [undefined], since [TxPayloadType] has no
    such members; [encodePayload] fails on them, for every address, with the
    TypeError raised when that [undefined] is written as the type scalar,
    before the switch; the switch itself has no arm for them (its default
    arm throws the unknown-payload-type error), and no code of the enum
    decodes to them. *)
Theorem validator_payloads_do_not_encode `{Platform} (address : Address) :
  payloadType (createValidatorAddPayload address) = None /\
  payloadType (createValidatorRemovePayload address) = None /\
  encodePayload (Some (createValidatorAddPayload address)) V1 = Err TypeError /\
  encodePayload (Some (createValidatorRemovePayload address)) V1 = Err TypeError /\
  (forall w, encodePayloadFields (createValidatorAddPayload address) w
             = Err UnknownPayloadType) /\
  (forall w, encodePayloadFields (createValidatorRemovePayload address) w
             = Err UnknownPayloadType) /\
  (forall data p, decodePayload data V1 = Ok (Some p) -> payloadType p <> None).
Proof.
  repeat split; try reflexivity.
  intros data p E.
  assert (L : forall l q, decodePayloadList l = Ok (Some q) -> payloadType q <> None).
  { intros l q. unfold decodePayloadList.
    destruct (match l with [DList inner] => inner | _ => l end) as [|x xs];
      [discriminate|].
    intros D. inv_bind D. inv_bind D.
    destruct a0;
      repeat match type of D with
             | bind _ _ = Ok _ => inv_bind D
             end;
      injection D as <-; discriminate. }
  unfold decodePayload in E.
  destruct data as [[b|l]|]; try discriminate.
  - destruct ((len b =? 0) || _); [discriminate|].
    inv_bind E. destruct a as [c|[|y ys]]; try discriminate.
    apply (L _ _ E).
  - destruct l as [|y ys]; [discriminate|]. apply (L _ _ E).
Qed.

(** C9 at a concrete address: the error that surfaces is not the one of the
    default arm. *)
Lemma validator_payload_error_is_not_unknown_type :
  @encodePayload stubPlatform (Some (createValidatorAddPayload ZERO_ADDRESS)) V1
    <> Err UnknownPayloadType /\
  @encodePayload stubPlatform (Some (createValidatorRemovePayload ZERO_ADDRESS)) V1
    <> Err UnknownPayloadType.
Proof. split; discriminate. Qed.

(* ================================================================== *)
(** ** Decoding what the writer wrote *)

Lemma decodeItem_S f first tl :
  decodeItem (S f) (first :: tl) =
  let input := first :: tl in
  let firstByte := byteZ first in
  if firstByte <=? 127 then
    Ok (DBytes (slice 0 1 input), sliceFrom 1 input)
  else if firstByte <=? 183 then
    let length := firstByte - 127 in
    data <- (if firstByte =? 128 then Ok [] else safeSlice input 1 length) ;;
    if (length =? 2) && (match data with d :: _ => byteZ d <? 128 | [] => false end)
    then Err RlpError
    else Ok (DBytes data, sliceFrom length input)
  else if firstByte <=? 191 then
    let llength := firstByte - 182 in
    if len input - 1 <? llength then Err RlpError
    else
      lbytes <- safeSlice input 1 llength ;;
      length <- decodeLength lbytes ;;
      if length <=? 55 then Err RlpError
      else
        data <- safeSlice input llength (length + llength) ;;
        Ok (DBytes data, sliceFrom (length + llength) input)
  else if firstByte <=? 247 then
    let length := firstByte - 191 in
    innerRemainder <- safeSlice input 1 length ;;
    decoded <- decodeItems f innerRemainder ;;
    Ok (DList decoded, sliceFrom length input)
  else
    let llength := firstByte - 246 in
    lbytes <- safeSlice input 1 llength ;;
    length <- decodeLength lbytes ;;
    if length <? 56 then Err RlpError
    else
      let totalLength := llength + length in
      if len input <? totalLength then Err RlpError
      else
        innerRemainder <- safeSlice input llength totalLength ;;
        decoded <- decodeItems f innerRemainder ;;
        Ok (DList decoded, sliceFrom totalLength input).
Proof. reflexivity. Qed.

Lemma decodeItems_S f x tl :
  decodeItems (S f) (x :: tl) =
  ('(d, remainder) <- decodeItem f (x :: tl) ;;
   ds <- decodeItems f remainder ;;
   Ok (d :: ds)).
Proof. reflexivity. Qed.

(** Slices of a concatenation. *)
Lemma slice_middle {A} (h b rest : list A) :
  slice (len h) (len h + len b) (h ++ b ++ rest) = b.
Proof.
  unfold slice, len.
  replace (Z.to_nat (Z.of_nat (List.length h) + Z.of_nat (List.length b) - Z.of_nat (List.length h))) with (List.length b) by lia.
  rewrite Nat2Z.id. rewrite skipn_app, skipn_all, Nat.sub_diag. cbn [skipn app].
  rewrite firstn_app, firstn_all, Nat.sub_diag. cbn [firstn]. apply app_nil_r.
Qed.

Lemma sliceFrom_app {A} (h rest : list A) : sliceFrom (len h) (h ++ rest) = rest.
Proof.
  unfold sliceFrom, len. rewrite Nat2Z.id, skipn_app, skipn_all, Nat.sub_diag. reflexivity.
Qed.

Lemma toUint8_small z : 0 <= z < 256 -> byteZ (toUint8 z) = z.
Proof. intros. rewrite byteZ_toUint8. apply Z.mod_small; lia. Qed.

Lemma safeSlice_after_head (hd : byte) (b rest : bytes) :
  safeSlice (hd :: b ++ rest) 1 (1 + len b) = Ok b.
Proof.
  unfold safeSlice.
  replace (len (hd :: b ++ rest) <? 1 + len b) with false.
  2:{ symmetry. apply Z.ltb_ge. rewrite len_cons, len_app.
      pose proof (len_nonneg rest). lia. }
  f_equal. change (hd :: b ++ rest) with ([hd] ++ b ++ rest).
  change 1 with (len [hd]). apply slice_middle.
Qed.

Lemma sliceFrom_after_head (hd : byte) (b rest : bytes) :
  sliceFrom (1 + len b) (hd :: b ++ rest) = rest.
Proof.
  change (hd :: b ++ rest) with ([hd] ++ b ++ rest).
  rewrite app_assoc. change 1 with (len [hd]). rewrite <- len_app.
  apply sliceFrom_app.
Qed.

Lemma decodeItem_string f b rest :
  len b <= 55 ->
  decodeItem (S f) (RLPWriter.encodeString b ++ rest) = Ok (DBytes b, rest).
Proof.
  intros Hb. unfold RLPWriter.encodeString.
  destruct b as [|x r].
  - reflexivity.
  - destruct ((len (x :: r) =? 1) && (byteZ x <? 128)) eqn:E1.
    + apply andb_prop in E1. destruct E1 as [E1 E2].
      apply Z.eqb_eq in E1. rewrite len_cons in E1.
      assert (r = []) by (apply len_nil_iff; lia). subst r.
      cbn [app]. rewrite decodeItem_S. cbv zeta.
      apply Z.ltb_lt in E2.
      replace (byteZ x <=? 127) with true by (symmetry; apply Z.leb_le; lia).
      reflexivity.
    + replace (len (x :: r) <=? 55) with true by (symmetry; apply Z.leb_le; lia).
      assert (Hd : (len (x :: r) =? 1)
                   && match x :: r with d :: _ => byteZ d <? 128 | [] => false end
                   = false) by exact E1.
      assert (Hn : 1 <= len (x :: r))
        by (rewrite len_cons; pose proof (len_nonneg r); lia).
      clear E1. revert Hb Hd Hn. generalize (x :: r) as b. clear x r.
      intros b Hb Hd Hn.
      rewrite <- app_comm_cons, decodeItem_S. cbv zeta.
      rewrite toUint8_small by lia.
      replace (128 + len b <=? 127) with false by (symmetry; apply Z.leb_gt; lia).
      replace (128 + len b <=? 183) with true by (symmetry; apply Z.leb_le; lia).
      replace (128 + len b =? 128) with false by (symmetry; apply Z.eqb_neq; lia).
      replace (128 + len b - 127) with (1 + len b) by lia.
      rewrite safeSlice_after_head, sliceFrom_after_head. cbn [bind].
      replace (1 + len b =? 2) with (len b =? 1).
      2:{ destruct (len b =? 1) eqn:E; symmetry;
          [apply Z.eqb_eq; apply Z.eqb_eq in E | apply Z.eqb_neq; apply Z.eqb_neq in E];
          lia. }
      rewrite Hd. reflexivity.
Qed.

Lemma decodeItems_nil f items : decodeItems f [] = Ok items -> items = [].
Proof. destruct f; cbn; congruence. Qed.

Lemma decodeItems_cons_inv f x tl items :
  decodeItems f (x :: tl) = Ok items ->
  exists g d remainder ds,
    f = S (S g) /\ decodeItem (S g) (x :: tl) = Ok (d, remainder) /\
    decodeItems (S g) remainder = Ok ds /\ items = d :: ds.
Proof.
  intros E. destruct f as [|[|g]]; try discriminate E.
  rewrite decodeItems_S in E. inv_bind E. destruct a as [d remainder].
  inv_bind E. injection E as <-. exists g, d, remainder, a. auto.
Qed.

Lemma decodeItems_string_head f b rest items :
  len b <= 55 ->
  decodeItems f (RLPWriter.encodeString b ++ rest) = Ok items ->
  exists g items', items = DBytes b :: items' /\ decodeItems g rest = Ok items'.
Proof.
  intros Hb E.
  assert (Hne : exists y ys, RLPWriter.encodeString b ++ rest = y :: ys).
  { pose proof (len_encodeString_pos b) as Hp.
    destruct (RLPWriter.encodeString b) as [|y ys]; [cbn in Hp; lia|].
    cbn [app]. eauto. }
  destruct Hne as (y & ys & Hy). rewrite Hy in E.
  apply decodeItems_cons_inv in E.
  destruct E as (g & d & remainder & ds & -> & Ed & Es & ->).
  rewrite <- Hy, decodeItem_string in Ed by exact Hb.
  injection Ed as <- <-. eauto.
Qed.

Lemma decodeItem_short_list g (hd : byte) (payload rest : bytes) :
  192 <= byteZ hd <= 247 -> len payload = byteZ hd - 192 ->
  decodeItem (S g) (hd :: payload ++ rest) =
  (decoded <- decodeItems g payload ;; Ok (DList decoded, rest)).
Proof.
  intros Hh Hl. rewrite decodeItem_S. cbv zeta.
  replace (byteZ hd <=? 127) with false by (symmetry; apply Z.leb_gt; lia).
  replace (byteZ hd <=? 183) with false by (symmetry; apply Z.leb_gt; lia).
  replace (byteZ hd <=? 191) with false by (symmetry; apply Z.leb_gt; lia).
  replace (byteZ hd <=? 247) with true by (symmetry; apply Z.leb_le; lia).
  replace (byteZ hd - 191) with (1 + len payload) by lia.
  rewrite safeSlice_after_head, sliceFrom_after_head. reflexivity.
Qed.

(** The nonce part of a zero nonce. *)
Lemma decodeItems_zero_list_head f rest items :
  decodeItems f ([xc1; x80] ++ rest) = Ok items ->
  exists items', items = DList [DBytes []] :: items'.
Proof.
  intros E. cbn [app] in E.
  apply decodeItems_cons_inv in E.
  destruct E as (g & d & remainder & ds & -> & Ed & Es & ->).
  change (xc1 :: x80 :: rest) with (xc1 :: [x80] ++ rest) in Ed.
  rewrite decodeItem_short_list in Ed
    by (change (byteZ xc1) with 193; cbn; lia).
  inv_bind Ed. injection Ed as <- <-.
  change [x80] with (RLPWriter.encodeString [] ++ []) in Ha.
  apply decodeItems_string_head in Ha; [|cbn; lia].
  destruct Ha as (g' & items' & -> & Hn).
  apply decodeItems_nil in Hn. subst items'. eauto.
Qed.

Lemma land_255 z : Z.land z 255 = z mod 256.
Proof. change 255 with (Z.ones 8). rewrite Z.land_ones by lia. reflexivity. Qed.

Lemma shiftr_div z n : 0 <= n -> Z.shiftr z n = z / 2 ^ n.
Proof. intros. apply Z.shiftr_div_pow2. assumption. Qed.

Lemma decodeLength_encodeLengthBytes L :
  0 < L < 2 ^ 32 ->
  decodeLength (RLPWriter.encodeLengthBytes L) = Ok L /\
  1 <= len (RLPWriter.encodeLengthBytes L) <= 4.
Proof.
  intros HL. unfold RLPWriter.encodeLengthBytes, decodeLength.
  rewrite !land_255, !shiftr_div by lia.
  change (2 ^ 8) with 256. change (2 ^ 16) with 65536. change (2 ^ 24) with 16777216.
  change (2 ^ 32) with 4294967296 in HL.
  destruct (L <? 256) eqn:E1; [|destruct (L <? 65536) eqn:E2;
                                 [|destruct (L <? 16777216) eqn:E3]];
    rewrite ?Z.ltb_lt, ?Z.ltb_ge in *;
    unfold beValue; cbn [fold_left]; rewrite !byteZ_toUint8;
    (split; [|cbn; lia]).
  - rewrite Z.mod_small by lia.
    replace (L =? 0) with false by (symmetry; apply Z.eqb_neq; lia).
    reflexivity.
  - replace ((L / 256) mod 256 =? 0) with false.
    2:{ symmetry. apply Z.eqb_neq. Z.div_mod_to_equations. lia. }
    f_equal. Z.div_mod_to_equations. lia.
  - replace ((L / 65536) mod 256 =? 0) with false.
    2:{ symmetry. apply Z.eqb_neq. Z.div_mod_to_equations. lia. }
    f_equal. Z.div_mod_to_equations. lia.
  - replace ((L / 16777216) mod 256 =? 0) with false.
    2:{ symmetry. apply Z.eqb_neq. Z.div_mod_to_equations. lia. }
    f_equal. Z.div_mod_to_equations. lia.
Qed.

Lemma decodeItem_long_list g (hd : byte) (lb payload rest : bytes) :
  248 <= byteZ hd -> len lb = byteZ hd - 247 ->
  decodeLength lb = Ok (len payload) -> 56 <= len payload ->
  decodeItem (S g) (hd :: lb ++ payload ++ rest) =
  (decoded <- decodeItems g payload ;; Ok (DList decoded, rest)).
Proof.
  intros Hh Hl Hd Hp. rewrite decodeItem_S. cbv zeta.
  replace (byteZ hd <=? 127) with false by (symmetry; apply Z.leb_gt; lia).
  replace (byteZ hd <=? 183) with false by (symmetry; apply Z.leb_gt; lia).
  replace (byteZ hd <=? 191) with false by (symmetry; apply Z.leb_gt; lia).
  replace (byteZ hd <=? 247) with false by (symmetry; apply Z.leb_gt; lia).
  replace (byteZ hd - 246) with (1 + len lb) by lia.
  rewrite safeSlice_after_head. cbn [bind]. rewrite Hd. cbn [bind].
  replace (len payload <? 56) with false by (symmetry; apply Z.ltb_ge; lia).
  replace (len (hd :: lb ++ payload ++ rest) <? 1 + len lb + len payload) with false.
  2:{ symmetry. apply Z.ltb_ge. rewrite len_cons, !len_app.
      pose proof (len_nonneg rest). lia. }
  assert (S1 : safeSlice (hd :: lb ++ payload ++ rest) (1 + len lb)
                 (1 + len lb + len payload) = Ok payload).
  { unfold safeSlice.
    replace (len (hd :: lb ++ payload ++ rest) <? 1 + len lb + len payload) with false.
    2:{ symmetry. apply Z.ltb_ge. rewrite len_cons, !len_app.
        pose proof (len_nonneg rest). lia. }
    f_equal. rewrite app_comm_cons. rewrite <- (len_cons hd lb).
    apply slice_middle. }
  rewrite S1. cbn [bind].
  assert (S2 : sliceFrom (1 + len lb + len payload) (hd :: lb ++ payload ++ rest) = rest).
  { rewrite app_comm_cons, app_assoc, <- (len_cons hd lb), <- len_app.
    apply sliceFrom_app. }
  rewrite S2. reflexivity.
Qed.

Lemma rlpDecode_cons (hd : byte) (tl : bytes) :
  rlpDecode (hd :: tl) =
  ('(d, remainder) <- decodeItem (S (S (2 * List.length tl))) (hd :: tl) ;;
   match remainder with
   | [] => Ok d
   | _ :: _ => Err RlpError
   end).
Proof.
  unfold rlpDecode. cbn [List.length].
  replace (2 * S (List.length tl))%nat with (S (S (2 * List.length tl))) by lia.
  reflexivity.
Qed.

(** Decoding the output of [encodeElements]: the items are those of the
    payload. *)
Lemma rlpDecode_list_inv (payload : bytes) items :
  len payload < 2 ^ 32 ->
  rlpDecode (RLPWriter.encodeListHeader (len payload) ++ payload) = Ok (DList items) ->
  exists g, decodeItems g payload = Ok items.
Proof.
  intros Hlen E. unfold RLPWriter.encodeListHeader in E.
  pose proof (len_nonneg payload) as Hp.
  destruct (len payload <=? 55) eqn:E55.
  - apply Z.leb_le in E55. cbn [app] in E. rewrite rlpDecode_cons in E.
    rewrite <- (app_nil_r payload) in E.
    rewrite decodeItem_short_list in E
      by (rewrite ?app_nil_r, toUint8_small; lia).
    inv_bind E. destruct a as [d remainder]. inv_bind Ha.
    injection Ha as <- <-. injection E as <-. rewrite ?app_nil_r in Ha0. eauto.
  - apply Z.leb_gt in E55.
    destruct (@decodeLength_encodeLengthBytes (len payload) ltac:(lia)) as [Hd Hl].
    set (lb := RLPWriter.encodeLengthBytes (len payload)) in *.
    rewrite <- app_comm_cons in E. rewrite rlpDecode_cons in E.
    revert E. generalize (S (2 * List.length (lb ++ payload))). intros g E.
    rewrite <- (app_nil_r payload) in E.
    rewrite decodeItem_long_list in E;
      try (rewrite ?app_nil_r, toUint8_small; lia);
      try (rewrite ?app_nil_r; assumption); try (rewrite ?app_nil_r; lia).
    inv_bind E. destruct a as [d remainder]. inv_bind Ha.
    injection Ha as <- <-. injection E as <-. rewrite ?app_nil_r in Ha0. eauto.
Qed.

(** *** The fuel of [rlpDecode] is enough *)

Lemma bind_not_fuel {A B} (r : result A) (k : A -> result B) :
  r <> Err OutOfFuel -> (forall a, r = Ok a -> k a <> Err OutOfFuel) ->
  bind r k <> Err OutOfFuel.
Proof.
  destruct r as [a|e]; cbn; intros H1 H2; [apply H2; reflexivity|].
  intros E. apply H1. injection E as ->. reflexivity.
Qed.

Lemma safeSlice_not_fuel input a b : safeSlice input a b <> Err OutOfFuel.
Proof. unfold safeSlice. destruct (len input <? b); discriminate. Qed.

Lemma decodeLength_not_fuel v : decodeLength v <> Err OutOfFuel.
Proof. unfold decodeLength. destruct v as [|x ?]; [|destruct (byteZ x =? 0)]; discriminate. Qed.

Lemma safeSlice_length input a b s :
  0 <= a -> safeSlice input a b = Ok s -> (List.length s <= List.length input - Z.to_nat a)%nat.
Proof.
  unfold safeSlice, slice. destruct (len input <? b); [discriminate|].
  intros Ha E. injection E as <-.
  rewrite length_firstn, length_skipn. lia.
Qed.

Lemma sliceFrom_length {A} (l : list A) k :
  1 <= k -> l <> [] -> (List.length (sliceFrom k l) < List.length l)%nat.
Proof.
  intros Hk Hl. unfold sliceFrom. rewrite length_skipn.
  destruct l; [congruence|]. cbn [List.length]. lia.
Qed.

Lemma decode_fuel_enough n :
  (forall f input, (List.length input <= n)%nat -> input <> [] -> (2 * n <= f)%nat ->
     decodeItem f input <> Err OutOfFuel /\
     (forall d r, decodeItem f input = Ok (d, r) ->
                  (List.length r < List.length input)%nat)) /\
  (forall f input, (List.length input <= n)%nat -> (2 * n + 1 <= f)%nat ->
     decodeItems f input <> Err OutOfFuel).
Proof.
  induction n as [|n [IHi IHs]].
  - split.
    + intros f [|x tl] Hl Hne Hf; [congruence|cbn in Hl; lia].
    + intros f [|x tl] Hl Hf; [|cbn in Hl; lia].
      destruct f; [lia|]. discriminate.
  - assert (Item :
      forall f input, (List.length input <= S n)%nat -> input <> [] ->
        (2 * S n <= f)%nat ->
        decodeItem f input <> Err OutOfFuel /\
        (forall d r, decodeItem f input = Ok (d, r) ->
                     (List.length r < List.length input)%nat)).
    { intros f input Hl Hne Hf.
      destruct f as [|f]; [lia|]. destruct input as [|first tl]; [congruence|].
      rewrite decodeItem_S. cbv zeta.
      pose proof (byteZ_range first) as Hb.
      assert (Inner : forall a b inner, 1 <= a -> 
                safeSlice (first :: tl) a b = Ok inner ->
                decodeItems f inner <> Err OutOfFuel).
      { intros a b inner Ha Es. apply IHs; [|lia].
        apply safeSlice_length in Es; [|lia]. cbn [List.length] in *. lia. }
      destruct (byteZ first <=? 127) eqn:C1.
      { split; [discriminate|]. intros d r E. injection E as <- <-.
        apply sliceFrom_length; [lia|discriminate]. }
      destruct (byteZ first <=? 183) eqn:C2.
      { apply Z.leb_gt in C1. split.
        - apply bind_not_fuel.
          + destruct (byteZ first =? 128); [discriminate|apply safeSlice_not_fuel].
          + intros data _. destruct (_ && _); discriminate.
        - intros d r E. inv_bind E. destruct (_ && _); [discriminate|].
          injection E as <- <-. apply sliceFrom_length; [lia|discriminate]. }
      destruct (byteZ first <=? 191) eqn:C3.
      { apply Z.leb_gt in C2. split.
        - destruct (_ <? _); [discriminate|].
          apply bind_not_fuel; [apply safeSlice_not_fuel|]. intros lbytes _.
          apply bind_not_fuel; [apply decodeLength_not_fuel|]. intros length _.
          destruct (length <=? 55); [discriminate|].
          apply bind_not_fuel; [apply safeSlice_not_fuel|]. discriminate.
        - intros d r E. destruct (_ <? _); [discriminate|].
          inv_bind E. inv_bind E. destruct (a0 <=? 55) eqn:C; [discriminate|].
          inv_bind E. injection E as <- <-. apply Z.leb_gt in C.
          apply sliceFrom_length; [lia|discriminate]. }
      destruct (byteZ first <=? 247) eqn:C4.
      { apply Z.leb_gt in C3. split.
        - apply bind_not_fuel; [apply safeSlice_not_fuel|]. intros inner Es.
          apply bind_not_fuel; [refine (Inner _ _ _ _ Es); lia|]. discriminate.
        - intros d r E. inv_bind E. inv_bind E. injection E as <- <-.
          apply sliceFrom_length; [lia|discriminate]. }
      apply Z.leb_gt in C4. split.
      - apply bind_not_fuel; [apply safeSlice_not_fuel|]. intros lbytes _.
        apply bind_not_fuel; [apply decodeLength_not_fuel|]. intros length _.
        destruct (length <? 56); [discriminate|].
        destruct (len (first :: tl) <? _); [discriminate|].
        apply bind_not_fuel; [apply safeSlice_not_fuel|]. intros inner Es.
        apply bind_not_fuel; [refine (Inner _ _ _ _ Es); lia|]. discriminate.
      - intros d r E. inv_bind E. inv_bind E.
        destruct (a0 <? 56) eqn:C; [discriminate|].
        destruct (len (first :: tl) <? _); [discriminate|].
        inv_bind E. inv_bind E. injection E as <- <-. apply Z.ltb_ge in C.
        apply sliceFrom_length; [lia|discriminate]. }
    split; [exact Item|].
    intros f input Hl Hf. destruct f as [|f]; [lia|].
    destruct input as [|x tl]; [discriminate|].
    rewrite decodeItems_S.
    destruct (Item f (x :: tl) Hl ltac:(discriminate) ltac:(lia)) as [Hnf Hlen].
    apply bind_not_fuel; [exact Hnf|]. intros [d r] E.
    apply Hlen in E. cbn [List.length] in E, Hl.
    apply bind_not_fuel; [|discriminate].
    apply IHs; lia.
Qed.

(** [rlpDecode] never stops for lack of fuel. *)
Lemma rlpDecode_fuel input : rlpDecode input <> Err OutOfFuel.
Proof.
  destruct input as [|x tl]; [discriminate|].
  unfold rlpDecode.
  destruct (decode_fuel_enough (List.length (x :: tl))) as [Hi _].
  destruct (Hi (2 * List.length (x :: tl))%nat (x :: tl)
              ltac:(lia) ltac:(discriminate) ltac:(lia)) as [Hnf _].
  apply bind_not_fuel; [exact Hnf|].
  intros [d r] _. destruct r; discriminate.
Qed.

(** The big-endian value of a byte string from below. *)
Lemma fold_be_lower l : forall acc,
  0 <= acc -> acc * 256 ^ len l <= fold_left (fun a x => 256 * a + byteZ x) l acc.
Proof.
  induction l as [|y l IH]; intros acc Ha.
  - cbn. lia.
  - cbn [fold_left]. rewrite len_cons.
    pose proof (len_nonneg l) as Hl. pose proof (byteZ_range y) as Hy.
    rewrite Z.pow_add_r, Z.pow_1_r by lia.
    specialize (IH (256 * acc + byteZ y) ltac:(lia)).
    assert (0 < 256 ^ len l) by (apply Z.pow_pos_nonneg; lia).
    nia.
Qed.

(** Digits read in a radix give a value that is not negative, and so does a
    text that starts with 0x. *)
Lemma hexVal_nonneg c d : hexVal c = Some d -> 0 <= d.
Proof.
  unfold hexVal. cbv zeta.
  destruct ((48 <=? _) && _) eqn:E1.
  - intros E. injection E as <-. apply andb_prop in E1. lia.
  - destruct ((97 <=? _) && _) eqn:E2.
    + intros E. injection E as <-. apply andb_prop in E2. lia.
    + destruct ((65 <=? _) && _) eqn:E3; [|discriminate].
      intros E. injection E as <-. apply andb_prop in E3. lia.
Qed.

Lemma digitsValue_nonneg radix s : forall acc v,
  0 <= radix -> 0 <= acc -> digitsValue radix s acc = Some v -> 0 <= v.
Proof.
  induction s as [|c s IH]; intros acc v Hr Ha E; cbn [digitsValue] in E.
  - injection E as <-. exact Ha.
  - unfold digitVal in E. destruct (hexVal c) as [d|] eqn:Ec; [|discriminate].
    apply hexVal_nonneg in Ec.
    destruct (d <? radix); [|discriminate].
    apply IH in E; [exact E|exact Hr|nia].
Qed.

Lemma numeral_nonneg radix s v : 0 <= radix -> numeral radix s = Ok v -> 0 <= v.
Proof.
  intros Hr. unfold numeral. destruct s as [|c s]; [discriminate|].
  destruct (digitsValue radix (String c s) 0) as [n|] eqn:E; [|discriminate].
  intros Q. injection Q as <-. eapply digitsValue_nonneg; [exact Hr| |exact E]. lia.
Qed.

Lemma trimEnd_cons c s :
  isWhiteSpace c = false -> trimEnd (String c s) = String c (trimEnd s).
Proof.
  intros Hc. cbn [trimEnd]. destruct (trimEnd s); [rewrite Hc|]; reflexivity.
Qed.

Lemma BigInt_ofString_0x_nonneg body v :
  BigInt_ofString ("0x" ++ body) = Ok v -> 0 <= v.
Proof.
  unfold BigInt_ofString.
  change (trimStart ("0x" ++ body)) with (String "0" (String "x" body)).
  rewrite !trimEnd_cons by reflexivity. cbv zeta.
  change (Ascii.eqb "0" "0") with true. cbv beta iota.
  change (radixOf "x") with (Some 16). cbv beta iota.
  apply numeral_nonneg. lia.
Qed.

Lemma decodeScalarValue_nonneg value v : decodeScalarValue value = Ok v -> 0 <= v.
Proof.
  destruct value as [b|l]; cbn [decodeScalarValue].
  - rewrite decodeScalar_value. intros E. injection E as <-. apply beValue_nonneg.
  - destruct (len l =? 0).
    + intros E. injection E as <-. lia.
    + apply BigInt_ofString_0x_nonneg.
Qed.

(** No scalar is read as a negative number, from bytes or from an array. *)
Lemma decodeBigint_nonneg x v : decodeBigint x = Ok v -> 0 <= v.
Proof.
  unfold decodeBigint. destruct x as [value|]; [|discriminate].
  apply decodeScalarValue_nonneg.
Qed.

(* ================================================================== *)
(** ** The decoder and the nonce *)

Section DecoderFacts.
Context `{Platform}.

(** What a successful [decodeTxV1] returned. *)
Lemma decodeTxV1_inv items originalBytes tx :
  decodeTxV1 items originalBytes = Ok tx ->
  exists nonce,
    decodeOptionalBigint (nth_error items 4) = Ok nonce /\
    Tx.nonce (Tx.rlp tx) = Some (match nonce with Some n => n | None => 0 end) /\
    (exists data, encodeTx (Tx.rlp tx) true = Ok data) /\
    Tx.size tx = len originalBytes.
Proof.
  unfold decodeTxV1. intros E. cbv zeta in E.
  apply bind_Ok_inv in E. destruct E as (version & _ & E).
  apply bind_Ok_inv in E. destruct E as (timestamp & _ & E).
  apply bind_Ok_inv in E. destruct E as (type & _ & E).
  apply bind_Ok_inv in E. destruct E as (network & _ & E).
  apply bind_Ok_inv in E. destruct E as (nonce & Hnonce & E).
  apply bind_Ok_inv in E. destruct E as (recipient & _ & E).
  apply bind_Ok_inv in E. destruct E as (tokenAddress & _ & E).
  apply bind_Ok_inv in E. destruct E as (amount & _ & E).
  apply bind_Ok_inv in E. destruct E as (fee & _ & E).
  apply bind_Ok_inv in E. destruct E as (payload & _ & E).
  apply bind_Ok_inv in E. destruct E as (referenceHash & _ & E).
  apply bind_Ok_inv in E. destruct E as (signature & _ & E).
  apply bind_Ok_inv in E. destruct E as (signingHash & _ & E).
  apply bind_Ok_inv in E. destruct E as (sender & _ & E).
  apply bind_Ok_inv in E. destruct E as (hash & Hhash & E).
  injection E as <-. cbn [Tx.rlp Tx.size Tx.withSignature Tx.nonce Tx.timestamp].
  exists nonce. repeat split; try assumption.
  unfold hashTx in Hhash. apply bind_Ok_inv in Hhash.
  destruct Hhash as (data & Hdata & _). eauto.
Qed.

Lemma decodeTx_inv rlpBytes tx :
  decodeTx rlpBytes = Ok tx ->
  exists items,
    rlpDecode (inputBytes rlpBytes) = Ok (DList items) /\
    decodeTxV1 items (inputBytes rlpBytes) = Ok tx.
Proof.
  unfold decodeTx. intros E. cbv zeta in E.
  destruct (len (inputBytes rlpBytes) =? 0); [discriminate|].
  apply bind_Ok_inv in E. destruct E as (decoded & Hd & E).
  destruct decoded as [b|items]; [discriminate|].
  destruct (len items <? 1); [discriminate|].
  apply bind_Ok_inv in E. destruct E as (version & _ & E).
  destruct version. eauto.
Qed.

End DecoderFacts.

(* ================================================================== *)
(** ** The TOKEN_CREATE arm of [decodePayload] *)

(** The [bip_token_create] scenario with [websiteUrl], [logoUrl] and
    [maxSupply] left out of the factory's argument. *)
Definition tokenCreateBuilder : TxBuilder.t :=
  TxBuilder.payload
    (createTokenCreatePayload "TestToken" "TT" 9 None None None (Some true))
    (TxBuilder.fee 100000000
       (TxBuilder.nonce 12
          (TxBuilder.network MAINNET
             (TxBuilder.type BIP_CREATE (TxBuilder.create 1702200000004))))).

Section PayloadDecoderFacts.
Context `{Platform}.

Lemma decodePayloadList_tokenCreate l name smallestUnitName numberOfDecimals
    websiteUrl logoUrl maxSupply userBurnable :
  decodePayloadList l =
    Ok (Some (TokenCreatePayload name smallestUnitName numberOfDecimals
                websiteUrl logoUrl maxSupply userBurnable)) ->
  websiteUrl <> None /\ logoUrl <> None /\ maxSupply <> None.
Proof.
  unfold decodePayloadList.
  destruct (match l with [DList inner] => inner | _ => l end) as [|x xs];
    [discriminate|].
  intros D. inv_bind D. inv_bind D.
  destruct a0;
    repeat match type of D with
           | bind _ _ = Ok _ => inv_bind D
           end;
    injection D; intros; subst; try discriminate.
  repeat split; discriminate.
Qed.

(** [decodeTx] never returns a TOKEN_CREATE payload with a null
    [websiteUrl], [logoUrl] or [maxSupply], whatever the bytes: a signed
    transaction that holds one is not what decoding its encoding returns. *)
Theorem decodeTx_tokenCreate_fields_never_null (rlpBytes : bytes + Hex) (tx : Tx.t)
    name smallestUnitName numberOfDecimals websiteUrl logoUrl maxSupply
    userBurnable :
  decodeTx rlpBytes = Ok tx ->
  Tx.payload (Tx.rlp tx) =
    Some (TokenCreatePayload name smallestUnitName numberOfDecimals
            websiteUrl logoUrl maxSupply userBurnable) ->
  websiteUrl <> None /\ logoUrl <> None /\ maxSupply <> None.
Proof.
  intros E Hp. apply decodeTx_inv in E. destruct E as (items & _ & E).
  unfold decodeTxV1 in E.
  apply bind_Ok_inv in E. destruct E as (version & _ & E).
  apply bind_Ok_inv in E. destruct E as (timestamp & _ & E).
  apply bind_Ok_inv in E. destruct E as (type & _ & E).
  apply bind_Ok_inv in E. destruct E as (network & _ & E).
  apply bind_Ok_inv in E. destruct E as (nonce & _ & E).
  apply bind_Ok_inv in E. destruct E as (recipient & _ & E).
  apply bind_Ok_inv in E. destruct E as (tokenAddress & _ & E).
  apply bind_Ok_inv in E. destruct E as (amount & _ & E).
  apply bind_Ok_inv in E. destruct E as (fee & _ & E).
  apply bind_Ok_inv in E. destruct E as (payload & Hpayload & E).
  apply bind_Ok_inv in E. destruct E as (referenceHash & _ & E).
  apply bind_Ok_inv in E. destruct E as (signature & _ & E).
  apply bind_Ok_inv in E. destruct E as (signingHash & _ & E).
  apply bind_Ok_inv in E. destruct E as (sender & _ & E).
  apply bind_Ok_inv in E. destruct E as (hash & _ & E).
  injection E as <-. cbn [Tx.rlp Tx.withSignature Tx.payload] in Hp. subst payload.
  unfold decodePayload in Hpayload.
  destruct (nth_error items 10) as [[b|l]|]; try discriminate.
  - destruct ((len b =? 0) || _); [discriminate|].
    inv_bind Hpayload. destruct a as [c|[|y ys]]; try discriminate.
    eapply decodePayloadList_tokenCreate; exact Hpayload.
  - destruct l as [|y ys]; [discriminate|].
    eapply decodePayloadList_tokenCreate; exact Hpayload.
Qed.

End PayloadDecoderFacts.

Definition tokenCreateBytes : bytes :=
  Eval vm_compute in
    match @TxBuilder.sign stubPlatform tokenCreateBuilder samplePrivateKey with
    | Ok t =>
        match @encodeTx stubPlatform (Tx.rlp t) true with
        | Ok b => b
        | Err _ => []
        end
    | Err _ => []
    end.

Lemma decodeTx_tokenCreate_fields_never_null_witness :
  exists tx,
    @decodeTx stubPlatform (inl tokenCreateBytes) = Ok tx /\
    Tx.payload (Tx.rlp tx) <>
      Some (TokenCreatePayload "TestToken" "TT" 9 None None None true).
Proof.
  destruct (@decodeTx stubPlatform (inl tokenCreateBytes)) as [tx|e] eqn:E;
    [|vm_compute in E; discriminate E].
  exists tx. split; [reflexivity|]. intros Hp.
  destruct (@decodeTx_tokenCreate_fields_never_null stubPlatform _ _ _ _ _ _ _ _ _ E Hp)
    as (C & _).
  apply C. reflexivity.
Defined.

(* ================================================================== *)
(** ** Scalars: the general statements *)

(** [encodeScalar] writes the minimal big-endian form: the bytes read back to
    the value, zero is the empty string, and the first byte of any other
    value is not zero. *)
Theorem encodeScalar_is_minimal_big_endian (v : Z) :
  0 <= v ->
  beValue (encodeScalar v) = v /\
  (v = 0 -> encodeScalar v = []) /\
  (forall b rest, encodeScalar v = b :: rest -> b <> x00).
Proof.
  intros Hv. destruct (encodeScalar_minimal Hv) as [Hval Hmin].
  split; [exact Hval|]. split.
  - intros ->. reflexivity.
  - intros b rest E.
    destruct Hmin as [[_ E0]|(_ & b' & rest' & E' & Hnz)]; congruence.
Qed.

Lemma encodeScalar_is_minimal_big_endian_witness :
  beValue (encodeScalar 10000000000) = 10000000000 /\
  encodeScalar 10000000000 = [x02; x54; x0b; xe4; x00].
Proof.
  split.
  - exact (proj1 (@encodeScalar_is_minimal_big_endian 10000000000 ltac:(lia))).
  - reflexivity.
Defined.

(** [decodeScalar] reads the big-endian value of any byte string, and it
    inverts [encodeScalar] on the non-negative integers. *)
Theorem decodeScalar_encodeScalar (v : Z) :
  0 <= v -> decodeScalar (encodeScalar v) = Ok v.
Proof.
  intros Hv. rewrite decodeScalar_value.
  destruct (encodeScalar_minimal Hv) as [-> _]. reflexivity.
Qed.

Lemma decodeScalar_encodeScalar_witness :
  decodeScalar (encodeScalar 1702200000000) = Ok 1702200000000.
Proof. exact (@decodeScalar_encodeScalar 1702200000000 ltac:(lia)). Defined.

(* ================================================================== *)
(** ** The RLP value of an encoding *)

(** The canonical RLP form of a decoded value. *)
Fixpoint canon (d : RLPDecoded) : bytes :=
  match d with
  | DBytes b => RLPWriter.encodeString b
  | DList l =>
      let payload := List.concat (map canon l) in
      RLPWriter.encodeListHeader (len payload) ++ payload
  end.

Fixpoint fuelItem (d : RLPDecoded) : nat :=
  match d with
  | DBytes _ => 1
  | DList l => S (fold_right (fun e acc => S (Nat.max (fuelItem e) acc)) 1%nat l)
  end.

Definition fuelItems (l : list RLPDecoded) : nat :=
  fold_right (fun e acc => S (Nat.max (fuelItem e) acc)) 1%nat l.

Lemma RLPDecoded_nested_ind (P : RLPDecoded -> Prop) :
  (forall b, P (DBytes b)) ->
  (forall l, Forall P l -> P (DList l)) ->
  forall d, P d.
Proof.
  intros Hb Hl. fix IH 1. intros [b|l].
  - apply Hb.
  - apply Hl. induction l as [|x l IHl]; constructor; [apply IH|exact IHl].
Qed.

Lemma decodeItem_long_string f (b rest : bytes) :
  55 < len b < 2 ^ 32 ->
  decodeItem (S f) (RLPWriter.encodeString b ++ rest) = Ok (DBytes b, rest).
Proof.
  intros Hb. unfold RLPWriter.encodeString.
  destruct b as [|x r] eqn:Eb; [cbn in Hb; lia|]. rewrite <- Eb in *.
  replace ((len b =? 1) && (byteZ x <? 128)) with false.
  2:{ symmetry. apply andb_false_iff. left. apply Z.eqb_neq. lia. }
  replace (len b <=? 55) with false by (symmetry; apply Z.leb_gt; lia).
  destruct (@decodeLength_encodeLengthBytes (len b) ltac:(lia)) as [Hd Hl].
  set (lb := RLPWriter.encodeLengthBytes (len b)) in *.
  rewrite <- app_comm_cons, <- app_assoc, decodeItem_S. cbv zeta.
  rewrite toUint8_small by lia.
  replace (183 + len lb <=? 127) with false by (symmetry; apply Z.leb_gt; lia).
  replace (183 + len lb <=? 183) with false by (symmetry; apply Z.leb_gt; lia).
  replace (183 + len lb <=? 191) with true by (symmetry; apply Z.leb_le; lia).
  replace (183 + len lb - 182) with (1 + len lb) by lia.
  set (hd := toUint8 (183 + len lb)).
  replace (len (hd :: lb ++ b ++ rest) - 1 <? 1 + len lb) with false.
  2:{ symmetry. apply Z.ltb_ge. rewrite len_cons, !len_app.
      pose proof (len_nonneg rest). lia. }
  rewrite safeSlice_after_head. cbn [bind]. rewrite Hd. cbn [bind].
  replace (len b <=? 55) with false by (symmetry; apply Z.leb_gt; lia).
  assert (S1 : safeSlice (hd :: lb ++ b ++ rest) (1 + len lb) (len b + (1 + len lb))
               = Ok b).
  { unfold safeSlice.
    replace (len (hd :: lb ++ b ++ rest) <? len b + (1 + len lb)) with false.
    2:{ symmetry. apply Z.ltb_ge. rewrite len_cons, !len_app.
        pose proof (len_nonneg rest). lia. }
    f_equal. rewrite app_comm_cons. rewrite <- (len_cons hd lb).
    replace (len b + len (hd :: lb)) with (len (hd :: lb) + len b) by lia.
    apply slice_middle. }
  rewrite S1. cbn [bind].
  assert (S2 : sliceFrom (len b + (1 + len lb)) (hd :: lb ++ b ++ rest) = rest).
  { rewrite app_comm_cons, app_assoc, <- (len_cons hd lb).
    replace (len b + len (hd :: lb)) with (len ((hd :: lb) ++ b))
      by (rewrite len_app; lia).
    apply sliceFrom_app. }
  rewrite S2. reflexivity.
Qed.

Lemma decodeItem_any_string f (b rest : bytes) :
  len b < 2 ^ 32 ->
  decodeItem (S f) (RLPWriter.encodeString b ++ rest) = Ok (DBytes b, rest).
Proof.
  intros Hb. destruct (Z.le_gt_cases (len b) 55).
  - apply decodeItem_string. assumption.
  - apply decodeItem_long_string. lia.
Qed.

Lemma decodeItem_list_header g (payload rest : bytes) :
  len payload < 2 ^ 32 ->
  decodeItem (S g) ((RLPWriter.encodeListHeader (len payload) ++ payload) ++ rest) =
  (decoded <- decodeItems g payload ;; Ok (DList decoded, rest)).
Proof.
  intros Hlen. unfold RLPWriter.encodeListHeader.
  pose proof (len_nonneg payload) as Hp.
  destruct (len payload <=? 55) eqn:E55.
  - apply Z.leb_le in E55. cbn [app].
    apply decodeItem_short_list; rewrite toUint8_small; lia.
  - apply Z.leb_gt in E55.
    destruct (@decodeLength_encodeLengthBytes (len payload) ltac:(lia)) as [Hd Hl].
    rewrite <- !app_comm_cons, <- !app_assoc.
    apply decodeItem_long_list; try (rewrite toUint8_small; lia); try assumption; lia.
Qed.

Lemma canon_nonempty d : 1 <= len (canon d).
Proof.
  destruct d as [b|l]; cbn [canon].
  - apply len_encodeString_pos.
  - rewrite len_app.
    pose proof (len_encodeListHeader_pos (len (List.concat (map canon l)))).
    pose proof (len_nonneg (List.concat (map canon l))). lia.
Qed.

Lemma decodeItems_canon l :
  Forall (fun d => forall f rest, len (canon d) < 2 ^ 32 -> (fuelItem d <= f)%nat ->
                   decodeItem f (canon d ++ rest) = Ok (d, rest)) l ->
  forall f, len (List.concat (map canon l)) < 2 ^ 32 -> (fuelItems l <= f)%nat ->
  decodeItems f (List.concat (map canon l)) = Ok l.
Proof.
  induction 1 as [|d l Hd Hl IH]; intros f Hlen Hf.
  - destruct f; [cbn in Hf; lia|]. reflexivity.
  - cbn [map List.concat] in *. cbn [fuelItems fold_right] in Hf. fold (fuelItems l) in Hf.
    destruct f as [|f]; [lia|].
    pose proof (canon_nonempty d) as Hne.
    rewrite len_app in Hlen.
    pose proof (len_nonneg (List.concat (map canon l))) as Hr.
    destruct (canon d ++ List.concat (map canon l)) as [|y ys] eqn:Ey.
    { apply (f_equal (@len byte)) in Ey. rewrite len_app in Ey. cbn in Ey. lia. }
    rewrite decodeItems_S, <- Ey.
    rewrite Hd by lia. cbn [bind].
    rewrite IH by lia. reflexivity.
Qed.

Lemma decodeItem_canon d :
  forall f rest, len (canon d) < 2 ^ 32 -> (fuelItem d <= f)%nat ->
  decodeItem f (canon d ++ rest) = Ok (d, rest).
Proof.
  induction d as [b|l IH] using RLPDecoded_nested_ind; intros f rest Hlen Hf.
  - cbn [canon fuelItem] in *. destruct f as [|f]; [lia|].
    apply decodeItem_any_string.
    unfold RLPWriter.encodeString in Hlen.
    destruct b as [|x r]; [cbn; lia|].
    destruct ((len (x :: r) =? 1) && (byteZ x <? 128)); [exact Hlen|].
    destruct (len (x :: r) <=? 55) eqn:E; [apply Z.leb_le in E; lia|].
    rewrite len_cons, len_app in Hlen.
    pose proof (len_nonneg (RLPWriter.encodeLengthBytes (len (x :: r)))). lia.
  - cbn [canon fuelItem] in *. fold (fuelItems l) in Hf.
    destruct f as [|f]; [lia|].
    rewrite len_app in Hlen.
    pose proof (len_encodeListHeader_pos (len (List.concat (map canon l)))).
    rewrite decodeItem_list_header by lia.
    rewrite decodeItems_canon; [reflexivity|exact IH|lia|lia].
Qed.

Lemma fuel_bound d : (fuelItem d <= 2 * List.length (canon d))%nat.
Proof.
  induction d as [b|l IH] using RLPDecoded_nested_ind.
  - cbn [fuelItem canon]. pose proof (len_encodeString_pos b) as H. unfold len in H. lia.
  - cbn [fuelItem canon]. fold (fuelItems l).
    assert (G : (fuelItems l <= 2 * List.length (List.concat (map canon l)) + 1)%nat).
    { induction IH as [|d l Hd Hl IHl]; [cbn; lia|].
      cbn [fuelItems fold_right map List.concat]. fold (fuelItems l).
      rewrite length_app. pose proof (canon_nonempty d) as Hne. unfold len in Hne. lia. }
    rewrite length_app.
    pose proof (len_encodeListHeader_pos (len (List.concat (map canon l)))) as Hh.
    unfold len in Hh at 1. lia.
Qed.

(** Decoding the canonical form gives the value back. *)
Lemma rlpDecode_canon d :
  len (canon d) < 2 ^ 32 -> rlpDecode (canon d) = Ok d.
Proof.
  intros Hlen. pose proof (canon_nonempty d) as Hne.
  pose proof (@decodeItem_canon d (2 * List.length (canon d)) [] Hlen (fuel_bound d)) as H.
  rewrite app_nil_r in H.
  unfold rlpDecode. destruct (canon d) as [|y ys] eqn:E; [cbn in Hne; lia|].
  rewrite H. reflexivity.
Qed.

(* ================================================================== *)
(** ** The nonce read back *)

Section NonceReadBack.
Context `{Platform}.

(** A byte string at the head of the input is read back, whatever its
    length. *)
Lemma len_encodeString_ge b : len b <= len (RLPWriter.encodeString b).
Proof.
  unfold RLPWriter.encodeString. destruct b as [|x r]; [cbn; lia|].
  destruct ((len (x :: r) =? 1) && (byteZ x <? 128)); [lia|].
  destruct (len (x :: r) <=? 55).
  - rewrite (len_cons _ (x :: r)). lia.
  - cbv zeta. rewrite (len_cons _ (_ ++ _)), len_app.
    pose proof (len_nonneg (RLPWriter.encodeLengthBytes (len (x :: r)))). lia.
Qed.

Lemma decodeItems_any_string_head f b rest items :
  len (RLPWriter.encodeString b ++ rest) < 2 ^ 32 ->
  decodeItems f (RLPWriter.encodeString b ++ rest) = Ok items ->
  exists g items',
    items = DBytes b :: items' /\ decodeItems g rest = Ok items' /\
    len rest < 2 ^ 32.
Proof.
  intros Hlen E. rewrite len_app in Hlen.
  pose proof (len_encodeString_ge b) as Hge.
  pose proof (len_encodeString_pos b) as Hp.
  pose proof (len_nonneg rest) as Hr. pose proof (len_nonneg b) as Hb.
  assert (Hne : exists y ys, RLPWriter.encodeString b ++ rest = y :: ys).
  { destruct (RLPWriter.encodeString b) as [|y ys]; [cbn in Hp; lia|].
    cbn [app]. eauto. }
  destruct Hne as (y & ys & Hy). rewrite Hy in E.
  apply decodeItems_cons_inv in E.
  destruct E as (g & d & remainder & ds & -> & Ed & Es & ->).
  rewrite <- Hy, decodeItem_any_string in Ed by lia.
  injection Ed as <- <-. exists (S g), ds. repeat split; [exact Es|lia].
Qed.

(** The first five parts of an encoded transaction decode to four byte
    strings and the nonce item, whatever the four scalars are. *)
Lemma decodeItems_tx_prefix g tx includeSignature payloadBytes items :
  Tx.nonce tx = Some 0 ->
  len (List.concat (map RLPWriter.encodePart
                      (txElements tx includeSignature payloadBytes))) < 2 ^ 32 ->
  decodeItems g
    (List.concat (map RLPWriter.encodePart
                    (txElements tx includeSignature payloadBytes))) = Ok items ->
  nth_error items 4 = Some (DList [DBytes []]).
Proof.
  intros Hn Hlen E. unfold txElements in E, Hlen. rewrite Hn in E, Hlen.
  cbn [map app List.concat RLPWriter.encodePart optScalarEl] in E, Hlen.
  apply decodeItems_any_string_head in E; [|exact Hlen].
  clear Hlen. destruct E as (g1 & i1 & -> & E & Hlen).
  apply decodeItems_any_string_head in E; [|exact Hlen].
  clear Hlen. destruct E as (g2 & i2 & -> & E & Hlen).
  apply decodeItems_any_string_head in E; [|exact Hlen].
  clear Hlen. destruct E as (g3 & i3 & -> & E & Hlen).
  apply decodeItems_any_string_head in E; [|exact Hlen].
  clear Hlen. destruct E as (g4 & i4 & -> & E & Hlen).
  change (RLPWriter.encodeListHeader _ ++ [x80] ++ []) with [xc1; x80] in E.
  apply decodeItems_zero_list_head in E. destruct E as (i5 & ->).
  reflexivity.
Qed.

(** C10. [decodeTx] never returns a transaction with a null nonce; on an
    input whose nonce item is the empty list (0xc0 on the wire) the decoded
    nonce is 0, and encoding the decoded transaction again writes 0xc1 0x80
    at the nonce position, so the bytes differ from the input. *)
Theorem decodeTx_nonce_never_absent (rlpBytes : bytes + Hex) (tx : Tx.t) :
  decodeTx rlpBytes = Ok tx ->
  Tx.nonce (Tx.rlp tx) <> None /\
  forall items,
    rlpDecode (inputBytes rlpBytes) = Ok (DList items) ->
    nth_error items 4 = Some (DList []) ->
    Tx.nonce (Tx.rlp tx) = Some 0 /\
    exists parts,
      encodeTx_parts (Tx.rlp tx) true = Ok parts /\
      encodeTx (Tx.rlp tx) true =
        Ok (RLPWriter.encodeListHeader (len (List.concat parts)) ++ List.concat parts) /\
      nth_error parts 4 = Some [xc1; x80] /\
      (len (inputBytes rlpBytes) < 2 ^ 32 ->
       encodeTx (Tx.rlp tx) true <> Ok (inputBytes rlpBytes)).
Proof.
  intros E. apply decodeTx_inv in E. destruct E as (items0 & Hdec & E).
  apply decodeTxV1_inv in E.
  destruct E as (nonce & Hnonce & Hfield & (data & Hdata) & _).
  split; [rewrite Hfield; discriminate|].
  intros items Hitems H4.
  assert (items0 = items) by congruence. subst items0.
  rewrite H4 in Hnonce. cbn in Hnonce. injection Hnonce as <-.
  split; [exact Hfield|].
  assert (Hparts : exists parts, encodeTx_parts (Tx.rlp tx) true = Ok parts).
  { unfold encodeTx, encodeTxV1 in Hdata. destruct (Tx.version (Tx.rlp tx)).
    apply bind_Ok_inv in Hdata. destruct Hdata as (w & Hw & _).
    unfold encodeTx_parts. rewrite Hw. cbn [bind]. eauto. }
  destruct Hparts as (parts & Hparts). exists parts.
  pose proof (encodeTx_of_parts _ _ Hparts) as Henc.
  destruct (encodeTx_parts_elements _ _ Hparts) as (pb & Hpb & Eparts).
  split; [exact Hparts|]. split; [exact Henc|]. split.
  - rewrite Eparts. unfold txElements. rewrite Hfield. reflexivity.
  - intros Hlen C. rewrite Henc in C. injection C as C.
    rewrite <- C in Hitems, Hlen.
    apply rlpDecode_list_inv in Hitems.
    2:{ rewrite len_app in Hlen.
        pose proof (len_encodeListHeader_pos (len (List.concat parts))). lia. }
    destruct Hitems as (g & Hitems). rewrite Eparts in Hitems.
    apply decodeItems_tx_prefix in Hitems; [congruence|exact Hfield|].
    rewrite <- Eparts. rewrite len_app in Hlen.
    pose proof (len_encodeListHeader_pos (len (List.concat parts))). lia.
Qed.

End NonceReadBack.

(** The vote without nonce, on the wire and decoded. *)
Definition sampleNoNonceBytes : bytes :=
  Eval vm_compute in
    match @encodeTx stubPlatform sampleVoteNoNonce true with
    | Ok b => b
    | Err _ => []
    end.

Definition sampleNoNonceItems : list RLPDecoded :=
  Eval vm_compute in
    match rlpDecode sampleNoNonceBytes with
    | Ok (DList l) => l
    | _ => []
    end.

Lemma decodeTx_nonce_never_absent_witness :
  nth_error sampleNoNonceItems 4 = Some (DList []) /\
  exists tx,
    @decodeTx stubPlatform (inl sampleNoNonceBytes) = Ok tx /\
    Tx.nonce (Tx.rlp tx) = Some 0 /\
    @encodeTx stubPlatform (Tx.rlp tx) true <> Ok sampleNoNonceBytes.
Proof.
  split; [reflexivity|].
  destruct (@decodeTx stubPlatform (inl sampleNoNonceBytes)) as [tx|e] eqn:E;
    [|vm_compute in E; discriminate E].
  exists tx. split; [reflexivity|].
  destruct (@decodeTx_nonce_never_absent stubPlatform _ _ E) as [_ Hall].
  assert (Hitems : rlpDecode (inputBytes (inl sampleNoNonceBytes))
                   = Ok (DList sampleNoNonceItems))
    by (vm_compute; reflexivity).
  destruct (Hall _ Hitems eq_refl) as (Hn & parts & _ & _ & _ & Hne).
  split; [exact Hn|]. apply Hne. vm_compute. reflexivity.
Defined.

(* ================================================================== *)
(** ** The items of an encoded transaction *)

Definition optScalarItem (v : option Z) : RLPDecoded :=
  match v with
  | None => DList []
  | Some v => DList [DBytes (encodeScalar v)]
  end.

Definition optBytesItem (b : option bytes) : RLPDecoded :=
  match b with
  | None => DList []
  | Some b => DList [DBytes b]
  end.

(** A value that is null or a [Uint8Array], as [UnsignedTx] declares the
    message, and the bytes the writer stores for it (for an array, one byte
    an item). *)
Definition bytesOrNull (v : option RLPDecoded) : Prop :=
  match v with
  | Some (DList _) => False
  | _ => True
  end.

Definition writtenBytes (v : option RLPDecoded) : option bytes :=
  match v with
  | None => None
  | Some (DBytes b) => Some b
  | Some (DList l) => Some (map (fun item => storeParsed (itemNumber item)) l)
  end.

Section Items.
Context `{Platform}.

Definition optStringItem (s : option string) : RLPDecoded :=
  optBytesItem (option_map encodeString s).

Definition payloadFieldItems (p : TxPayload) : list RLPDecoded :=
  match p with
  | TokenMintPayload tokenAddress recipient amount =>
      [DBytes (hexToBytes tokenAddress); DBytes (hexToBytes recipient);
       DBytes (encodeScalar amount)]
  | TokenBurnPayload tokenAddress sender amount =>
      [DBytes (hexToBytes tokenAddress); DBytes (hexToBytes sender);
       DBytes (encodeScalar amount)]
  | TokenCreatePayload name smallestUnitName numberOfDecimals websiteUrl logoUrl
      maxSupply userBurnable =>
      [DBytes (encodeString name); DBytes (encodeString smallestUnitName);
       DBytes (encodeScalar (numberValue numberOfDecimals));
       optStringItem (orNull websiteUrl); optStringItem (orNull logoUrl);
       optScalarItem maxSupply;
       DBytes (encodeScalar (if userBurnable then 1 else 0))]
  | TokenUpdatePayload tokenAddress name smallestUnitName websiteUrl logoUrl =>
      [DBytes (hexToBytes tokenAddress); optStringItem name;
       optStringItem smallestUnitName; optStringItem websiteUrl;
       optStringItem logoUrl]
  | VotePayload voteType => [DBytes (encodeScalar (numberValue voteType))]
  | AddressAliasAddPayload address alias =>
      [DBytes (encodeString alias); DBytes (hexToBytes address)]
  | AddressAliasRemovePayload alias => [DBytes (encodeString alias)]
  | AuthorityAddPayload authorityAddress => [DBytes (hexToBytes authorityAddress)]
  | AuthorityRemovePayload authorityAddress => [DBytes (hexToBytes authorityAddress)]
  | NetworkParamsSetPayload blockReward blockRewardPoolAddress targetMiningTimeMs
      asertHalfLifeBlocks minDifficulty minTxBaseFee minTxByteFee =>
      [optScalarItem blockReward;
       optBytesItem (option_map hexToBytes blockRewardPoolAddress);
       optScalarItem targetMiningTimeMs; optScalarItem asertHalfLifeBlocks;
       optScalarItem minDifficulty; optScalarItem minTxBaseFee;
       optScalarItem minTxByteFee]
  | ValidatorAddPayload _ => []
  | ValidatorRemovePayload _ => []
  end.

Definition payloadItems (p : TxPayload) : list RLPDecoded :=
  match payloadType p with
  | Some type => DBytes (encodeScalar (payloadTypeCode type)) :: payloadFieldItems p
  | None => []
  end.

Definition payloadItem (payload : option TxPayload) : RLPDecoded :=
  match payload with
  | None => DList []
  | Some p => DList [DList (payloadItems p)]
  end.

Definition txItems (tx : Tx.fields) (includeSignature : bool) : list RLPDecoded :=
  [DBytes (encodeScalar (versionCode (Tx.version tx)));
   DBytes (encodeScalar (numberValue (Tx.timestamp tx)));
   DBytes (encodeScalar (txTypeCode (Tx.type tx)));
   DBytes (encodeScalar (networkCode (Tx.network tx)));
   optScalarItem (Tx.nonce tx);
   optBytesItem (option_map hexToBytes (Tx.recipient tx));
   optBytesItem (option_map hexToBytes (Tx.tokenAddress tx));
   optScalarItem (Tx.amount tx);
   DBytes (encodeScalar (Tx.fee tx));
   optBytesItem (writtenBytes (Tx.message tx));
   payloadItem (Tx.payload tx);
   optBytesItem (option_map hexToBytes (truthy (Tx.referenceHash tx)))]
  ++ match (if includeSignature then truthy (Tx.signature tx) else None) with
     | Some s => [DBytes (hexToBytes s)]
     | None => []
     end.

Lemma encodePart_optScalar v :
  RLPWriter.encodePart (optScalarEl v) = canon (optScalarItem v).
Proof. destruct v; reflexivity. Qed.

Lemma encodePart_optBytes b :
  RLPWriter.encodePart (optBytesEl b) = canon (optBytesItem b).
Proof. destruct b; reflexivity. Qed.

Lemma encodePart_optValue v :
  bytesOrNull v ->
  RLPWriter.encodePart (optValueEl v) = canon (optBytesItem (writtenBytes v)).
Proof. destruct v as [[b|l]|]; intros Hv; [reflexivity|contradiction|reflexivity]. Qed.

Lemma encodePayload_canon p v payloadBytes :
  encodePayload (Some p) v = Ok payloadBytes ->
  payloadBytes = canon (DList (payloadItems p)).
Proof.
  unfold encodePayload, payloadItems.
  destruct p;
    try match goal with n : number |- _ => destruct n end;
    cbn [payloadType option_map BigInt_of BigInt_ofNumber numberValue bind
         encodePayloadFields payloadFieldItems];
    intros E; try discriminate; injection E as <-;
    repeat match goal with
           | |- context [orNull ?x] => generalize (orNull x); intro
           end;
    repeat match goal with
           | o : option _ |- _ => destruct o
           end; reflexivity.
Qed.

Lemma encodeTx_canon tx includeSignature data :
  bytesOrNull (Tx.message tx) ->
  encodeTx tx includeSignature = Ok data ->
  data = canon (DList (txItems tx includeSignature)).
Proof.
  intros Hm E.
  assert (Hparts : exists parts, encodeTx_parts tx includeSignature = Ok parts).
  { unfold encodeTx, encodeTxV1 in E. destruct (Tx.version tx).
    apply bind_Ok_inv in E. destruct E as (w & Hw & _).
    unfold encodeTx_parts. rewrite Hw. cbn [bind]. eauto. }
  destruct Hparts as (parts & Hparts).
  rewrite (encodeTx_of_parts _ _ Hparts) in E. injection E as <-.
  destruct (encodeTx_parts_elements _ _ Hparts) as (pb & Hpb & ->).
  assert (P : RLPWriter.encodePart (payloadEl pb) = canon (payloadItem (Tx.payload tx))).
  { destruct (Tx.payload tx) as [p|].
    - destruct (encodePayload_Some_shape _ _ Hpb) as [_ ->].
      apply encodePayload_canon in Hpb. subst pb. reflexivity.
    - injection Hpb as <-. reflexivity. }
  cbn [canon]. unfold txElements, txItems, signatureEls.
  rewrite !map_app. cbn [map].
  rewrite !encodePart_optScalar, !encodePart_optBytes, P.
  rewrite (encodePart_optValue _ Hm).
  destruct (if includeSignature then truthy (Tx.signature tx) else None); reflexivity.
Qed.

(** The RLP value an encoded transaction holds. *)
Lemma rlpDecode_encodeTx tx includeSignature data :
  bytesOrNull (Tx.message tx) ->
  encodeTx tx includeSignature = Ok data -> len data < 2 ^ 32 ->
  rlpDecode data = Ok (DList (txItems tx includeSignature)).
Proof.
  intros Hm E Hlen. apply encodeTx_canon in E; [|exact Hm]. subst data.
  apply rlpDecode_canon. exact Hlen.
Qed.

End Items.

(* ================================================================== *)
(** ** Round trip through [encodeTx] and [decodeTx] *)

(** A hex string in the form [bytesToHex] gives to [n] bytes: 0x and 2n
    lower-case digits. *)
Definition canonicalHex (n : Z) (s : string) : Prop :=
  len (hexToBytes s) = n /\ bytesToHex (hexToBytes s) = s.

Definition optCanonicalHex (n : Z) (s : option string) : Prop :=
  match s with
  | None => True
  | Some s => canonicalHex n s
  end.

Definition optNonneg (v : option Z) : Prop :=
  match v with
  | None => True
  | Some v => 0 <= v
  end.

(** A number that is an integer from 0 to [Number.MAX_SAFE_INTEGER]. *)
Definition safeInteger (n : number) : Prop :=
  match n with
  | Finite z => 0 <= z <= MAX_SAFE_INTEGER
  | Infinity _ => False
  end.

Section RoundTripConditions.
Context `{Platform}.

Definition textRoundTrips (s : string) : Prop :=
  TextDecoder_decode (TextEncoder_encode s) = s.

(** An optional text that comes back as it is: null, or a text with at
    least one byte. *)
Definition optTextRoundTrips (s : option string) : Prop :=
  match s with
  | None => True
  | Some s => textRoundTrips s /\ TextEncoder_encode s <> []
  end.

(** An optional text of TOKEN_CREATE that the decoder reads: null, the
    empty text or a text with at least one byte. *)
Definition defaultedTextDecodes (s : option string) : Prop :=
  match s with
  | None => True
  | Some s => textRoundTrips s /\ (s = "" \/ TextEncoder_encode s <> [])
  end.

(** The payloads whose values are in the ranges of the wire format. *)
Definition payloadDecodes (p : TxPayload) : Prop :=
  match p with
  | TokenMintPayload tokenAddress recipient amount =>
      canonicalHex 20 tokenAddress /\ canonicalHex 20 recipient /\ 0 <= amount
  | TokenBurnPayload tokenAddress sender amount =>
      canonicalHex 20 tokenAddress /\ canonicalHex 20 sender /\ 0 <= amount
  | TokenCreatePayload name smallestUnitName numberOfDecimals websiteUrl logoUrl
      maxSupply userBurnable =>
      textRoundTrips name /\ textRoundTrips smallestUnitName /\
      safeInteger numberOfDecimals /\
      defaultedTextDecodes websiteUrl /\ defaultedTextDecodes logoUrl /\
      optNonneg maxSupply
  | TokenUpdatePayload tokenAddress name smallestUnitName websiteUrl logoUrl =>
      canonicalHex 20 tokenAddress /\ optTextRoundTrips name /\
      optTextRoundTrips smallestUnitName /\ optTextRoundTrips websiteUrl /\
      optTextRoundTrips logoUrl
  | VotePayload voteType => safeInteger voteType
  | AddressAliasAddPayload address alias =>
      canonicalHex 20 address /\ textRoundTrips alias
  | AddressAliasRemovePayload alias => textRoundTrips alias
  | AuthorityAddPayload authorityAddress => canonicalHex 20 authorityAddress
  | AuthorityRemovePayload authorityAddress => canonicalHex 20 authorityAddress
  | NetworkParamsSetPayload blockReward blockRewardPoolAddress targetMiningTimeMs
      asertHalfLifeBlocks minDifficulty minTxBaseFee minTxByteFee =>
      optNonneg blockReward /\ optCanonicalHex 20 blockRewardPoolAddress /\
      optNonneg targetMiningTimeMs /\ optNonneg asertHalfLifeBlocks /\
      optNonneg minDifficulty /\ optNonneg minTxBaseFee /\ optNonneg minTxByteFee
  | ValidatorAddPayload _ => False
  | ValidatorRemovePayload _ => False
  end.

Definition optPayloadDecodes (p : option TxPayload) : Prop :=
  match p with
  | None => True
  | Some p => payloadDecodes p
  end.

(** The fields whose values are in the ranges of the wire format, the
    message null or bytes as [UnsignedTx] declares it (the builder sets no
    other). *)
Definition fieldsDecode (tx : Tx.fields) : Prop :=
  safeInteger (Tx.timestamp tx) /\
  (exists n, Tx.nonce tx = Some n /\ 0 <= n) /\
  optCanonicalHex 20 (Tx.recipient tx) /\
  optCanonicalHex 20 (Tx.tokenAddress tx) /\
  optNonneg (Tx.amount tx) /\
  0 <= Tx.fee tx /\
  bytesOrNull (Tx.message tx) /\
  optPayloadDecodes (Tx.payload tx) /\
  optCanonicalHex 32 (Tx.referenceHash tx).

(** What [decodePayload] gives for an encoded payload: the payload, with the
    [?? ''] and [?? 0n] of the TOKEN_CREATE arm applied. *)
Definition orDefault {A : Type} (d : A) (o : option A) : A :=
  match o with
  | Some x => x
  | None => d
  end.

Definition decodedPayload (p : TxPayload) : TxPayload :=
  match p with
  | TokenCreatePayload name smallestUnitName numberOfDecimals websiteUrl logoUrl
      maxSupply userBurnable =>
      TokenCreatePayload name smallestUnitName numberOfDecimals
        (Some (orDefault "" websiteUrl)) (Some (orDefault "" logoUrl))
        (Some (orDefault 0 maxSupply)) userBurnable
  | _ => p
  end.

Definition decodedFields (tx : Tx.fields) : Tx.fields :=
  {| Tx.version := Tx.version tx; Tx.timestamp := Tx.timestamp tx;
     Tx.type := Tx.type tx; Tx.network := Tx.network tx; Tx.nonce := Tx.nonce tx;
     Tx.recipient := Tx.recipient tx; Tx.tokenAddress := Tx.tokenAddress tx;
     Tx.amount := Tx.amount tx; Tx.fee := Tx.fee tx; Tx.message := Tx.message tx;
     Tx.payload := option_map decodedPayload (Tx.payload tx);
     Tx.referenceHash := Tx.referenceHash tx; Tx.signature := Tx.signature tx |}.

(** The fields [decodeTx] gives back as they were encoded: in range, and no
    null in a TOKEN_CREATE payload. *)
Definition fieldsRoundTrip (tx : Tx.fields) : Prop :=
  fieldsDecode tx /\
  option_map decodedPayload (Tx.payload tx) = Tx.payload tx.

Lemma decodeBigint_scalar v :
  0 <= v -> decodeBigint (Some (DBytes (encodeScalar v))) = Ok v.
Proof.
  intros Hv. cbn [decodeBigint decodeScalarValue]. rewrite decodeScalar_value.
  destruct (encodeScalar_minimal Hv) as [-> _]. reflexivity.
Qed.

Lemma decodeInt_number n :
  safeInteger n ->
  decodeInt (Some (DBytes (encodeScalar (numberValue n)))) = Ok n.
Proof.
  destruct n as [z|neg]; [|contradiction]. cbn [safeInteger numberValue].
  intros Hz. unfold decodeInt. cbn [decodeBigint decodeScalarValue].
  rewrite decodeScalar_value.
  destruct (@encodeScalar_minimal z ltac:(lia)) as [-> _]. cbn [bind].
  unfold Number_ofBigInt. cbv zeta.
  replace (Z.abs z <=? MAX_SAFE_INTEGER) with true by (symmetry; apply Z.leb_le; lia).
  reflexivity.
Qed.

Lemma decodeInt_scalar v :
  0 <= v <= MAX_SAFE_INTEGER ->
  decodeInt (Some (DBytes (encodeScalar v))) = Ok (Finite v).
Proof.
  intros Hv. unfold decodeInt. rewrite decodeBigint_scalar by lia. cbn [bind].
  unfold Number_ofBigInt. cbv zeta.
  replace (Z.abs v <=? MAX_SAFE_INTEGER) with true by (symmetry; apply Z.leb_le; lia).
  reflexivity.
Qed.

Lemma decodeOptionalBigint_item v :
  optNonneg v -> decodeOptionalBigint (Some (optScalarItem v)) = Ok v.
Proof.
  destruct v as [v|]; intros Hv; [|reflexivity].
  cbn [optScalarItem]. unfold decodeOptionalBigint. cbn [isEmptyList].
  change (decodeScalarValue (DBytes (encodeScalar v)))
    with (decodeBigint (Some (DBytes (encodeScalar v)))).
  rewrite decodeBigint_scalar by exact Hv. reflexivity.
Qed.

Lemma decodeOptionalBytes_item b :
  decodeOptionalBytes (Some (optBytesItem b)) = option_map DBytes b.
Proof. destruct b; reflexivity. Qed.

Lemma decodeOptionalBytes_written v :
  bytesOrNull v -> decodeOptionalBytes (Some (optBytesItem (writtenBytes v))) = v.
Proof. destruct v as [[b|l]|]; intros Hv; [reflexivity|contradiction|reflexivity]. Qed.

Lemma canonicalHex_truthy n s : 0 < n -> canonicalHex n s -> truthy (Some s) = Some s.
Proof.
  intros Hn [Hl _]. destruct s; [|reflexivity].
  vm_compute in Hl. lia.
Qed.

Lemma fixed_item size e s :
  canonicalHex size s -> toFixed size e (inl (hexToBytes s)) = Ok s.
Proof.
  intros [Hl Hs]. unfold toFixed. rewrite Hl, Z.eqb_refl, Hs. reflexivity.
Qed.

Lemma decodeAddress_item a :
  canonicalHex 20 a -> decodeAddress (Some (DBytes (hexToBytes a))) = Ok a.
Proof.
  intros Ha. cbn [decodeAddress]. rewrite (proj1 Ha). cbn [Z.eqb Pos.eqb negb].
  apply fixed_item. exact Ha.
Qed.

Lemma decodeHash_item h :
  canonicalHex 32 h -> decodeHash (Some (DBytes (hexToBytes h))) = Ok h.
Proof.
  intros Hh. cbn [decodeHash]. rewrite (proj1 Hh). cbn [Z.eqb Pos.eqb negb].
  apply fixed_item. exact Hh.
Qed.

Lemma decodeOptionalAddress_item a :
  optCanonicalHex 20 a ->
  decodeOptionalAddress (Some (optBytesItem (option_map hexToBytes a))) = Ok a.
Proof.
  intros Ha. unfold decodeOptionalAddress. rewrite decodeOptionalBytes_item.
  destruct a as [a|]; [|reflexivity]. cbn [option_map valueLength].
  rewrite (proj1 Ha). cbn [Z.eqb]. rewrite decodeAddress_item by exact Ha. reflexivity.
Qed.

Lemma decodeOptionalHash_item h :
  optCanonicalHex 32 h ->
  decodeOptionalHash (Some (optBytesItem (option_map hexToBytes h))) = Ok h.
Proof.
  intros Hh. unfold decodeOptionalHash. rewrite decodeOptionalBytes_item.
  destruct h as [h|]; [|reflexivity]. cbn [option_map valueLength].
  rewrite (proj1 Hh). cbn [Z.eqb]. rewrite decodeHash_item by exact Hh. reflexivity.
Qed.

Lemma len_eqb_nonempty (b : bytes) : b <> [] -> (len b =? 0) = false.
Proof.
  intros Hb. apply Z.eqb_neq. intros E. apply len_nil_iff in E. contradiction.
Qed.

Lemma decodeOptionalString_item s :
  optTextRoundTrips s -> decodeOptionalString (Some (optStringItem s)) = Ok s.
Proof.
  intros Hs. unfold decodeOptionalString, optStringItem.
  rewrite decodeOptionalBytes_item.
  destruct s as [s|]; [|reflexivity]. cbn [option_map valueLength decodeString].
  destruct Hs as [Ht Hne].
  unfold encodeString. rewrite len_eqb_nonempty by exact Hne. cbn [bind].
  rewrite Ht. reflexivity.
Qed.

Lemma decodeOptionalString_defaulted s :
  defaultedTextDecodes s ->
  exists r, decodeOptionalString (Some (optStringItem (orNull s))) = Ok r /\
            match r with Some t => t | None => "" end = orDefault "" s.
Proof.
  destruct s as [s|]; [|intros _; exists None; split; reflexivity]. intros [Ht Hne].
  destruct s as [|c s].
  - exists None. split; reflexivity.
  - destruct Hne as [Hne|Hne]; [discriminate|].
    exists (Some (String c s)). split; [|reflexivity].
    cbn [orNull]. apply decodeOptionalString_item. split; assumption.
Qed.

Lemma decodeString_item s :
  textRoundTrips s -> decodeString (Some (DBytes (encodeString s))) = Ok s.
Proof. intros Hs. cbn [decodeString]. unfold encodeString. rewrite Hs. reflexivity. Qed.

Lemma txPayloadTypeFromCode_code t :
  txPayloadTypeFromCode (payloadTypeCode t) = Ok t.
Proof. destruct t; reflexivity. Qed.

Lemma payloadTypeCode_range t : 0 <= payloadTypeCode t <= MAX_SAFE_INTEGER.
Proof. destruct t; vm_compute; split; discriminate. Qed.

Lemma decodePayload_item payload v :
  optPayloadDecodes payload ->
  decodePayload (Some (payloadItem payload)) v = Ok (option_map decodedPayload payload).
Proof.
  destruct payload as [p|]; [|reflexivity]. intros Hp.
  cbn [payloadItem decodePayload optPayloadDecodes option_map] in *.
  unfold decodePayloadList.
  destruct p; cbn [payloadDecodes] in Hp; try contradiction;
    cbn [payloadItems payloadType payloadFieldItems nth_error decodedPayload];
    rewrite decodeInt_scalar by apply payloadTypeCode_range;
    cbn [bind]; rewrite txPayloadTypeFromCode_code; cbn [bind].
  - destruct Hp as (H1 & H2 & H3).
    rewrite !decodeAddress_item, decodeBigint_scalar by assumption. reflexivity.
  - destruct Hp as (H1 & H2 & H3).
    rewrite !decodeAddress_item, decodeBigint_scalar by assumption. reflexivity.
  - destruct Hp as (H1 & H2 & H3 & H4 & H5 & H6).
    rewrite !decodeString_item, decodeInt_number by assumption. cbn [bind].
    destruct (decodeOptionalString_defaulted _ H4) as (r1 & -> & E1).
    destruct (decodeOptionalString_defaulted _ H5) as (r2 & -> & E2).
    cbn [bind]. rewrite decodeOptionalBigint_item by exact H6. cbn [bind].
    rewrite decodeInt_scalar by (destruct userBurnable; vm_compute; split; discriminate).
    cbn [bind]. rewrite E1, E2. destruct userBurnable; reflexivity.
  - destruct Hp as (H1 & H2 & H3 & H4 & H5).
    rewrite decodeAddress_item, !decodeOptionalString_item by assumption. reflexivity.
  - rewrite decodeInt_number by assumption. reflexivity.
  - destruct Hp as (H1 & H2).
    rewrite decodeString_item, decodeAddress_item by assumption. reflexivity.
  - rewrite decodeString_item by assumption. reflexivity.
  - rewrite decodeAddress_item by assumption. reflexivity.
  - rewrite decodeAddress_item by assumption. reflexivity.
  - destruct Hp as (H1 & H2 & H3 & H4 & H5 & H6 & H7).
    rewrite !decodeOptionalBigint_item, decodeOptionalAddress_item by assumption.
    reflexivity.
Qed.

Lemma txItems_signed tx s :
  Tx.signature tx = Some s -> canonicalHex 65 s ->
  nth_error (txItems tx true) 12 = Some (DBytes (hexToBytes s)).
Proof.
  intros Hs [Hl _]. unfold txItems. rewrite Hs.
  destruct s; [vm_compute in Hl; lia|reflexivity].
Qed.

(** Decoding an encoded transaction: the fields come back as [decodedFields]
    has them, the sender is recovered and the hash taken from these decoded
    fields. *)
Lemma decodeTx_encodeTx tx s data :
  fieldsDecode tx -> Tx.signature tx = Some s -> canonicalHex 65 s ->
  encodeTx tx true = Ok data -> len data < 2 ^ 32 ->
  decodeTx (inl data) =
    (signingHash <- hashForSigning (Tx.withSignature None (decodedFields tx)) ;;
     sender <- recoverAddress signingHash s ;;
     hash <- hashTx (decodedFields tx) ;;
     Ok {| Tx.rlp := decodedFields tx; Tx.sender := sender; Tx.hash := hash;
           Tx.size := len data |}).
Proof.
  intros (Hts & (n & Hn & Hn0) & Hrec & Htok & Ham & Hfee & Hmsg & Hpay & Href)
         Hs Hsig Henc Hlen.
  pose proof (rlpDecode_encodeTx _ _ Hmsg Henc Hlen) as Hdec.
  pose proof (txItems_signed _ Hs Hsig) as H12.
  unfold decodeTx. cbv zeta. cbn [inputBytes].
  rewrite len_eqb_nonempty.
  2:{ intros ->. apply encodeTx_canon in Henc; [|exact Hmsg].
      pose proof (canon_nonempty (DList (txItems tx true))) as Hne.
      rewrite <- Henc in Hne. cbn in Hne. lia. }
  rewrite Hdec. cbn [bind].
  set (items := txItems tx true) in *.
  assert (H0 : nth_error items 0 = Some (DBytes (encodeScalar (versionCode (Tx.version tx)))))
    by reflexivity.
  assert (H1 : nth_error items 1 =
               Some (DBytes (encodeScalar (numberValue (Tx.timestamp tx)))))
    by reflexivity.
  assert (H2 : nth_error items 2 = Some (DBytes (encodeScalar (txTypeCode (Tx.type tx)))))
    by reflexivity.
  assert (H3 : nth_error items 3 = Some (DBytes (encodeScalar (networkCode (Tx.network tx)))))
    by reflexivity.
  assert (H4 : nth_error items 4 = Some (optScalarItem (Tx.nonce tx))) by reflexivity.
  assert (H5 : nth_error items 5 =
               Some (optBytesItem (option_map hexToBytes (Tx.recipient tx))))
    by reflexivity.
  assert (H6 : nth_error items 6 =
               Some (optBytesItem (option_map hexToBytes (Tx.tokenAddress tx))))
    by reflexivity.
  assert (H7 : nth_error items 7 = Some (optScalarItem (Tx.amount tx))) by reflexivity.
  assert (H8 : nth_error items 8 = Some (DBytes (encodeScalar (Tx.fee tx)))) by reflexivity.
  assert (H9 : nth_error items 9 = Some (optBytesItem (writtenBytes (Tx.message tx))))
    by reflexivity.
  assert (H10 : nth_error items 10 = Some (payloadItem (Tx.payload tx))) by reflexivity.
  assert (H11 : nth_error items 11 =
                Some (optBytesItem (option_map hexToBytes (truthy (Tx.referenceHash tx)))))
    by reflexivity.
  assert (Hl : (len items <? 1) = false).
  { apply Z.ltb_ge. unfold items, txItems. rewrite len_app, !len_cons.
    repeat match goal with
           | |- context [len ?x] =>
               lazymatch goal with
               | _ : 0 <= len x |- _ => fail
               | _ => pose proof (len_nonneg x)
               end
           end.
    lia. }
  rewrite Hl.
  assert (Hv : (c <- decodeInt (nth_error items 0) ;; txVersionFromCode c) = Ok V1).
  { rewrite H0. destruct (Tx.version tx). reflexivity. }
  rewrite Hv. cbn [bind].
  unfold decodeTxV1. cbv zeta.
  rewrite Hv, H1, H2, H3, H4, H5, H6, H7, H8, H9, H10, H11, H12. cbn [bind].
  rewrite decodeInt_number by exact Hts. cbn [bind].
  assert (Ht : (c <- decodeInt (Some (DBytes (encodeScalar (txTypeCode (Tx.type tx))))) ;;
                txTypeFromCode c) = Ok (Tx.type tx))
    by (destruct (Tx.type tx); reflexivity).
  assert (Hnw : (c <- decodeInt (Some (DBytes (encodeScalar (networkCode (Tx.network tx))))) ;;
                 networkFromCode c) = Ok (Tx.network tx))
    by (destruct (Tx.network tx); reflexivity).
  rewrite Ht, Hnw. cbn [bind].
  rewrite decodeOptionalBigint_item by (rewrite Hn; exact Hn0). cbn [bind].
  rewrite !decodeOptionalAddress_item by assumption. cbn [bind].
  rewrite decodeOptionalBigint_item by assumption. cbn [bind].
  rewrite decodeBigint_scalar by assumption. cbn [bind].
  rewrite decodeOptionalBytes_written by exact Hmsg.
  rewrite decodePayload_item by assumption. cbn [bind].
  assert (Hr : truthy (Tx.referenceHash tx) = Tx.referenceHash tx).
  { destruct (Tx.referenceHash tx) as [[|c h]|]; try reflexivity.
    destruct Href as [Hl' _]. vm_compute in Hl'. lia. }
  rewrite Hr, decodeOptionalHash_item by assumption. cbn [bind].
  rewrite (proj1 Hsig). cbn [Z.eqb Pos.eqb negb].
  unfold toSignature. rewrite fixed_item by exact Hsig. cbn [bind].
  unfold decodedFields.
  destruct tx. cbn [Tx.version Tx.timestamp Tx.type Tx.network Tx.nonce Tx.recipient
                    Tx.tokenAddress Tx.amount Tx.fee Tx.message Tx.payload
                    Tx.referenceHash Tx.signature Tx.withSignature] in *.
  subst. match goal with v : TxVersion |- _ => destruct v end. reflexivity.
Qed.

End RoundTripConditions.

Lemma hexPairs_byteHex (x : byte) (s : string) :
  hexPairs (byteHex x ++ s) = x :: hexPairs s.
Proof.
  assert (E : exists c1 c2, byteHex x = String c1 (String c2 "") /\
                            storeParsed (parseInt16 (String c1 (String c2 ""))) = x).
  { exists (hexDigit (byteZ x / 16)), (hexDigit (byteZ x mod 16)).
    destruct x; vm_compute; split; reflexivity. }
  destruct E as (c1 & c2 & -> & E). cbn [String.append hexPairs]. rewrite E. reflexivity.
Qed.

(** [hexToBytes] reads back what [bytesToHex] wrote. *)
Lemma hexToBytes_bytesToHex (b : bytes) : hexToBytes (bytesToHex b) = b.
Proof.
  unfold hexToBytes, bytesToHex. cbn [String.append stripHexPrefix].
  induction b as [|x b IH]; [reflexivity|].
  cbn [map]. rewrite concat_empty_cons, hexPairs_byteHex, IH. reflexivity.
Qed.

Lemma canonicalHex_bytesToHex (b : bytes) : canonicalHex (len b) (bytesToHex b).
Proof. unfold canonicalHex. rewrite hexToBytes_bytesToHex. split; reflexivity. Qed.

Lemma toFixed_bytes_canonical size e b s :
  toFixed size e (inl b) = Ok s -> canonicalHex size s.
Proof.
  unfold toFixed. destruct (len b =? size) eqn:E; [|discriminate].
  intros E'. injection E' as <-. apply Z.eqb_eq in E. subst size.
  apply canonicalHex_bytesToHex.
Qed.

Section BuilderRoundTrip.
Context `{Platform}.

Lemma PrivateKey_sign_canonical key h s :
  PrivateKey.sign key h = Ok s -> canonicalHex 65 s.
Proof.
  unfold PrivateKey.sign. cbv zeta. intros E.
  apply bind_Ok_inv in E. destruct E as (b1 & _ & E).
  apply bind_Ok_inv in E. destruct E as (b2 & _ & E).
  apply bind_Ok_inv in E. destruct E as (b3 & _ & E).
  unfold toSignature in E. apply toFixed_bytes_canonical in E. exact E.
Qed.

(** What [sign] returns: the signed fields, the hash and the size of their
    encoding, and a signature of 65 bytes. *)
Lemma sign_inv b key t :
  TxBuilder.sign b key = Ok t ->
  exists s data,
    Tx.signature (Tx.rlp t) = Some s /\ canonicalHex 65 s /\
    encodeTx (Tx.rlp t) true = Ok data /\
    hashTx (Tx.rlp t) = Ok (Tx.hash t) /\
    Tx.size t = len data.
Proof.
  unfold TxBuilder.sign. intros E.
  apply bind_Ok_inv in E. destruct E as (unsignedTx & _ & E).
  apply bind_Ok_inv in E. destruct E as (h & _ & E).
  apply bind_Ok_inv in E. destruct E as (s & Hs & E).
  apply bind_Ok_inv in E. destruct E as (sender & _ & E).
  apply bind_Ok_inv in E. destruct E as (hash & Hhash & E).
  apply bind_Ok_inv in E. destruct E as (size & Hsize & E).
  injection E as <-. cbn [Tx.rlp Tx.hash Tx.size].
  unfold sizeTx in Hsize. apply bind_Ok_inv in Hsize.
  destruct Hsize as (data & Hdata & Hsize). injection Hsize as <-.
  apply PrivateKey_sign_canonical in Hs.
  exists s, data. split; [reflexivity|]. split; [exact Hs|].
  split; [exact Hdata|]. split; [exact Hhash|reflexivity].
Qed.

End BuilderRoundTrip.

Section RoundTrip.
Context `{Platform}.

(** What the rlp package reads in an encoded transaction whose message is
    bytes or null, as [UnsignedTx] declares it: the items of [txItems], the
    nonce item a one-element list or the empty list, the fee a byte string,
    the payload item the empty list or a list of one list. *)
Theorem encodeTx_decodes_to_its_items (tx : Tx.fields) (includeSignature : bool)
    (data : bytes) :
  bytesOrNull (Tx.message tx) ->
  encodeTx tx includeSignature = Ok data -> len data < 2 ^ 32 ->
  rlpDecode data = Ok (DList (txItems tx includeSignature)) /\
  nth_error (txItems tx includeSignature) 4 =
    Some (match Tx.nonce tx with
          | Some n => DList [DBytes (encodeScalar n)]
          | None => DList []
          end) /\
  nth_error (txItems tx includeSignature) 8 = Some (DBytes (encodeScalar (Tx.fee tx))) /\
  nth_error (txItems tx includeSignature) 10 =
    Some (match Tx.payload tx with
          | Some p => DList [DList (payloadItems p)]
          | None => DList []
          end).
Proof.
  intros Hm E Hlen. split; [exact (rlpDecode_encodeTx _ _ Hm E Hlen)|].
  repeat split.
Qed.

(** A transaction signed by the builder, encoded and decoded, is the
    transaction that was signed, in every field and in sender, hash and size:
    for fields in the ranges of the wire format ([fieldsRoundTrip]), an
    encoding shorter than 2^32 bytes, and a signature from which the
    signer's address is recovered. *)
Theorem sign_encode_decode_round_trip (b : TxBuilder.t) (key : PrivateKey.t)
    (t : Tx.t) (data : bytes) (signingHash : Hash) (s : Signature) :
  TxBuilder.sign b key = Ok t ->
  fieldsRoundTrip (Tx.rlp t) ->
  encodeTx (Tx.rlp t) true = Ok data -> len data < 2 ^ 32 ->
  hashForSigning (Tx.withSignature None (Tx.rlp t)) = Ok signingHash ->
  Tx.signature (Tx.rlp t) = Some s ->
  recoverAddress signingHash s = Ok (Tx.sender t) ->
  decodeTx (inl data) = Ok t.
Proof.
  intros Hsign [Hf Hp] Henc Hlen Hh Hs Hrec.
  destruct (sign_inv _ _ Hsign) as (s' & data' & Hs' & Hc & Henc' & Hhash & Hsize).
  assert (s' = s) by congruence. subst s'.
  assert (data' = data) by congruence. subst data'.
  assert (Hd : decodedFields (Tx.rlp t) = Tx.rlp t).
  { unfold decodedFields. rewrite Hp. destruct (Tx.rlp t). reflexivity. }
  rewrite (decodeTx_encodeTx Hf Hs Hc Henc Hlen), Hd, Hh. cbn [bind].
  rewrite Hrec. cbn [bind]. rewrite Hhash. cbn [bind].
  destruct t. cbn [Tx.size] in Hsize. subst. reflexivity.
Qed.

End RoundTrip.

Definition sampleVoteBytes : bytes :=
  Eval vm_compute in
    match @encodeTx stubPlatform sampleVote true with
    | Ok data => data
    | Err _ => []
    end.

Lemma encodeTx_decodes_to_its_items_witness :
  rlpDecode sampleVoteBytes = Ok (DList (@txItems stubPlatform sampleVote true)) /\
  nth_error (@txItems stubPlatform sampleVote true) 4 = Some (DList [DBytes []]) /\
  nth_error (@txItems stubPlatform sampleVote true) 10 =
    Some (DList [DList [DBytes [x09]; DBytes [x01]]]).
Proof.
  assert (E : @encodeTx stubPlatform sampleVote true = Ok sampleVoteBytes)
    by (vm_compute; reflexivity).
  assert (L : len sampleVoteBytes < 2 ^ 32) by (vm_compute; reflexivity).
  destruct (@encodeTx_decodes_to_its_items stubPlatform sampleVote true sampleVoteBytes
              I E L) as (D & N & _ & P).
  split; [exact D|]. split; [exact N|exact P].
Defined.

(** The [bip_token_create] scenario, every field of the payload set. *)
Definition tokenCreateFullBuilder : TxBuilder.t :=
  TxBuilder.payload
    (createTokenCreatePayload "TestToken" "TT" 9 (Some "https://test.token")
       (Some "https://test.token/logo.png") (Some 1000000000000000000) (Some true))
    (TxBuilder.fee 100000000
       (TxBuilder.nonce 12
          (TxBuilder.network MAINNET
             (TxBuilder.type BIP_CREATE (TxBuilder.create 1702200000004))))).

Definition tokenCreateFullSigned : Tx.t :=
  Eval vm_compute in
    match @TxBuilder.sign stubPlatform tokenCreateFullBuilder samplePrivateKey with
    | Ok t => t
    | Err _ =>
        {| Tx.rlp := sampleTransfer; Tx.sender := ""; Tx.hash := ""; Tx.size := 0 |}
    end.

Definition tokenCreateFullBytes : bytes :=
  Eval vm_compute in
    match @encodeTx stubPlatform (Tx.rlp tokenCreateFullSigned) true with
    | Ok data => data
    | Err _ => []
    end.

Lemma sign_encode_decode_round_trip_witness :
  @TxBuilder.sign stubPlatform tokenCreateFullBuilder samplePrivateKey
    = Ok tokenCreateFullSigned /\
  @encodeTx stubPlatform (Tx.rlp tokenCreateFullSigned) true = Ok tokenCreateFullBytes /\
  @decodeTx stubPlatform (inl tokenCreateFullBytes) = Ok tokenCreateFullSigned.
Proof.
  assert (S : @TxBuilder.sign stubPlatform tokenCreateFullBuilder samplePrivateKey
              = Ok tokenCreateFullSigned) by (vm_compute; reflexivity).
  assert (E : @encodeTx stubPlatform (Tx.rlp tokenCreateFullSigned) true
              = Ok tokenCreateFullBytes) by (vm_compute; reflexivity).
  split; [exact S|]. split; [exact E|].
  assert (F : @fieldsRoundTrip stubPlatform (Tx.rlp tokenCreateFullSigned)).
  { split; [|reflexivity].
    split; [vm_compute; split; discriminate|].
    split; [exists 12; split; [reflexivity|lia]|].
    split; [exact I|]. split; [exact I|]. split; [exact I|].
    split; [vm_compute; discriminate|].
    split; [exact I|].
    split; [|exact I].
    split; [reflexivity|]. split; [reflexivity|].
    split; [vm_compute; split; discriminate|].
    split; [split; [reflexivity|right; discriminate]|].
    split; [split; [reflexivity|right; discriminate]|].
    cbn [optNonneg]. lia. }
  refine (@sign_encode_decode_round_trip stubPlatform tokenCreateFullBuilder
            samplePrivateKey tokenCreateFullSigned tokenCreateFullBytes
            (match @hashForSigning stubPlatform
                     (Tx.withSignature None (Tx.rlp tokenCreateFullSigned)) with
             | Ok h => h
             | Err _ => ""
             end)
            (match Tx.signature (Tx.rlp tokenCreateFullSigned) with
             | Some s => s
             | None => ""
             end) S F E _ _ _ _).
  - vm_compute. reflexivity.
  - vm_compute. reflexivity.
  - reflexivity.
  - vm_compute. reflexivity.
Defined.

(* ================================================================== *)
(** ** Round trip of a TOKEN_CREATE payload with null fields *)

Section TokenCreateRoundTrip.
Context `{Platform}.

(** C1, at the transactions it names.  A transaction signed by the builder
    with a TOKEN_CREATE payload that holds null for [websiteUrl], [logoUrl]
    or [maxSupply] does not come back from [decodeTx (encodeTx t true)]: the
    decoded payload holds the empty text and 0 in their place, so the decoded
    transaction is not the signed one; its hash is the hash of the encoding
    of the decoded fields, and when [maxSupply] was null that encoding is not
    the bytes that were decoded. *)
Theorem tokenCreate_null_fields_do_not_round_trip (b : TxBuilder.t)
    (key : PrivateKey.t) (t t' : Tx.t) (encoded : bytes)
    name smallestUnitName numberOfDecimals websiteUrl logoUrl maxSupply
    userBurnable :
  TxBuilder.sign b key = Ok t ->
  Tx.payload (Tx.rlp t) =
    Some (TokenCreatePayload name smallestUnitName numberOfDecimals
            websiteUrl logoUrl maxSupply userBurnable) ->
  websiteUrl = None \/ logoUrl = None \/ maxSupply = None ->
  fieldsDecode (Tx.rlp t) ->
  encodeTx (Tx.rlp t) true = Ok encoded -> len encoded < 2 ^ 32 ->
  decodeTx (inl encoded) = Ok t' ->
  Tx.payload (Tx.rlp t') =
    Some (TokenCreatePayload name smallestUnitName numberOfDecimals
            (Some (orDefault "" websiteUrl)) (Some (orDefault "" logoUrl))
            (Some (orDefault 0 maxSupply)) userBurnable) /\
  Tx.payload (Tx.rlp t') <> Tx.payload (Tx.rlp t) /\
  t' <> t /\
  exists encoded',
    encodeTx (Tx.rlp t') true = Ok encoded' /\
    hash (inl encoded') = Ok (Tx.hash t') /\
    (maxSupply = None -> encoded' <> encoded).
Proof.
  intros Hsign Hp Hnull Hf Henc Hlen Hdec.
  destruct (sign_inv _ _ Hsign) as (s & data & Hs & Hc & _).
  rewrite (decodeTx_encodeTx Hf Hs Hc Henc Hlen) in Hdec.
  apply bind_Ok_inv in Hdec. destruct Hdec as (h & _ & Hdec).
  apply bind_Ok_inv in Hdec. destruct Hdec as (sender & _ & Hdec).
  apply bind_Ok_inv in Hdec. destruct Hdec as (hash' & Hhash & Hdec).
  injection Hdec as <-. cbn [Tx.rlp Tx.hash].
  assert (P : Tx.payload (decodedFields (Tx.rlp t)) =
              Some (TokenCreatePayload name smallestUnitName numberOfDecimals
                      (Some (orDefault "" websiteUrl)) (Some (orDefault "" logoUrl))
                      (Some (orDefault 0 maxSupply)) userBurnable))
    by (unfold decodedFields; cbn [Tx.payload]; rewrite Hp; reflexivity).
  assert (N : Tx.payload (decodedFields (Tx.rlp t)) <> Tx.payload (Tx.rlp t)).
  { rewrite P, Hp. intros C. injection C as C1 C2 C3.
    destruct Hnull as [ -> | [ -> | -> ] ]; discriminate. }
  split; [exact P|]. split; [exact N|]. split.
  { intros C. apply (f_equal Tx.rlp) in C. cbn [Tx.rlp] in C.
    apply N. rewrite C. reflexivity. }
  unfold hashTx in Hhash. apply bind_Ok_inv in Hhash.
  destruct Hhash as (encoded' & Henc' & Hhash).
  exists encoded'. split; [exact Henc'|]. split; [exact Hhash|].
  intros -> ->.
  assert (Hm : bytesOrNull (Tx.message (Tx.rlp t))) by apply Hf.
  pose proof (rlpDecode_encodeTx _ _ Hm Henc Hlen) as D1.
  pose proof (rlpDecode_encodeTx (decodedFields (Tx.rlp t)) _ Hm Henc' Hlen) as D2.
  assert (D3 : DList (txItems (Tx.rlp t) true) =
               DList (txItems (decodedFields (Tx.rlp t)) true)) by congruence.
  apply (f_equal (fun d => match d with
                           | DList l => nth_error l 10
                           | DBytes _ => None
                           end)) in D3.
  change (Some (payloadItem (Tx.payload (Tx.rlp t))) =
          Some (payloadItem (Tx.payload (decodedFields (Tx.rlp t))))) in D3.
  rewrite P, Hp in D3.
  apply (f_equal (fun o => match o with
                           | Some (DList [DList l]) => nth_error l 6
                           | _ => None
                           end)) in D3.
  cbn [payloadItem payloadItems payloadType payloadFieldItems nth_error
       optScalarItem orDefault] in D3.
  discriminate D3.
Qed.

End TokenCreateRoundTrip.

Definition tokenCreateSigned : Tx.t :=
  Eval vm_compute in
    match @TxBuilder.sign stubPlatform tokenCreateBuilder samplePrivateKey with
    | Ok t => t
    | Err _ =>
        {| Tx.rlp := sampleTransfer; Tx.sender := ""; Tx.hash := ""; Tx.size := 0 |}
    end.

Definition tokenCreateDecoded : Tx.t :=
  Eval vm_compute in
    match @decodeTx stubPlatform (inl tokenCreateBytes) with
    | Ok t => t
    | Err _ =>
        {| Tx.rlp := sampleTransfer; Tx.sender := ""; Tx.hash := ""; Tx.size := 0 |}
    end.

Definition tokenCreateBytesAgain : bytes :=
  Eval vm_compute in
    match @encodeTx stubPlatform (Tx.rlp tokenCreateDecoded) true with
    | Ok data => data
    | Err _ => []
    end.

Lemma tokenCreate_null_fields_do_not_round_trip_witness :
  @TxBuilder.sign stubPlatform tokenCreateBuilder samplePrivateKey
    = Ok tokenCreateSigned /\
  @encodeTx stubPlatform (Tx.rlp tokenCreateSigned) true = Ok tokenCreateBytes /\
  @decodeTx stubPlatform (inl tokenCreateBytes) = Ok tokenCreateDecoded /\
  Tx.payload (Tx.rlp tokenCreateSigned) =
    Some (TokenCreatePayload "TestToken" "TT" 9 None None None true) /\
  Tx.payload (Tx.rlp tokenCreateDecoded) =
    Some (TokenCreatePayload "TestToken" "TT" 9 (Some "") (Some "") (Some 0) true) /\
  tokenCreateDecoded <> tokenCreateSigned /\
  @encodeTx stubPlatform (Tx.rlp tokenCreateDecoded) true = Ok tokenCreateBytesAgain /\
  tokenCreateBytesAgain <> tokenCreateBytes /\
  len tokenCreateBytesAgain = len tokenCreateBytes + 1.
Proof.
  assert (S : @TxBuilder.sign stubPlatform tokenCreateBuilder samplePrivateKey
              = Ok tokenCreateSigned) by (vm_compute; reflexivity).
  assert (E : @encodeTx stubPlatform (Tx.rlp tokenCreateSigned) true
              = Ok tokenCreateBytes) by (vm_compute; reflexivity).
  assert (D : @decodeTx stubPlatform (inl tokenCreateBytes) = Ok tokenCreateDecoded)
    by (vm_compute; reflexivity).
  assert (P : Tx.payload (Tx.rlp tokenCreateSigned) =
              Some (TokenCreatePayload "TestToken" "TT" 9 None None None true))
    by reflexivity.
  assert (F : @fieldsDecode stubPlatform (Tx.rlp tokenCreateSigned)).
  { split; [vm_compute; split; discriminate|].
    split; [exists 12; split; [reflexivity|lia]|].
    split; [exact I|]. split; [exact I|]. split; [exact I|].
    split; [vm_compute; discriminate|].
    split; [exact I|].
    split; [|exact I].
    split; [reflexivity|]. split; [reflexivity|].
    split; [vm_compute; split; discriminate|].
    split; [exact I|]. split; [exact I|]. exact I. }
  assert (L : len tokenCreateBytes < 2 ^ 32) by (vm_compute; reflexivity).
  destruct (@tokenCreate_null_fields_do_not_round_trip stubPlatform
              tokenCreateBuilder samplePrivateKey tokenCreateSigned tokenCreateDecoded
              tokenCreateBytes "TestToken" "TT" 9 None None None true
              S P (or_introl eq_refl) F E L D)
    as (P' & _ & N & encoded' & E' & _ & Hne).
  assert (A : @encodeTx stubPlatform (Tx.rlp tokenCreateDecoded) true
              = Ok tokenCreateBytesAgain) by (vm_compute; reflexivity).
  assert (encoded' = tokenCreateBytesAgain) by congruence. subst encoded'.
  split; [exact S|]. split; [exact E|]. split; [exact D|]. split; [exact P|].
  split; [exact P'|]. split; [exact N|]. split; [exact A|].
  split; [exact (Hne eq_refl)|]. vm_compute. reflexivity.
Defined.

(* ================================================================== *)
(** ** Size, hash and the optional parts *)

Lemma app_same_length_head {A} (l1 : list A) : forall l2 x y,
  List.length l1 = List.length l2 -> l1 ++ x = l2 ++ y -> l1 = l2.
Proof.
  induction l1 as [|a l1 IH]; intros [|b l2] x y Hl E; cbn in Hl; try discriminate.
  - reflexivity.
  - cbn [app] in E. injection E as -> E. injection Hl as Hl. f_equal.
    eapply IH; [exact Hl|exact E].
Qed.

(** The header of a list tells the length of its payload. *)
Lemma encodeListHeader_length_inj n m (x y : bytes) :
  0 <= n < 2 ^ 32 -> 0 <= m < 2 ^ 32 ->
  RLPWriter.encodeListHeader n ++ x = RLPWriter.encodeListHeader m ++ y -> n = m.
Proof.
  intros Hn Hm. unfold RLPWriter.encodeListHeader. cbv zeta.
  destruct (n <=? 55) eqn:En; destruct (m <=? 55) eqn:Em;
    try apply Z.leb_le in En; try apply Z.leb_gt in En;
    try apply Z.leb_le in Em; try apply Z.leb_gt in Em.
  - intros E. apply (f_equal (fun l => byteZ (hd x00 l))) in E. cbn [app hd] in E.
    rewrite !toUint8_small in E by lia. lia.
  - destruct (@decodeLength_encodeLengthBytes m ltac:(lia)) as [_ Lm].
    intros E. apply (f_equal (fun l => byteZ (hd x00 l))) in E. cbn [app hd] in E.
    rewrite !toUint8_small in E by lia. lia.
  - destruct (@decodeLength_encodeLengthBytes n ltac:(lia)) as [_ Ln].
    intros E. apply (f_equal (fun l => byteZ (hd x00 l))) in E. cbn [app hd] in E.
    rewrite !toUint8_small in E by lia. lia.
  - destruct (@decodeLength_encodeLengthBytes n ltac:(lia)) as [Dn Ln].
    destruct (@decodeLength_encodeLengthBytes m ltac:(lia)) as [Dm Lm].
    intros E.
    pose proof (f_equal (fun l => byteZ (hd x00 l)) E) as E1. cbn [app hd] in E1.
    pose proof (f_equal (@tl byte) E) as E2. cbn [app tl] in E2.
    rewrite !toUint8_small in E1 by lia.
    assert (Q : RLPWriter.encodeLengthBytes n = RLPWriter.encodeLengthBytes m).
    { eapply app_same_length_head; [|exact E2]. unfold len in E1. lia. }
    rewrite Q, Dm in Dn. injection Dn as ->. reflexivity.
Qed.

Section MoreEncoderFacts.
Context `{Platform}.

(** The size and the hash of a transaction the builder signed are those of
    its encoding with signature: the length of the bytes, and [hash] of
    them. *)
Theorem sign_size_and_hash (b : TxBuilder.t) (key : PrivateKey.t) (t : Tx.t) :
  TxBuilder.sign b key = Ok t ->
  exists data,
    encodeTx (Tx.rlp t) true = Ok data /\
    Tx.size t = len data /\ sizeTx (Tx.rlp t) = Ok (Tx.size t) /\
    hash (inl data) = Ok (Tx.hash t) /\ hashTx (Tx.rlp t) = Ok (Tx.hash t).
Proof.
  intros E.
  destruct (sign_inv _ _ E) as (s & data & _ & _ & Hdata & Hh & Hsize).
  exists data. split; [exact Hdata|]. split; [exact Hsize|]. split.
  - unfold sizeTx. rewrite Hdata, Hsize. reflexivity.
  - split; [|exact Hh]. unfold hashTx in Hh. rewrite Hdata in Hh. exact Hh.
Qed.

(** The bytes that are hashed for the transaction hash are not the bytes
    that are hashed for signing, when the signature is not empty. *)
Theorem encodeTx_with_signature_differs (tx : Tx.fields) (s : Signature)
    (signed unsigned : bytes) :
  Tx.signature tx = Some s -> s <> "" ->
  encodeTx tx true = Ok signed -> encodeTx tx false = Ok unsigned ->
  len signed < 2 ^ 32 ->
  signed <> unsigned.
Proof.
  intros Hs Hne E1 E2 Hlen C. subst unsigned.
  destruct (encodeTx_parts_exist _ _ E1) as (p1 & P1).
  destruct (encodeTx_parts_exist _ _ E2) as (p2 & P2).
  rewrite (encodeTx_of_parts _ _ P1) in E1. rewrite (encodeTx_of_parts _ _ P2) in E2.
  destruct (encodeTx_parts_elements _ _ P1) as (pb1 & Hpb1 & Q1).
  destruct (encodeTx_parts_elements _ _ P2) as (pb2 & Hpb2 & Q2).
  assert (pb2 = pb1) by congruence. subst pb2.
  assert (Ht : truthy (Some s) = Some s) by (destruct s; [congruence|reflexivity]).
  assert (Hsplit : List.concat p1 =
                   List.concat p2 ++ RLPWriter.encodeString (hexToBytes s)).
  { subst p1 p2. unfold txElements, signatureEls. rewrite Hs, Ht.
    rewrite !map_app, !concat_app. cbn [map List.concat RLPWriter.encodePart].
    rewrite !app_nil_r. reflexivity. }
  injection E1 as E1. injection E2 as E2.
  pose proof (len_encodeString_pos (hexToBytes s)) as Hpos.
  assert (Hl : len (List.concat p1) =
               len (List.concat p2) + len (RLPWriter.encodeString (hexToBytes s)))
    by (rewrite Hsplit, len_app; reflexivity).
  pose proof (len_nonneg (List.concat p2)) as H2.
  pose proof (len_encodeListHeader_pos (len (List.concat p1))) as Hh.
  assert (Hb : len (List.concat p1) < 2 ^ 32)
    by (rewrite <- E1, len_app in Hlen; lia).
  assert (N : len (List.concat p1) = len (List.concat p2)).
  { apply (@encodeListHeader_length_inj _ _ (List.concat p1) (List.concat p2));
      [lia|lia|congruence]. }
  lia.
Qed.

(** A fixed-length field is read from exactly that many bytes, as their
    lower-case hex form. *)
Theorem fixed_length_fields (b : bytes) (a : string) :
  (decodeAddress (Some (DBytes b)) = Ok a <-> len b = 20 /\ a = bytesToHex b) /\
  (decodeHash (Some (DBytes b)) = Ok a <-> len b = 32 /\ a = bytesToHex b).
Proof.
  unfold decodeAddress, decodeHash, toAddress, toHash, toFixed.
  change ADDRESS_SIZE with 20. change HASH_SIZE with 32.
  split.
  - destruct (len b =? 20) eqn:E; cbn [negb].
    + apply Z.eqb_eq in E. split.
      * intros Ha. injection Ha as <-. split; [exact E|reflexivity].
      * intros [_ ->]. reflexivity.
    + apply Z.eqb_neq in E. split; [discriminate|]. intros [C _]. contradiction.
  - destruct (len b =? 32) eqn:E; cbn [negb].
    + apply Z.eqb_eq in E. split.
      * intros Ha. injection Ha as <-. split; [exact E|reflexivity].
      * intros [_ ->]. reflexivity.
    + apply Z.eqb_neq in E. split; [discriminate|]. intros [C _]. contradiction.
Qed.

(** Every optional field of the outer list that is null is written as the
    single byte 0xc0. *)
Theorem absent_optionals_are_empty_lists (tx : Tx.fields) (includeSignature : bool)
    (parts : list bytes) :
  encodeTx_parts tx includeSignature = Ok parts ->
  (Tx.nonce tx = None -> nth_error parts 4 = Some [xc0]) /\
  (Tx.recipient tx = None -> nth_error parts 5 = Some [xc0]) /\
  (Tx.tokenAddress tx = None -> nth_error parts 6 = Some [xc0]) /\
  (Tx.amount tx = None -> nth_error parts 7 = Some [xc0]) /\
  (Tx.message tx = None -> nth_error parts 9 = Some [xc0]) /\
  (Tx.payload tx = None -> nth_error parts 10 = Some [xc0]) /\
  (Tx.referenceHash tx = None -> nth_error parts 11 = Some [xc0]).
Proof.
  intros Hparts.
  destruct (encodeTx_parts_elements _ _ Hparts) as (pb & Hpb & ->).
  unfold txElements. cbn [map app nth_error].
  repeat split; intros E; rewrite E in *; try reflexivity.
  cbn in Hpb. injection Hpb as <-. reflexivity.
Qed.

End MoreEncoderFacts.

Lemma sign_size_and_hash_witness :
  Tx.size tokenCreateFullSigned = len tokenCreateFullBytes /\
  @hashTx stubPlatform (Tx.rlp tokenCreateFullSigned) = Ok (Tx.hash tokenCreateFullSigned).
Proof.
  assert (S : @TxBuilder.sign stubPlatform tokenCreateFullBuilder samplePrivateKey
              = Ok tokenCreateFullSigned) by (vm_compute; reflexivity).
  destruct (@sign_size_and_hash stubPlatform _ _ _ S) as (data & E & Hs & _ & _ & Hh).
  assert (E' : @encodeTx stubPlatform (Tx.rlp tokenCreateFullSigned) true
               = Ok tokenCreateFullBytes) by (vm_compute; reflexivity).
  assert (data = tokenCreateFullBytes) by congruence. subst data.
  split; [exact Hs|exact Hh].
Defined.

Definition sampleVoteUnsignedBytes : bytes :=
  Eval vm_compute in
    match @encodeTx stubPlatform sampleVote false with
    | Ok data => data
    | Err _ => []
    end.

Lemma encodeTx_with_signature_differs_witness :
  sampleVoteBytes <> sampleVoteUnsignedBytes.
Proof.
  refine (@encodeTx_with_signature_differs stubPlatform sampleVote sampleSignature
            sampleVoteBytes sampleVoteUnsignedBytes eq_refl _ _ _ _).
  - discriminate.
  - vm_compute. reflexivity.
  - vm_compute. reflexivity.
  - vm_compute. reflexivity.
Defined.

Lemma absent_optionals_are_empty_lists_witness :
  nth_error sampleVoteParts 5 = Some [xc0] /\
  nth_error sampleVoteParts 6 = Some [xc0] /\
  nth_error sampleVoteParts 7 = Some [xc0] /\
  nth_error sampleVoteParts 9 = Some [xc0].
Proof.
  assert (V : @encodeTx_parts stubPlatform sampleVote true = Ok sampleVoteParts)
    by (vm_compute; reflexivity).
  destruct (@absent_optionals_are_empty_lists stubPlatform _ _ _ V)
    as (_ & R & T & A & M & _).
  split; [exact (R eq_refl)|]. split; [exact (T eq_refl)|].
  split; [exact (A eq_refl)|exact (M eq_refl)].
Defined.

(* ================================================================== *)
(** ** The signature [PrivateKey.sign] builds *)

Lemma hexPairs_length_le n : forall s,
  (String.length s <= n)%nat -> Nat.even (String.length s) = true ->
  (2 * List.length (hexPairs s) = String.length s)%nat.
Proof.
  induction n as [|n IH]; intros [|a [|b r]] Hlen Hev;
    cbn [String.length Nat.even hexPairs List.length] in *;
    try reflexivity; try discriminate; try lia.
  specialize (IH r ltac:(lia) Hev). lia.
Qed.

Lemma hexPairs_length s :
  Nat.even (String.length s) = true ->
  (2 * List.length (hexPairs s) = String.length s)%nat.
Proof. apply hexPairs_length_le with (n := String.length s). lia. Qed.

Lemma hexPairs_zeros k rest :
  hexPairs (strRepeat "0" (2 * k) ++ rest) = repeat x00 k ++ hexPairs rest.
Proof.
  induction k as [|k IH]; [reflexivity|].
  replace (2 * S k)%nat with (S (S (2 * k))) by lia.
  cbn [strRepeat String.append repeat app]. cbn [hexPairs].
  rewrite IH. reflexivity.
Qed.

Lemma beValue_zeros k bs : beValue (repeat x00 k ++ bs) = beValue bs.
Proof.
  unfold beValue. induction k as [|k IH]; [reflexivity|].
  cbn [repeat app fold_left]. exact IH.
Qed.

Lemma strRepeat_shift c m s :
  (String c (strRepeat c m) ++ s = strRepeat c m ++ String c s)%string.
Proof.
  induction m as [|m IH]; [reflexivity|].
  cbn [strRepeat String.append] in *. rewrite IH. reflexivity.
Qed.

Lemma length_strRepeat c n : String.length (strRepeat c n) = n.
Proof. induction n; cbn [strRepeat String.length]; congruence. Qed.

Lemma padStart_padEven s :
  (String.length s <= 64)%nat ->
  padStart 64 "0" s = (strRepeat "0" (64 - String.length (padEven s)) ++ padEven s)%string.
Proof.
  intros Hlen. unfold padStart, padEven.
  destruct (Nat.even (String.length s)) eqn:E; [reflexivity|].
  cbn [String.length].
  assert (Hodd : (String.length s <= 63)%nat).
  { destruct (Nat.eq_dec (String.length s) 64) as [E64|]; [|lia].
    rewrite E64 in E. discriminate E. }
  replace (64 - String.length s)%nat with (S (64 - S (String.length s))) by lia.
  cbn [strRepeat]. apply strRepeat_shift.
Qed.

(** The 32 bytes [sign] stores for [r] and for [s]: the big-endian value,
    on exactly 32 bytes. *)
Lemma padded_scalar_bytes v :
  0 < v < 2 ^ 256 ->
  let b := hexToBytes ("0x" ++ padStart 64 "0" (toString16 v))%string in
  len b = 32 /\ beValue b = v.
Proof.
  intros Hv b.
  assert (Hs : encodeScalar v = hexPairs (padEven (toString16 v))).
  { unfold encodeScalar, padEven.
    replace (v =? 0) with false by (symmetry; apply Z.eqb_neq; lia).
    cbv zeta. destruct (Nat.even (String.length (toString16 v))); reflexivity. }
  destruct (@encodeScalar_minimal v ltac:(lia))
    as [Hval [[C _]|(_ & x & rest & E & Hnz)]]; [lia|].
  assert (Hshort : len (encodeScalar v) <= 32).
  { rewrite E in *. rewrite len_cons.
    destruct (Z.le_gt_cases (len rest) 31) as [|Hbig]; [lia|]. exfalso.
    assert (Hb : 1 <= byteZ x).
    { pose proof (byteZ_range x). destruct (Z.eq_dec (byteZ x) 0) as [Z0|]; [|lia].
      exfalso. apply Hnz. rewrite <- (toUint8_byteZ x), Z0. reflexivity. }
    unfold beValue in Hval. cbn [fold_left] in Hval.
    pose proof (@fold_be_lower rest (256 * 0 + byteZ x) ltac:(lia)) as Hl.
    assert (256 ^ 32 <= 256 ^ len rest) by (apply Z.pow_le_mono_r; lia).
    change (256 ^ 32) with (2 ^ 256) in *. nia. }
  pose proof (@hexPairs_length _ (padEven_even (toString16 v))) as Hlen2.
  rewrite <- Hs in Hlen2.
  assert (Hn : (List.length (encodeScalar v) <= 32)%nat) by (unfold len in Hshort; lia).
  assert (Hlen64 : (String.length (toString16 v) <= 64)%nat).
  { unfold padEven in Hlen2.
    destruct (Nat.even (String.length (toString16 v)));
      cbn [String.length] in Hlen2; lia. }
  assert (Eb : b = repeat x00 (32 - List.length (encodeScalar v)) ++ encodeScalar v).
  { unfold b, hexToBytes. cbn [String.append stripHexPrefix].
    rewrite padStart_padEven by exact Hlen64.
    rewrite <- Hlen2.
    replace (64 - 2 * List.length (encodeScalar v))%nat
      with (2 * (32 - List.length (encodeScalar v)))%nat by lia.
    rewrite hexPairs_zeros, <- Hs. reflexivity. }
  rewrite Eb. split.
  - unfold len. rewrite length_app, repeat_length. lia.
  - rewrite beValue_zeros. exact Hval.
Qed.

Section SignFacts.
Context `{Platform}.

Lemma signature_layout (rBytes sBytes : bytes) (v : byte) :
  len rBytes = 32 -> len sBytes = 32 ->
  let b := rBytes ++ sBytes ++ [v] in
  len b = 65 /\ slice 0 32 b = rBytes /\ slice 32 64 b = sBytes /\ nth 64 b x00 = v.
Proof.
  intros Lr Ls b. unfold b.
  split; [rewrite !len_app, Lr, Ls; reflexivity|]. split; [|split].
  - change (rBytes ++ sBytes ++ [v]) with ([] ++ rBytes ++ sBytes ++ [v]).
    change 0 with (len (@nil byte)) at 1.
    replace 32 with (len (@nil byte) + len rBytes) by (rewrite Lr; reflexivity).
    apply slice_middle.
  - rewrite <- Lr at 1. replace 64 with (len rBytes + len sBytes) by lia.
    apply slice_middle.
  - assert (Nr : List.length rBytes = 32%nat) by (unfold len in Lr; lia).
    assert (Ns : List.length sBytes = 32%nat) by (unfold len in Ls; lia).
    rewrite app_nth2 by lia. rewrite Nr. cbn [Nat.sub].
    rewrite app_nth2 by lia. rewrite Ns. reflexivity.
Qed.

Lemma typedSet_middle (h old new t : bytes) :
  len old = len new ->
  typedSet (h ++ old ++ t) new (len h) = Ok (h ++ new ++ t).
Proof.
  intros Hl. unfold typedSet.
  replace (len (h ++ old ++ t) <? len h + len new) with false.
  2:{ symmetry. apply Z.ltb_ge. rewrite !len_app. pose proof (len_nonneg t). lia. }
  f_equal. f_equal.
  - unfold len. rewrite Nat2Z.id, firstn_app, Nat.sub_diag, firstn_O, app_nil_r.
    apply firstn_all.
  - f_equal. rewrite <- Hl. unfold len. rewrite <- Nat2Z.inj_add, Nat2Z.id.
    rewrite app_assoc, <- length_app.
    rewrite skipn_app, Nat.sub_diag, skipn_all. reflexivity.
Qed.

Lemma sign_bytes (rBytes sBytes : bytes) (v : byte) :
  len rBytes = 32 -> len sBytes = 32 ->
  (signatureBytes <- typedSet (repeat x00 65) rBytes 0 ;;
   signatureBytes <- typedSet signatureBytes sBytes 32 ;;
   typedSet signatureBytes [v] 64) = Ok (rBytes ++ sBytes ++ [v]).
Proof.
  intros Lr Ls.
  change (repeat x00 65) with ([] ++ repeat x00 32 ++ repeat x00 33).
  change 0 with (len (@nil byte)) at 1.
  rewrite typedSet_middle by (rewrite Lr; reflexivity). cbn [app bind].
  change (repeat x00 33) with (repeat x00 32 ++ [x00]).
  rewrite <- Lr at 1.
  rewrite typedSet_middle by (rewrite Ls; reflexivity). cbn [bind].
  replace 64 with (len (rBytes ++ sBytes)) by (rewrite len_app; lia).
  rewrite app_assoc.
  change [x00] with ([x00] ++ []).
  rewrite typedSet_middle by reflexivity.
  rewrite <- app_assoc. reflexivity.
Qed.

(** A signature [sign] produces from an in-range curve signature is
    structurally valid, its [s] in the lower half of the order. *)
Theorem sign_is_low_s (key : PrivateKey.t) (messageHash : Hash) :
  let sig := secp256k1_sign (hexToBytes messageHash) (PrivateKey.keyBytes key) in
  let finalS := if HALF_CURVE_ORDER <? sig_s sig then CURVE_N - sig_s sig
                else sig_s sig in
  0 < sig_r sig < CURVE_N -> 0 < sig_s sig < CURVE_N ->
  sig_recovery sig = 0 \/ sig_recovery sig = 1 ->
  exists signature,
    PrivateKey.sign key messageHash = Ok signature /\
    isSignatureStructurallyValid signature = true /\
    len (hexToBytes signature) = 65 /\
    beValue (slice 0 32 (hexToBytes signature)) = sig_r sig /\
    beValue (slice 32 64 (hexToBytes signature)) = finalS /\
    0 < finalS <= CURVE_N / 2 /\
    byteZ (nth 64 (hexToBytes signature) x00) = sig_recovery sig + 27.
Proof.
  intros sig finalS Hr Hs Hv.
  assert (Hhalf : HALF_CURVE_ORDER = CURVE_N / 2) by reflexivity.
  assert (Hn : CURVE_N = 2 * (CURVE_N / 2) + 1) by reflexivity.
  assert (H256 : CURVE_N < 2 ^ 256) by reflexivity.
  assert (Hpos : 0 < CURVE_N / 2) by reflexivity.
  assert (Hh2 : CURVE_N / 2 < 2 ^ 256) by reflexivity.
  assert (Hf : 0 < finalS <= CURVE_N / 2).
  { unfold finalS. rewrite Hhalf.
    destruct (CURVE_N / 2 <? sig_s sig) eqn:E;
      [apply Z.ltb_lt in E|apply Z.ltb_ge in E]; lia. }
  assert (Br : 0 < sig_r sig < 2 ^ 256) by (split; [apply Hr|]; eapply Z.lt_trans; [apply Hr|exact H256]).
  assert (Bs : 0 < finalS < 2 ^ 256) by (split; [apply Hf|]; eapply Z.le_lt_trans; [apply Hf|exact Hh2]).
  destruct (padded_scalar_bytes Br) as [Lr Vr].
  destruct (padded_scalar_bytes Bs) as [Ls Vs].
  set (rBytes := hexToBytes ("0x" ++ padStart 64 "0" (toString16 (sig_r sig)))%string) in *.
  set (sBytes := hexToBytes ("0x" ++ padStart 64 "0" (toString16 finalS))%string) in *.
  set (v := toUint8 (sig_recovery sig + 27)).
  destruct (signature_layout rBytes sBytes v Lr Ls) as (L & S1 & S2 & S3).
  exists (bytesToHex (rBytes ++ sBytes ++ [v])).
  assert (Hsign : PrivateKey.sign key messageHash = Ok (bytesToHex (rBytes ++ sBytes ++ [v]))).
  { unfold PrivateKey.sign. cbv zeta. fold sig. fold finalS. fold rBytes. fold sBytes.
    fold v.
    pose proof (sign_bytes rBytes sBytes v Lr Ls) as B.
    destruct (typedSet (repeat x00 65) rBytes 0) as [b1|e1]; [|discriminate B].
    cbn [bind] in B |- *.
    destruct (typedSet b1 sBytes 32) as [b2|e2]; [|discriminate B].
    cbn [bind] in B |- *. rewrite B. cbn [bind].
    unfold toSignature, toFixed. rewrite L. reflexivity. }
  assert (Hvz : byteZ v = sig_recovery sig + 27).
  { unfold v. apply toUint8_small. lia. }
  rewrite hexToBytes_bytesToHex.
  clearbody rBytes sBytes v.
  split; [exact Hsign|]. split.
  - unfold isSignatureStructurallyValid, isSignatureStructurallyValid_try.
    rewrite hexToBytes_bytesToHex, L, S1, S2, S3, Hvz. cbn [Z.eqb Pos.eqb negb].
    replace (negb (sig_recovery sig + 27 =? 27) && negb (sig_recovery sig + 27 =? 28))
      with false
      by (destruct Hv as [-> | ->]; reflexivity).
    rewrite (bigintOfBytes_value (b := rBytes))
      by (intros C; rewrite C in Lr; discriminate Lr).
    rewrite (bigintOfBytes_value (b := sBytes))
      by (intros C; rewrite C in Ls; discriminate Ls).
    rewrite Vr, Vs. cbn [bind].
    replace ((sig_r sig <=? 0) || (CURVE_N <=? sig_r sig)) with false
      by (symmetry; apply orb_false_iff; split; [apply Z.leb_gt|apply Z.leb_gt]; lia).
    replace ((finalS <=? 0) || (CURVE_N <=? finalS)) with false
      by (symmetry; apply orb_false_iff; split; [apply Z.leb_gt|apply Z.leb_gt]; lia).
    replace (HALF_CURVE_ORDER <? finalS) with false
      by (symmetry; apply Z.ltb_ge; lia).
    reflexivity.
  - rewrite S1, S2, S3. repeat split; try assumption; lia.
Qed.

End SignFacts.

Lemma sign_is_low_s_witness :
  exists signature,
    @PrivateKey.sign stubPlatform samplePrivateKey
      "0xabcdef1234567890abcdef1234567890abcdef1234567890abcdef1234567890"
      = Ok signature /\
    isSignatureStructurallyValid signature = true.
Proof.
  destruct (@sign_is_low_s stubPlatform samplePrivateKey
              "0xabcdef1234567890abcdef1234567890abcdef1234567890abcdef1234567890")
    as (signature & S & V & _).
  - vm_compute. split; reflexivity.
  - vm_compute. split; reflexivity.
  - left. reflexivity.
  - exists signature. split; assumption.
Defined.

(* ================================================================== *)
(** ** What the decoder throws, and the items it counts *)

Definition isRlpError (e : error) : Prop := e = RlpError \/ e = OutOfFuel.

Lemma bind_error {A B} (r : result A) (k : A -> result B) e :
  (forall e, r = Err e -> isRlpError e) ->
  (forall a e, r = Ok a -> k a = Err e -> isRlpError e) ->
  bind r k = Err e -> isRlpError e.
Proof.
  destruct r as [a|e0]; cbn [bind]; intros H1 H2 E.
  - eapply H2; [reflexivity|exact E].
  - injection E as <-. apply H1. reflexivity.
Qed.

Lemma safeSlice_error input a b e : safeSlice input a b = Err e -> isRlpError e.
Proof.
  unfold safeSlice. destruct (len input <? b); [|discriminate].
  intros E. injection E as <-. left. reflexivity.
Qed.

Lemma decodeLength_error v e : decodeLength v = Err e -> isRlpError e.
Proof.
  unfold decodeLength. destruct v as [|x ?]; [|destruct (byteZ x =? 0)];
    try discriminate; intros E; injection E as <-; left; reflexivity.
Qed.

Ltac rlp_errors IHi IHs :=
  repeat match goal with
         | |- Err _ = Err _ -> _ =>
             let E := fresh in
             intros E; injection E as <-; first [left; reflexivity|right; reflexivity]
         | |- Ok _ = Err _ -> _ => discriminate
         | |- safeSlice _ _ _ = Err _ -> _ => apply safeSlice_error
         | |- decodeLength _ = Err _ -> _ => apply decodeLength_error
         | |- decodeItems _ _ = Err _ -> _ => apply IHs
         | |- decodeItem _ _ = Err _ -> _ => apply IHi
         | |- bind _ _ = Err _ -> _ =>
             apply bind_error; [intros ?|intros ? ? _; cbv beta]
         | |- (if ?c then _ else _) = Err _ -> _ => destruct c
         | |- (let '(_, _) := ?p in _) = Err _ -> _ => destruct p
         end.

(** Every failure of the decoder is an error of the rlp package. *)
Lemma decode_errors f :
  (forall input e, decodeItem f input = Err e -> isRlpError e) /\
  (forall input e, decodeItems f input = Err e -> isRlpError e).
Proof.
  induction f as [|f [IHi IHs]].
  - split; intros input e; cbn [decodeItem decodeItems]; rlp_errors IHi IHs.
  - split.
    + intros [|first tl] e; [cbn [decodeItem]; rlp_errors IHi IHs|].
      rewrite decodeItem_S. cbv zeta. rlp_errors IHi IHs.
    + intros [|x tl] e; [discriminate|].
      rewrite decodeItems_S. rlp_errors IHi IHs.
Qed.

Lemma rlpDecode_error input e : rlpDecode input = Err e -> e = RlpError.
Proof.
  intros E. pose proof (rlpDecode_fuel input) as Hf.
  assert (Q : isRlpError e).
  { revert E. unfold rlpDecode. destruct input as [|x tl]; [discriminate|].
    apply bind_error; [intros e'; apply decode_errors|].
    intros [d r] e' _. destruct r; [discriminate|].
    intros C. injection C as <-. left. reflexivity. }
  destruct Q as [->| ->]; [reflexivity|contradiction].
Qed.

(** The elements of the outer list: a byte string, a list, or the empty
    list written raw. *)
Definition framed (el : RLPElement) : Prop :=
  match el with
  | ElBytes _ => True
  | ElList _ => True
  | ElRaw r => r = [xc0]
  | ElArray _ => False
  end.

Lemma decodeItems_list_head f (body rest : bytes) items :
  len ((RLPWriter.encodeListHeader (len body) ++ body) ++ rest) < 2 ^ 32 ->
  decodeItems f ((RLPWriter.encodeListHeader (len body) ++ body) ++ rest) = Ok items ->
  exists g d items',
    items = d :: items' /\ decodeItems g rest = Ok items' /\ len rest < 2 ^ 32.
Proof.
  intros Hlen E. rewrite !len_app in Hlen.
  pose proof (len_encodeListHeader_pos (len body)) as Hp.
  pose proof (len_nonneg rest) as Hr. pose proof (len_nonneg body) as Hb.
  assert (Hne : exists y ys,
             (RLPWriter.encodeListHeader (len body) ++ body) ++ rest = y :: ys).
  { destruct (RLPWriter.encodeListHeader (len body)) as [|y ys]; [cbn in Hp; lia|].
    cbn [app]. eauto. }
  destruct Hne as (y & ys & Hy). rewrite Hy in E.
  apply decodeItems_cons_inv in E.
  destruct E as (g & d & remainder & ds & -> & Ed & Es & ->).
  rewrite <- Hy, decodeItem_list_header in Ed by lia.
  inv_bind Ed. injection Ed as <- <-.
  exists (S g), (DList a), ds. repeat split; [exact Es|lia].
Qed.

Lemma decodeItems_framed_head f el rest items :
  framed el ->
  len (RLPWriter.encodePart el ++ rest) < 2 ^ 32 ->
  decodeItems f (RLPWriter.encodePart el ++ rest) = Ok items ->
  exists g d items',
    items = d :: items' /\ decodeItems g rest = Ok items' /\ len rest < 2 ^ 32.
Proof.
  destruct el as [b|l|r|els]; cbn [framed RLPWriter.encodePart]; intros Hf Hlen E.
  - apply decodeItems_any_string_head in E; [|exact Hlen].
    destruct E as (g & items' & -> & E & Hl).
    exists g, (DBytes b), items'. repeat split; assumption.
  - contradiction.
  - subst r.
    change [xc0] with (RLPWriter.encodeListHeader (len (@nil byte)) ++ []) in E, Hlen.
    eapply decodeItems_list_head; eassumption.
  - cbv zeta in E, Hlen. eapply decodeItems_list_head; eassumption.
Qed.

Lemma decodeItems_framed_count els :
  Forall framed els ->
  forall f items,
    len (List.concat (map RLPWriter.encodePart els)) < 2 ^ 32 ->
    decodeItems f (List.concat (map RLPWriter.encodePart els)) = Ok items ->
    List.length items = List.length els.
Proof.
  induction 1 as [|el els Hel Hels IH]; intros f items Hlen E;
    cbn [map List.concat] in *.
  - apply decodeItems_nil in E. subst items. reflexivity.
  - apply decodeItems_framed_head in E; [|exact Hel|exact Hlen].
    destruct E as (g & d & items' & -> & E & Hl).
    cbn [List.length]. f_equal. eapply IH; eassumption.
Qed.

Lemma txElements_framed tx includeSignature payloadBytes :
  Forall framed (txElements tx includeSignature payloadBytes).
Proof.
  assert (S : forall v, framed (optScalarEl v)) by (intros [v|]; reflexivity).
  assert (B : forall v, framed (optBytesEl v)) by (intros [v|]; reflexivity).
  assert (V : forall v, framed (optValueEl v)) by (intros [[b|l]|]; reflexivity).
  assert (P : framed (payloadEl payloadBytes))
    by (unfold payloadEl; destruct (_ || _); reflexivity).
  unfold txElements. apply Forall_app. split.
  - repeat (constructor; [first [exact I|apply S|apply B|apply V|exact P]|]).
    constructor.
  - unfold signatureEls.
    destruct (if includeSignature then truthy (Tx.signature tx) else None);
      repeat constructor.
Qed.

Section BuilderFacts.
Context `{Platform}.

(** The rlp package reads as many items as [encodeTxV1] wrote. *)
Lemma rlpDecode_encodeTx_count tx includeSignature data items :
  encodeTx tx includeSignature = Ok data -> len data < 2 ^ 32 ->
  rlpDecode data = Ok (DList items) ->
  List.length items = (12 + List.length (signatureEls tx includeSignature))%nat.
Proof.
  intros E Hlen D.
  destruct (encodeTx_parts_exist _ _ E) as (parts & Hparts).
  rewrite (encodeTx_of_parts _ _ Hparts) in E. injection E as <-.
  destruct (encodeTx_parts_elements _ _ Hparts) as (pb & _ & ->).
  rewrite len_app in Hlen.
  pose proof (len_encodeListHeader_pos
                (len (List.concat (map RLPWriter.encodePart
                                     (txElements tx includeSignature pb))))) as Hp.
  apply rlpDecode_list_inv in D; [|lia]. destruct D as (g & D).
  apply decodeItems_framed_count in D; [|apply txElements_framed|lia].
  rewrite D. unfold txElements. rewrite length_app. reflexivity.
Qed.

Lemma encodeTx_unfold tx includeSignature :
  encodeTx tx includeSignature =
  (_ <- BigInt_ofNumber (Tx.timestamp tx) ;;
   payloadBytes <- encodePayload (Tx.payload tx) (Tx.version tx) ;;
   Ok (RLPWriter.encode (txElements tx includeSignature payloadBytes))).
Proof.
  unfold encodeTx, encodeTxV1. destruct (Tx.version tx) eqn:V.
  rewrite encodeTxV1_writer_elements, V.
  destruct (BigInt_ofNumber (Tx.timestamp tx)); [|reflexivity]. cbn [bind].
  destruct (encodePayload (Tx.payload tx) V1); reflexivity.
Qed.

(** Without [includeSignature] the signature field is not read. *)
Lemma encodeTx_unsigned_withSignature s tx :
  encodeTx (Tx.withSignature s tx) false = encodeTx tx false.
Proof. rewrite !encodeTx_unfold. destruct tx. reflexivity. Qed.

(** The length of the encoding does not depend on which 65 bytes the
    signature holds. *)
Lemma encodeTx_length_signature tx s1 s2 d1 :
  s1 <> "" -> s2 <> "" ->
  len (hexToBytes s1) = 65 -> len (hexToBytes s2) = 65 ->
  encodeTx (Tx.withSignature (Some s1) tx) true = Ok d1 ->
  exists d2, encodeTx (Tx.withSignature (Some s2) tx) true = Ok d2 /\ len d2 = len d1.
Proof.
  intros N1 N2 L1 L2. rewrite !encodeTx_unfold.
  destruct tx. cbn [Tx.withSignature Tx.payload Tx.version Tx.timestamp].
  destruct (BigInt_ofNumber timestamp); cbn [bind]; [|discriminate].
  destruct (encodePayload payload version) as [pb|e]; cbn [bind]; [|discriminate].
  intros E. injection E as <-. eexists. split; [reflexivity|].
  unfold txElements, signatureEls.
  cbn [Tx.withSignature Tx.signature Tx.version Tx.timestamp Tx.type Tx.network
       Tx.nonce Tx.recipient Tx.tokenAddress Tx.amount Tx.fee Tx.message Tx.payload
       Tx.referenceHash].
  destruct s1 as [|c1 s1]; [congruence|]. destruct s2 as [|c2 s2]; [congruence|].
  cbn [truthy orNull].
  unfold RLPWriter.encode, RLPWriter.encodeElements. cbv zeta.
  rewrite !map_app, !concat_app, !len_app.
  cbn [map List.concat RLPWriter.encodePart] .
  rewrite !app_nil_r.
  rewrite (@encodeString_65 (hexToBytes (String c1 s1)) L1).
  rewrite (@encodeString_65 (hexToBytes (String c2 s2)) L2).
  rewrite !len_cons, L1, L2. reflexivity.
Qed.

(** [estimateSize] is the size of the transaction [sign] builds. *)
Theorem estimateSize_is_signed_size (b : TxBuilder.t) (key : PrivateKey.t) (t : Tx.t) :
  TxBuilder.sign b key = Ok t ->
  TxBuilder.estimateSize b = Ok (Tx.size t).
Proof.
  unfold TxBuilder.sign, TxBuilder.estimateSize. intros E.
  apply bind_Ok_inv in E. destruct E as (u & Hu & E). rewrite Hu. cbn [bind].
  apply bind_Ok_inv in E. destruct E as (h & _ & E).
  apply bind_Ok_inv in E. destruct E as (s & Hs & E).
  apply bind_Ok_inv in E. destruct E as (sender & _ & E).
  apply bind_Ok_inv in E. destruct E as (hash' & _ & E).
  apply bind_Ok_inv in E. destruct E as (size & Hsize & E).
  injection E as <-. cbn [Tx.size].
  unfold sizeTx in Hsize |- *. apply bind_Ok_inv in Hsize.
  destruct Hsize as (data & Hdata & Hsize). injection Hsize as <-.
  apply PrivateKey_sign_canonical in Hs. destruct Hs as [L65 Hcanon].
  assert (Ns : s <> "") by (intros ->; vm_compute in L65; discriminate L65).
  destruct (@encodeTx_length_signature u s ("0x" ++ strRepeat "0" 130)%string data
              Ns ltac:(discriminate) L65 ltac:(reflexivity) Hdata) as (d2 & E2 & L2).
  cbv zeta. rewrite E2. cbn [bind]. rewrite L2. reflexivity.
Qed.

(** The signature of a signed transaction is over the hash that
    [computeSigningHash] returns, which is the signing hash of the signed
    fields too. *)
Theorem sign_signs_the_signing_hash (b : TxBuilder.t) (key : PrivateKey.t) (t : Tx.t) :
  TxBuilder.sign b key = Ok t ->
  exists h s,
    TxBuilder.computeSigningHash b = Ok h /\
    hashForSigning (Tx.rlp t) = Ok h /\
    Tx.signature (Tx.rlp t) = Some s /\
    PrivateKey.sign key h = Ok s /\
    PrivateKey.getAddress key = Ok (Tx.sender t).
Proof.
  unfold TxBuilder.sign, TxBuilder.computeSigningHash. intros E.
  apply bind_Ok_inv in E. destruct E as (u & Hu & E). rewrite Hu. cbn [bind].
  apply bind_Ok_inv in E. destruct E as (h & Hh & E).
  apply bind_Ok_inv in E. destruct E as (s & Hs & E).
  apply bind_Ok_inv in E. destruct E as (sender & Hsender & E).
  apply bind_Ok_inv in E. destruct E as (hash' & _ & E).
  apply bind_Ok_inv in E. destruct E as (size & _ & E).
  injection E as <-. cbn [Tx.rlp Tx.sender].
  exists h, s. split; [exact Hh|]. split.
  - unfold hashForSigning in *. rewrite encodeTx_unsigned_withSignature. exact Hh.
  - split; [destruct u; reflexivity|]. split; assumption.
Qed.

(** An encoding without signature is not accepted by [decodeTx]. *)
Theorem decodeTx_rejects_unsigned_encoding (tx : Tx.fields) (data : bytes) :
  encodeTx tx false = Ok data -> len data < 2 ^ 32 ->
  exists e, decodeTx (inl data) = Err e.
Proof.
  intros E Hlen.
  destruct (decodeTx (inl data)) as [t|e] eqn:D; [exfalso|eauto].
  apply decodeTx_inv in D. destruct D as (items & Hitems & D).
  cbn [inputBytes] in *.
  pose proof (rlpDecode_encodeTx_count _ _ E Hlen Hitems) as Hc.
  cbn [signatureEls List.length] in Hc.
  assert (N : nth_error items 12 = None) by (apply nth_error_None; lia).
  unfold decodeTxV1 in D. cbv zeta in D.
  do 11 (apply bind_Ok_inv in D; destruct D as (? & _ & D)).
  apply bind_Ok_inv in D. destruct D as (sg & Hsg & _).
  rewrite N in Hsg. discriminate Hsg.
Qed.

(** Bytes after an encoded transaction are not accepted. *)
Theorem decodeTx_rejects_trailing_bytes (tx : Tx.fields) (includeSignature : bool)
    (data extra : bytes) :
  encodeTx tx includeSignature = Ok data -> len data < 2 ^ 32 -> extra <> [] ->
  decodeTx (inl (data ++ extra)) = Err RlpError.
Proof.
  intros E Hlen Hextra.
  destruct (encodeTx_parts_exist _ _ E) as (parts & Hparts).
  rewrite (encodeTx_of_parts _ _ Hparts) in E. injection E as <-.
  set (body := List.concat parts) in *. clearbody body.
  pose proof (len_encodeListHeader_pos (len body)) as Hh.
  pose proof (len_nonneg body) as Hb. pose proof (len_nonneg extra) as He.
  rewrite len_app in Hlen.
  unfold decodeTx. cbv zeta. cbn [inputBytes].
  rewrite len_eqb_nonempty.
  2:{ intros C. apply (f_equal (@len byte)) in C. rewrite !len_app in C.
      change (len (@nil byte)) with 0 in C. lia. }
  assert (R : rlpDecode ((RLPWriter.encodeListHeader (len body) ++ body) ++ extra)
              = Err RlpError).
  { destruct (rlpDecode ((RLPWriter.encodeListHeader (len body) ++ body) ++ extra))
      as [d|e] eqn:D.
    - exfalso. revert D. unfold rlpDecode.
      destruct ((RLPWriter.encodeListHeader (len body) ++ body) ++ extra)
        as [|y ys] eqn:Ey.
      { apply (f_equal (@len byte)) in Ey. rewrite !len_app in Ey.
        change (len (@nil byte)) with 0 in Ey. lia. }
      replace (2 * List.length (y :: ys))%nat with (S (S (2 * List.length ys)))
        by (cbn [List.length]; lia).
      rewrite <- Ey, decodeItem_list_header by lia.
      destruct (decodeItems _ body); cbn [bind]; [|discriminate].
      destruct extra; [congruence|discriminate].
    - apply rlpDecode_error in D. subst e. reflexivity. }
  rewrite R. reflexivity.
Qed.

End BuilderFacts.

Lemma estimateSize_is_signed_size_witness :
  @TxBuilder.estimateSize stubPlatform tokenCreateFullBuilder
    = Ok (Tx.size tokenCreateFullSigned) /\
  Tx.size tokenCreateFullSigned = len tokenCreateFullBytes.
Proof.
  split; [|vm_compute; reflexivity].
  apply (@estimateSize_is_signed_size stubPlatform tokenCreateFullBuilder samplePrivateKey).
  vm_compute. reflexivity.
Defined.

Lemma sign_signs_the_signing_hash_witness :
  exists h s,
    @TxBuilder.computeSigningHash stubPlatform tokenCreateFullBuilder = Ok h /\
    @hashForSigning stubPlatform (Tx.rlp tokenCreateFullSigned) = Ok h /\
    Tx.signature (Tx.rlp tokenCreateFullSigned) = Some s /\
    @PrivateKey.sign stubPlatform samplePrivateKey h = Ok s /\
    @PrivateKey.getAddress stubPlatform samplePrivateKey
      = Ok (Tx.sender tokenCreateFullSigned).
Proof.
  apply (@sign_signs_the_signing_hash stubPlatform tokenCreateFullBuilder samplePrivateKey).
  vm_compute. reflexivity.
Defined.

Lemma decodeTx_rejects_unsigned_encoding_witness :
  exists e, @decodeTx stubPlatform (inl sampleVoteUnsignedBytes) = Err e.
Proof.
  apply (@decodeTx_rejects_unsigned_encoding stubPlatform sampleVote).
  - vm_compute. reflexivity.
  - vm_compute. reflexivity.
Defined.

Lemma decodeTx_rejects_trailing_bytes_witness :
  @decodeTx stubPlatform (inl (sampleVoteBytes ++ [x00])) = Err RlpError.
Proof.
  apply (@decodeTx_rejects_trailing_bytes stubPlatform sampleVote true).
  - vm_compute. reflexivity.
  - vm_compute. reflexivity.
  - discriminate.
Defined.

(* ================================================================== *)
(** ** What the decoder reads from any writer *)

(** The RLP value a writer element stands for; a raw element only when it
    is the empty list [writeEmptyList] pushes, and no value for an array
    written where bytes are declared. *)
Fixpoint elementValue (e : RLPElement) : option RLPDecoded :=
  match e with
  | ElBytes b => Some (DBytes b)
  | ElArray _ => None
  | ElRaw d =>
      match d with
      | [x] => if byteZ x =? 192 then Some (DList []) else None
      | _ => None
      end
  | ElList l =>
      match (fix values (l : list RLPElement) : option (list RLPDecoded) :=
               match l with
               | [] => Some []
               | x :: r =>
                   match elementValue x, values r with
                   | Some v, Some vs => Some (v :: vs)
                   | _, _ => None
                   end
               end) l with
      | Some vs => Some (DList vs)
      | None => None
      end
  end.

Fixpoint elementValues (l : list RLPElement) : option (list RLPDecoded) :=
  match l with
  | [] => Some []
  | x :: r =>
      match elementValue x, elementValues r with
      | Some v, Some vs => Some (v :: vs)
      | _, _ => None
      end
  end.

Lemma elementValue_list l :
  elementValue (ElList l) = option_map DList (elementValues l).
Proof.
  cbn [elementValue].
  assert (E : (fix values (l : list RLPElement) : option (list RLPDecoded) :=
                 match l with
                 | [] => Some []
                 | x :: r =>
                     match elementValue x, values r with
                     | Some v, Some vs => Some (v :: vs)
                     | _, _ => None
                     end
                 end) l = elementValues l).
  { induction l as [|x r IH]; [reflexivity|]. cbn [elementValues]. rewrite <- IH.
    reflexivity. }
  rewrite E. destruct (elementValues l); reflexivity.
Qed.

Lemma RLPElement_nested_ind (P : RLPElement -> Prop) :
  (forall b, P (ElBytes b)) -> (forall a, P (ElArray a)) ->
  (forall d, P (ElRaw d)) ->
  (forall l, Forall P l -> P (ElList l)) ->
  forall e, P e.
Proof.
  intros Hb Ha Hr Hl. fix IH 1. intros [b|a|d|l].
  - apply Hb.
  - apply Ha.
  - apply Hr.
  - apply Hl. induction l as [|x l IHl]; constructor; [apply IH|exact IHl].
Qed.

Lemma encodePart_canon e : forall v,
  elementValue e = Some v -> RLPWriter.encodePart e = canon v.
Proof.
  induction e as [b|a|d|l IH] using RLPElement_nested_ind; intros v Hv.
  - injection Hv as <-. reflexivity.
  - discriminate Hv.
  - cbn [elementValue] in Hv. destruct d as [|x [|y r]]; try discriminate.
    destruct (byteZ x =? 192) eqn:E; [|discriminate]. injection Hv as <-.
    apply Z.eqb_eq in E. cbn [RLPWriter.encodePart].
    rewrite <- (toUint8_byteZ x), E. reflexivity.
  - rewrite elementValue_list in Hv.
    destruct (elementValues l) as [vs|] eqn:Evs; [|discriminate].
    injection Hv as <-. cbn [RLPWriter.encodePart canon]. cbv zeta.
    assert (M : map RLPWriter.encodePart l = map canon vs).
    { clear -IH Evs. revert vs Evs.
      induction IH as [|x l Hx Hl IHl]; intros vs Evs.
      - injection Evs as <-. reflexivity.
      - cbn [elementValues] in Evs.
        destruct (elementValue x) as [v|] eqn:Ex; [|discriminate].
        destruct (elementValues l) as [vs'|]; [|discriminate].
        injection Evs as <-. cbn [map]. rewrite (Hx v eq_refl), (IHl vs' eq_refl).
        reflexivity. }
    rewrite M. reflexivity.
Qed.

Lemma encodeElements_canon l vs :
  elementValues l = Some vs -> RLPWriter.encodeElements l = canon (DList vs).
Proof.
  intros E. change (RLPWriter.encodeElements l) with (RLPWriter.encodePart (ElList l)).
  apply encodePart_canon. rewrite elementValue_list, E. reflexivity.
Qed.

(** What the writer encodes, the rlp package decodes to the same tree. *)
Theorem rlpDecode_writer_encode (w : RLPWriter.t) (vs : list RLPDecoded) :
  elementValues w = Some vs -> len (RLPWriter.encode w) < 2 ^ 32 ->
  rlpDecode (RLPWriter.encode w) = Ok (DList vs).
Proof.
  intros E Hlen. unfold RLPWriter.encode in *.
  rewrite (encodeElements_canon _ E) in *. apply rlpDecode_canon. exact Hlen.
Qed.

Lemma rlpDecode_writer_encode_witness :
  rlpDecode
    (RLPWriter.encode
       (RLPWriter.writeOptionalBytes (Some (DBytes [x01; x02]))
          (RLPWriter.writeEmptyList
             (RLPWriter.writeScalar 1024 RLPWriter.new)))) =
  Ok (DList [DBytes [x04; x00]; DList []; DList [DBytes [x01; x02]]]).
Proof.
  apply (@rlpDecode_writer_encode
           (RLPWriter.writeOptionalBytes (Some (DBytes [x01; x02]))
              (RLPWriter.writeEmptyList (RLPWriter.writeScalar 1024 RLPWriter.new)))
           [DBytes [x04; x00]; DList []; DList [DBytes [x01; x02]]]).
  - vm_compute. reflexivity.
  - vm_compute. reflexivity.
Defined.

(* ================================================================== *)
(** ** Payload bytes read back, and the private key constructor *)

Section PayloadBytes.
Context `{Platform}.

(** An optional text as [decodeOptionalString] reads it back: a text that
    is written with no byte (the empty text) comes back as null. *)
Definition readBackText (s : option string) : option string :=
  match s with
  | Some s => if len (encodeString s) =? 0 then None else Some s
  | None => None
  end.

Definition optTextDecodes (s : option string) : Prop :=
  match s with
  | None => True
  | Some s => textRoundTrips s
  end.

(** The payloads whose values are in the ranges of the wire format, the
    optional texts empty or not. *)
Definition payloadReadable (p : TxPayload) : Prop :=
  match p with
  | TokenCreatePayload name smallestUnitName numberOfDecimals websiteUrl logoUrl
      maxSupply userBurnable =>
      textRoundTrips name /\ textRoundTrips smallestUnitName /\
      safeInteger numberOfDecimals /\
      optTextDecodes websiteUrl /\ optTextDecodes logoUrl /\
      optNonneg maxSupply
  | TokenUpdatePayload tokenAddress name smallestUnitName websiteUrl logoUrl =>
      canonicalHex 20 tokenAddress /\ optTextDecodes name /\
      optTextDecodes smallestUnitName /\ optTextDecodes websiteUrl /\
      optTextDecodes logoUrl
  | _ => payloadDecodes p
  end.

Definition optPayloadReadable (p : option TxPayload) : Prop :=
  match p with
  | None => True
  | Some p => payloadReadable p
  end.

(** What [decodePayload] gives for the bytes of a payload: the defaults of
    the TOKEN_CREATE arm for a null and for an empty text, and null for an
    empty text of TOKEN_UPDATE. *)
Definition readBackPayload (p : TxPayload) : TxPayload :=
  match p with
  | TokenCreatePayload name smallestUnitName numberOfDecimals websiteUrl logoUrl
      maxSupply userBurnable =>
      TokenCreatePayload name smallestUnitName numberOfDecimals
        (Some (orDefault "" (readBackText (orNull websiteUrl))))
        (Some (orDefault "" (readBackText (orNull logoUrl))))
        (Some (orDefault 0 maxSupply)) userBurnable
  | TokenUpdatePayload tokenAddress name smallestUnitName websiteUrl logoUrl =>
      TokenUpdatePayload tokenAddress (readBackText name)
        (readBackText smallestUnitName) (readBackText websiteUrl)
        (readBackText logoUrl)
  | _ => decodedPayload p
  end.

Lemma decodeOptionalString_readBack s :
  optTextDecodes s -> decodeOptionalString (Some (optStringItem s)) = Ok (readBackText s).
Proof.
  intros Hs. unfold decodeOptionalString, optStringItem.
  rewrite decodeOptionalBytes_item.
  destruct s as [s|]; [|reflexivity].
  cbn [option_map valueLength decodeString readBackText optTextDecodes] in *.
  destruct (len (encodeString s) =? 0); [reflexivity|]. cbn [bind].
  unfold encodeString. rewrite Hs. reflexivity.
Qed.

Lemma optTextDecodes_orNull s : optTextDecodes s -> optTextDecodes (orNull s).
Proof. destruct s as [[|c s]|]; intros Hs; [exact I|exact Hs|exact I]. Qed.

Lemma decodePayload_readable_item payload v :
  optPayloadReadable payload ->
  decodePayload (Some (payloadItem payload)) v = Ok (option_map readBackPayload payload).
Proof.
  destruct payload as [p|]; [|reflexivity]. intros Hp.
  destruct p;
    try exact (decodePayload_item (Some _) v Hp);
    cbn [optPayloadReadable payloadReadable] in Hp;
    cbn [payloadItem decodePayload option_map readBackPayload];
    unfold decodePayloadList;
    cbn [payloadItems payloadType payloadFieldItems nth_error];
    rewrite decodeInt_scalar by apply payloadTypeCode_range;
    cbn [bind]; rewrite txPayloadTypeFromCode_code; cbn [bind].
  - destruct Hp as (H1 & H2 & H3 & H4 & H5 & H6).
    rewrite !decodeString_item, decodeInt_number by assumption. cbn [bind].
    rewrite !decodeOptionalString_readBack by (apply optTextDecodes_orNull; assumption).
    cbn [bind]. rewrite decodeOptionalBigint_item by exact H6. cbn [bind].
    rewrite decodeInt_scalar by (destruct userBurnable; vm_compute; split; discriminate).
    cbn [bind]. destruct userBurnable; reflexivity.
  - destruct Hp as (H1 & H2 & H3 & H4 & H5).
    rewrite decodeAddress_item, !decodeOptionalString_readBack by assumption.
    reflexivity.
Qed.

(** The payload bytes [encodePayload] returns are read back by
    [decodePayload]: null for the null payload, otherwise the payload, with
    the defaults of the TOKEN_CREATE arm in place of its nulls, and with an
    optional text that is empty read back like a null one: as the empty
    text in TOKEN_CREATE, as null in TOKEN_UPDATE. *)
Theorem decodePayload_encodePayload (payload : option TxPayload) (v : TxVersion)
    (payloadBytes : bytes) :
  optPayloadReadable payload ->
  encodePayload payload v = Ok payloadBytes -> len payloadBytes < 2 ^ 32 ->
  decodePayload (Some (DBytes payloadBytes)) v =
    Ok (option_map readBackPayload payload).
Proof.
  intros Hp E Hlen. destruct payload as [p|].
  - pose proof (decodePayload_readable_item (Some p) v Hp) as D.
    destruct (encodePayload_Some_shape _ _ E) as [(code & rest & Eshape) _].
    pose proof (encodePayload_canon _ _ E) as Ec.
    assert (Hitems : exists c r, payloadItems p = DBytes c :: r).
    { unfold payloadItems. destruct (payloadType p) eqn:T; [eauto|].
      destruct p; cbn in T; try discriminate; destruct Hp. }
    destruct Hitems as (c & r & Hitems).
    cbn [payloadItem decodePayload] in D. rewrite Hitems in D.
    cbn [decodePayload].
    assert (L2 : 2 <= len payloadBytes).
    { rewrite Ec. cbn [canon]. rewrite Hitems. cbn [map List.concat canon].
      rewrite !len_app.
      match goal with
      | |- context [RLPWriter.encodeListHeader ?n] =>
          pose proof (len_encodeListHeader_pos n)
      end.
      pose proof (len_encodeString_pos c).
      pose proof (len_nonneg (List.concat (map canon r))). lia. }
    replace (len payloadBytes =? 0) with false by (symmetry; apply Z.eqb_neq; lia).
    replace (len payloadBytes =? 1) with false by (symmetry; apply Z.eqb_neq; lia).
    cbn [orb andb].
    rewrite Ec in Hlen |- *. rewrite (rlpDecode_canon _ Hlen). cbn [bind].
    rewrite Hitems. exact D.
  - cbn in E. injection E as <-. reflexivity.
Qed.

End PayloadBytes.

(** The [bip_network_params_set] scenario. *)
Definition sampleParams : TxPayload :=
  NetworkParamsSetPayload (Some 5000000000) None None None None (Some 10000) (Some 1000).

Definition sampleParamsBytes : bytes :=
  Eval vm_compute in
    match @encodePayload stubPlatform (Some sampleParams) V1 with
    | Ok b => b
    | Err _ => []
    end.

(** A TOKEN_UPDATE that sets the name to the empty text and the website. *)
Definition sampleUpdate : TxPayload :=
  TokenUpdatePayload "0x3333333333333333333333333333333333333333"
    (Some "") None (Some "https://test.token") None.

Definition sampleUpdateBytes : bytes :=
  Eval vm_compute in
    match @encodePayload stubPlatform (Some sampleUpdate) V1 with
    | Ok b => b
    | Err _ => []
    end.

Lemma decodePayload_encodePayload_witness :
  @decodePayload stubPlatform (Some (DBytes sampleParamsBytes)) V1
    = Ok (Some sampleParams) /\
  @decodePayload stubPlatform (Some (DBytes sampleUpdateBytes)) V1
    = Ok (Some (TokenUpdatePayload "0x3333333333333333333333333333333333333333"
                  None None (Some "https://test.token") None)).
Proof.
  split.
  - refine (@decodePayload_encodePayload stubPlatform (Some sampleParams) V1
              sampleParamsBytes _ _ _).
    + cbn. repeat split; try exact I; lia.
    + vm_compute. reflexivity.
    + vm_compute. reflexivity.
  - refine (@decodePayload_encodePayload stubPlatform (Some sampleUpdate) V1
              sampleUpdateBytes _ _ _).
    + split; [vm_compute; split; reflexivity|].
      repeat split; try exact I; reflexivity.
    + vm_compute. reflexivity.
    + vm_compute. reflexivity.
Defined.

Section KeyFacts.
Context `{Platform}.

Lemma make_keyBytes (b : bytes) (k : PrivateKey.t) :
  PrivateKey.make b = Ok k -> PrivateKey.keyBytes k = b.
Proof.
  unfold PrivateKey.make. destruct (negb (len b =? 32)); [discriminate|].
  intros E. apply bind_Ok_inv in E. destruct E as (d & _ & E).
  destruct ((d <=? 0) || (CURVE_N <=? d)); [discriminate|].
  injection E as <-. reflexivity.
Qed.

(** The constructor accepts exactly the 32-byte strings whose big-endian
    value is strictly between 0 and the curve order; and a key it made is
    made again from its own bytes and from its own hex form. *)
Theorem PrivateKey_make_range (b : bytes) :
  (forall k, PrivateKey.make b = Ok k <->
             len b = 32 /\ 0 < beValue b < CURVE_N /\ PrivateKey.keyBytes k = b) /\
  (len b <> 32 -> PrivateKey.make b = Err PrivateKeyLength) /\
  (len b = 32 -> ~ 0 < beValue b < CURVE_N -> PrivateKey.make b = Err PrivateKeyRange) /\
  (forall k, PrivateKey.make b = Ok k ->
             PrivateKey.wrap (inl (PrivateKey.toBytes k)) = Ok k /\
             PrivateKey.wrap (inr (PrivateKey.toHex k)) = Ok k).
Proof.
  assert (W : forall k, PrivateKey.make b = Ok k ->
                PrivateKey.wrap (inl (PrivateKey.toBytes k)) = Ok k /\
                PrivateKey.wrap (inr (PrivateKey.toHex k)) = Ok k).
  { intros k Ek. unfold PrivateKey.wrap, PrivateKey.toBytes, PrivateKey.toHex.
    rewrite hexToBytes_bytesToHex, (@make_keyBytes b k Ek). split; exact Ek. }
  rewrite <- !and_assoc. split; [|exact W]. rewrite !and_assoc. clear W.
  unfold PrivateKey.make.
  destruct (len b =? 32) eqn:E; cbn [negb].
  - apply Z.eqb_eq in E.
    assert (Hb : b <> []) by (intros ->; discriminate E).
    rewrite (bigintOfBytes_value Hb). cbn [bind].
    destruct ((beValue b <=? 0) || (CURVE_N <=? beValue b)) eqn:R.
    + apply orb_true_iff in R. rewrite Z.leb_le, Z.leb_le in R.
      split; [|split].
      * intros k. split; [discriminate|]. intros (_ & Hr & _). lia.
      * intros C. contradiction.
      * reflexivity.
    + apply orb_false_iff in R. rewrite Z.leb_gt, Z.leb_gt in R.
      split; [|split].
      * intros k. split.
        -- intros Ek. injection Ek as <-. repeat split; try assumption; lia.
        -- intros (_ & _ & Hk). destruct k as [kb]. cbn in Hk. subst kb. reflexivity.
      * intros C. contradiction.
      * intros _ C. exfalso. apply C. lia.
  - apply Z.eqb_neq in E. split; [|split].
    + intros k. split; [discriminate|]. intros (C & _). contradiction.
    + reflexivity.
    + intros C. contradiction.
Qed.

End KeyFacts.

(* ================================================================== *)
(** ** Fixed-length hex values, type guards and addresses *)

(** [hexToBytes] gives one byte for every two characters, whatever the
    characters are; a last single character is dropped. *)
Lemma hexPairs_length_div2_le n : forall s,
  (String.length s <= n)%nat ->
  List.length (hexPairs s) = Nat.div2 (String.length s).
Proof.
  induction n as [|n IH]; intros [|a [|b r]] Hlen;
    cbn [String.length hexPairs List.length Nat.div2] in *;
    try reflexivity; try lia.
  f_equal. apply IH. lia.
Qed.

Lemma hexPairs_length_div2 s :
  List.length (hexPairs s) = Nat.div2 (String.length s).
Proof. apply hexPairs_length_div2_le with (n := String.length s). lia. Qed.

Lemma div2_eq n k : Nat.div2 n = k <-> (n = 2 * k \/ n = 2 * k + 1)%nat.
Proof.
  split.
  - intros <-. pose proof (Nat.div2_odd n) as E.
    destruct (Nat.odd n); cbn [Nat.b2n] in E; lia.
  - intros [-> | ->].
    + apply Nat.div2_double.
    + replace (2 * k + 1)%nat with (S (2 * k)) by lia. apply Nat.div2_succ_double.
Qed.

Lemma toFixed_hex_iff (n : nat) e (h : Hex) (a : string) :
  toFixed (Z.of_nat n) e (inr h) = Ok a <->
  (String.length (stripHexPrefix h) = 2 * n \/
   String.length (stripHexPrefix h) = 2 * n + 1)%nat /\ a = toLowerCase h.
Proof.
  unfold toFixed, hexToBytes, len.
  rewrite hexPairs_length_div2, <- div2_eq.
  destruct (Z.of_nat (Nat.div2 (String.length (stripHexPrefix h))) =? Z.of_nat n) eqn:E.
  - apply Z.eqb_eq in E. apply Nat2Z.inj in E. split.
    + intros Ea. injection Ea as <-. split; [exact E|reflexivity].
    + intros [_ ->]. reflexivity.
  - apply Z.eqb_neq in E. split; [discriminate|].
    intros [C _]. exfalso. apply E. rewrite C. reflexivity.
Qed.


Lemma allHexDigits_app s1 s2 :
  allHexDigits (s1 ++ s2) = allHexDigits s1 && allHexDigits s2.
Proof.
  induction s1 as [|c s1 IH]; [reflexivity|].
  cbn [String.append allHexDigits]. rewrite IH, andb_assoc. reflexivity.
Qed.

Lemma byteHex_shape (x : byte) :
  String.length (byteHex x) = 2%nat /\ allHexDigits (byteHex x) = true /\
  toLowerCase (byteHex x) = byteHex x.
Proof. destruct x; vm_compute; repeat split. Qed.

Lemma toLowerCase_app s1 s2 :
  toLowerCase (s1 ++ s2) = (toLowerCase s1 ++ toLowerCase s2)%string.
Proof.
  induction s1 as [|c s1 IH]; [reflexivity|].
  cbn [String.append toLowerCase]. rewrite IH. reflexivity.
Qed.

Lemma hexBody_shape (b : bytes) :
  String.length (String.concat "" (map byteHex b)) = (2 * List.length b)%nat /\
  allHexDigits (String.concat "" (map byteHex b)) = true /\
  toLowerCase (String.concat "" (map byteHex b)) = String.concat "" (map byteHex b).
Proof.
  induction b as [|x b (IL & IA & IT)]; [repeat split|].
  destruct (byteHex_shape x) as (L & A & T).
  cbn [map List.length]. rewrite concat_empty_cons.
  rewrite length_append, allHexDigits_app, toLowerCase_app, L, A, T, IL, IA, IT.
  repeat split. lia.
Qed.

(** What [bytesToHex] returns is in lower case already. *)
Lemma toLowerCase_bytesToHex (b : bytes) : toLowerCase (bytesToHex b) = bytesToHex b.
Proof.
  unfold bytesToHex. cbn [String.append toLowerCase].
  destruct (hexBody_shape b) as (_ & _ & ->). reflexivity.
Qed.

(** A hash or a signature made from bytes passes the type guard exactly when
    the bytes have the fixed length; and what a guard accepts, the
    conversion accepts. *)
Theorem guards_accept_converted_bytes (b : bytes) (h : string) :
  (isHash (bytesToHex b) = true <-> len b = 32) /\
  (isSignature (bytesToHex b) = true <-> len b = 65) /\
  (isHash h = true -> toHash (inr h) = Ok (toLowerCase h)) /\
  (isSignature h = true -> toSignature (inr h) = Ok (toLowerCase h)).
Proof.
  destruct (hexBody_shape b) as (L & A & _).
  assert (G : forall n : nat,
             test0xHex (2 * n) (bytesToHex b) = true <-> List.length b = n).
  { intros n. unfold test0xHex, bytesToHex. cbn [String.append].
    rewrite A, andb_true_r, L, Nat.eqb_eq. lia. }
  assert (S0 : startsWith0x (bytesToHex b) = true) by reflexivity.
  assert (Lb : String.length (bytesToHex b) = (2 + 2 * List.length b)%nat).
  { unfold bytesToHex. cbn [String.append String.length]. rewrite L. reflexivity. }
  assert (T : forall n value, test0xHex n value = true ->
                              String.length (stripHexPrefix value) = n).
  { intros n value. unfold test0xHex.
    destruct value as [|c0 [|c1 r]]; try discriminate.
    + destruct c0 as [[] [] [] [] [] [] [] []]; discriminate.
    + intros E.
      destruct c0 as [[] [] [] [] [] [] [] []]; cbv iota in E; try discriminate E.
      destruct c1 as [[] [] [] [] [] [] [] []]; cbv iota in E; try discriminate E.
      cbn [stripHexPrefix]. apply andb_prop in E. destruct E as [E _].
      apply Nat.eqb_eq in E. exact E. }
  split; [|split; [|split]].
  - unfold isHash. rewrite S0, Lb. cbn [negb].
    destruct (2 + 2 * List.length b =? 66)%nat eqn:E; cbn [negb].
    + apply Nat.eqb_eq in E. rewrite (G 32%nat). unfold len. lia.
    + apply Nat.eqb_neq in E. split; [discriminate|]. unfold len. lia.
  - unfold isSignature. rewrite S0, Lb. cbn [negb].
    destruct (2 + 2 * List.length b =? 132)%nat eqn:E; cbn [negb].
    + apply Nat.eqb_eq in E. rewrite (G 65%nat). unfold len. lia.
    + apply Nat.eqb_neq in E. split; [discriminate|]. unfold len. lia.
  - unfold isHash. destruct (startsWith0x h); cbn [negb]; [|discriminate].
    destruct (String.length h =? 66)%nat; cbn [negb]; [|discriminate].
    intros E. apply T in E.
    apply (toFixed_hex_iff 32 HashSize h (toLowerCase h)).
    split; [left; exact E|reflexivity].
  - unfold isSignature. destruct (startsWith0x h); cbn [negb]; [|discriminate].
    destruct (String.length h =? 132)%nat; cbn [negb]; [|discriminate].
    intros E. apply T in E.
    apply (toFixed_hex_iff 65 SignatureSize h (toLowerCase h)).
    split; [left; exact E|reflexivity].
Qed.

Lemma substring_skip s1 : forall n s2,
  substring (String.length s1) n (s1 ++ s2) = substring 0 n s2.
Proof. induction s1 as [|c s1 IH]; intros n s2; [reflexivity|]. cbn. apply IH. Qed.

Lemma substring_all s : substring 0 (String.length s) s = s.
Proof. induction s as [|c s IH]; [reflexivity|]. cbn. rewrite IH. reflexivity. Qed.

Lemma hexBody_app (b1 b2 : bytes) :
  String.concat "" (map byteHex (b1 ++ b2)) =
  (String.concat "" (map byteHex b1) ++ String.concat "" (map byteHex b2))%string.
Proof.
  induction b1 as [|x b1 IH]; [reflexivity|].
  cbn [app map]. rewrite !concat_empty_cons, IH, append_assoc. reflexivity.
Qed.

(** The last 40 characters of the hex form of 32 bytes are the hex form of
    the last 20 bytes. *)
Lemma sliceLast_digest (d : bytes) :
  len d = 32 ->
  ("0x" ++ sliceLast 40 (bytesToHex d))%string = bytesToHex (skipn 12 d).
Proof.
  intros L. assert (N : List.length d = 32%nat) by (unfold len in L; lia).
  unfold sliceLast, bytesToHex. f_equal.
  rewrite <- (firstn_skipn 12 d) at 1 2.
  rewrite hexBody_app.
  destruct (hexBody_shape (firstn 12 d)) as (L1 & _).
  destruct (hexBody_shape (skipn 12 d)) as (L2 & _).
  rewrite length_firstn in L1. rewrite length_skipn in L2.
  replace (String.length
             ("0x" ++ String.concat "" (map byteHex (firstn 12 d)) ++
              String.concat "" (map byteHex (skipn 12 d))) - 40)%nat
    with (String.length ("0x" ++ String.concat "" (map byteHex (firstn 12 d))))
    by (cbn [String.append String.length]; rewrite !length_append, L1, L2; lia).
  rewrite <- append_assoc, substring_skip.
  replace 40%nat with (String.length (String.concat "" (map byteHex (skipn 12 d))))
    by (rewrite L2; lia).
  apply substring_all.
Qed.

Lemma toAddress_digest_tail (d : bytes) :
  len d = 32 ->
  toAddress (inr ("0x" ++ sliceLast 40 (bytesToHex d))%string)
  = Ok (bytesToHex (skipn 12 d)).
Proof.
  intros L. rewrite (@sliceLast_digest d L).
  unfold toAddress, toFixed. rewrite hexToBytes_bytesToHex, toLowerCase_bytesToHex.
  replace (len (skipn 12 d) =? ADDRESS_SIZE) with true; [reflexivity|].
  symmetry. apply Z.eqb_eq. unfold len in *. rewrite length_skipn.
  change ADDRESS_SIZE with 20. lia.
Qed.

Section AddressFacts.
Context `{Platform}.

(** The address of a key is the hex form of the last 20 bytes of the
    Keccak digest of its public key (the 64 bytes after the 0x04 marker). *)
Theorem getAddress_is_digest_tail (key : PrivateKey.t) :
  len (keccak_256 (PrivateKey.getPublicKey key)) = 32 ->
  PrivateKey.getAddress key =
    Ok (bytesToHex (skipn 12 (keccak_256 (PrivateKey.getPublicKey key)))) /\
  len (hexToBytes (bytesToHex (skipn 12 (keccak_256 (PrivateKey.getPublicKey key))))) = 20.
Proof.
  intros L. split.
  - unfold PrivateKey.getAddress, keccak256. cbv zeta. apply toAddress_digest_tail. exact L.
  - rewrite hexToBytes_bytesToHex. unfold len in *. rewrite length_skipn. lia.
Qed.

(** Recovery gives the signer's address when the curve library recovers the
    signer's public key. *)
Theorem recoverAddress_is_getAddress (key : PrivateKey.t) (messageHash : Hash)
    (signature : Signature) :
  let sigBytes := hexToBytes signature in
  let v := byteZ (nth 64 sigBytes x00) in
  len sigBytes = 65 -> v = 27 \/ v = 28 ->
  secp256k1_recover (beValue (slice 0 32 sigBytes)) (beValue (slice 32 64 sigBytes))
    (v - 27) (hexToBytes messageHash)
    = Ok (secp256k1_getPublicKey (PrivateKey.keyBytes key) false) ->
  recoverAddress messageHash signature = PrivateKey.getAddress key /\
  forall expected,
    validateSignature messageHash signature expected =
    match PrivateKey.getAddress key with
    | Ok a => String.eqb (toLowerCase a) (toLowerCase expected)
    | Err _ => false
    end.
Proof.
  intros sigBytes v L Hv Hrec.
  assert (R : recoverAddress messageHash signature = PrivateKey.getAddress key).
  { unfold recoverAddress, PrivateKey.getAddress, PrivateKey.getPublicKey. cbv zeta.
    fold sigBytes. rewrite L. cbn [Z.eqb Pos.eqb negb].
    rewrite (bigintOfBytes_value (b := slice 0 32 sigBytes))
      by (apply slice_nonempty; lia).
    rewrite (bigintOfBytes_value (b := slice 32 64 sigBytes))
      by (apply slice_nonempty; lia).
    cbn [bind]. fold v.
    replace (negb (v - 27 =? 0) && negb (v - 27 =? 1)) with false
      by (destruct Hv as [-> | ->]; reflexivity).
    rewrite Hrec. reflexivity. }
  split; [exact R|]. intros expected. unfold validateSignature. rewrite R. reflexivity.
Qed.

End AddressFacts.

Lemma getAddress_is_digest_tail_witness :
  @PrivateKey.getAddress stubPlatform samplePrivateKey
    = Ok "0x4040404040404040404040404040404040404040".
Proof.
  exact (proj1 (@getAddress_is_digest_tail stubPlatform samplePrivateKey eq_refl)).
Defined.

Lemma recoverAddress_is_getAddress_witness :
  @recoverAddress stubPlatform
    "0xabcdef1234567890abcdef1234567890abcdef1234567890abcdef1234567890" sampleSignature
  = @PrivateKey.getAddress stubPlatform samplePrivateKey.
Proof.
  refine (proj1 (@recoverAddress_is_getAddress stubPlatform samplePrivateKey
            "0xabcdef1234567890abcdef1234567890abcdef1234567890abcdef1234567890"
            sampleSignature _ _ _)).
  - vm_compute. reflexivity.
  - left. vm_compute. reflexivity.
  - vm_compute. reflexivity.
Defined.

(* ================================================================== *)
(** ** Digit strings *)

Lemma hexVal_hexDigit d : 0 <= d < 16 -> hexVal (hexDigit d) = Some d.
Proof.
  intros Hd.
  assert (C : d = 0 \/ d = 1 \/ d = 2 \/ d = 3 \/ d = 4 \/ d = 5 \/ d = 6 \/ d = 7 \/
              d = 8 \/ d = 9 \/ d = 10 \/ d = 11 \/ d = 12 \/ d = 13 \/ d = 14 \/ d = 15)
    by lia.
  repeat (destruct C as [-> | C]; [reflexivity|]). subst d. reflexivity.
Qed.

Lemma digitVal_hexDigit radix d :
  radix <= 16 -> 0 <= d < radix -> digitVal radix (hexDigit d) = Some d.
Proof.
  intros Hr Hd. unfold digitVal. rewrite hexVal_hexDigit by lia.
  replace (d <? radix) with true by (symmetry; apply Z.ltb_lt; lia). reflexivity.
Qed.

Lemma digitsValue_app radix s1 : forall s2 acc,
  digitsValue radix (s1 ++ s2) acc =
  match digitsValue radix s1 acc with
  | Some v => digitsValue radix s2 v
  | None => None
  end.
Proof.
  induction s1 as [|c s1 IH]; intros s2 acc; cbn [String.append digitsValue].
  - reflexivity.
  - destruct (digitVal radix c); [apply IH|reflexivity].
Qed.

Lemma digitsValue_zeros radix k : forall acc,
  2 <= radix -> digitsValue radix (strRepeat "0" k) acc = Some (acc * radix ^ Z.of_nat k).
Proof.
  induction k as [|k IH]; intros acc Hr.
  - cbn [strRepeat digitsValue]. f_equal. change (Z.of_nat 0) with 0. lia.
  - cbn [strRepeat digitsValue].
    assert (E : digitVal radix "0" = Some 0).
    { unfold digitVal. change (hexVal "0") with (Some 0). cbv beta iota.
      replace (0 <? radix) with true by (symmetry; apply Z.ltb_lt; lia). reflexivity. }
    rewrite E, IH by exact Hr. f_equal.
    rewrite Nat2Z.inj_succ, Z.pow_succ_r by lia. ring.
Qed.

Lemma digitsRadix_acc radix fuel : forall n acc,
  digitsRadix radix fuel n acc = (digitsRadix radix fuel n "" ++ acc)%string.
Proof.
  induction fuel as [|f IH]; intros n acc; cbn [digitsRadix].
  - reflexivity.
  - destruct (n =? 0); [reflexivity|].
    rewrite IH, (IH _ (String _ "")), append_assoc. reflexivity.
Qed.

(** The digits written for [n]: their value is [n], there are no more of
    them than [n] needs, and none when [n] is 0. *)
Lemma digitsRadix_spec radix fuel : forall n,
  2 <= radix <= 16 -> 0 <= n < 2 ^ Z.of_nat fuel ->
  (forall a, digitsValue radix (digitsRadix radix fuel n "") a =
             Some (a * radix ^ Z.of_nat (String.length (digitsRadix radix fuel n "")) + n)) /\
  (0 < n -> digitsRadix radix fuel n "" <> "") /\
  (forall d : nat, n < radix ^ Z.of_nat d ->
                   (String.length (digitsRadix radix fuel n "") <= d)%nat).
Proof.
  induction fuel as [|f IH]; intros n Hr Hn.
  - change (2 ^ Z.of_nat 0) with 1 in Hn. cbn [digitsRadix String.length digitsValue].
    split; [intros a; f_equal; change (Z.of_nat 0) with 0; lia|].
    split; [lia|intros; lia].
  - cbn [digitsRadix]. destruct (n =? 0) eqn:E.
    + apply Z.eqb_eq in E. subst n. cbn [String.length digitsValue].
      split; [intros a; f_equal; change (Z.of_nat 0) with 0; lia|].
      split; [lia|intros; lia].
    + apply Z.eqb_neq in E.
      assert (Hq : 0 <= n / radix < 2 ^ Z.of_nat f).
      { split; [apply Z.div_pos; lia|].
        apply Z.div_lt_upper_bound; [lia|].
        rewrite Nat2Z.inj_succ, Z.pow_succ_r in Hn by lia.
        assert (0 < 2 ^ Z.of_nat f) by (apply Z.pow_pos_nonneg; lia). nia. }
      destruct (IH (n / radix) Hr Hq) as (V & _ & L).
      rewrite digitsRadix_acc.
      set (D := digitsRadix radix f (n / radix) "") in *.
      assert (Hm : 0 <= n mod radix < radix) by (apply Z.mod_pos_bound; lia).
      split; [|split].
      * intros a. rewrite digitsValue_app, V. cbn [digitsValue].
        rewrite digitVal_hexDigit by lia. f_equal.
        rewrite length_append. cbn [String.length].
        rewrite Nat2Z.inj_add. change (Z.of_nat 1) with 1.
        rewrite Z.pow_add_r, Z.pow_1_r by lia.
        pose proof (Z.div_mod n radix ltac:(lia)) as Hdm.
        set (p := radix ^ Z.of_nat (String.length D)) in *. clearbody p. nia.
      * intros _. destruct D; discriminate.
      * intros d Hd. rewrite length_append. cbn [String.length].
        destruct d as [|d].
        { change (radix ^ Z.of_nat 0) with 1 in Hd. lia. }
        assert (n / radix < radix ^ Z.of_nat d).
        { apply Z.div_lt_upper_bound; [lia|].
          rewrite Nat2Z.inj_succ, Z.pow_succ_r in Hd by lia. exact Hd. }
        specialize (L d ltac:(assumption)). lia.
Qed.

Lemma log2_fuel n : 0 < n -> 0 <= n < 2 ^ Z.of_nat (S (Z.to_nat (Z.log2 n))).
Proof.
  intros Hn. pose proof (Z.log2_spec n Hn) as [_ Hlt].
  pose proof (Z.log2_nonneg n) as Hl.
  rewrite Nat2Z.inj_succ, Z2Nat.id by lia. lia.
Qed.

Lemma hexDigits_radix fuel : forall n acc,
  hexDigits fuel n acc = digitsRadix 16 fuel n acc.
Proof.
  induction fuel as [|f IH]; intros n acc; cbn [hexDigits digitsRadix].
  - reflexivity.
  - destruct (n =? 0); [reflexivity|apply IH].
Qed.

(** [toString] on a non-negative value, in radix 10 and 16. *)
Lemma toString10_nonneg n :
  0 <= n ->
  toString10 n <> "" /\
  (forall a, digitsValue 10 (toString10 n) a =
             Some (a * 10 ^ Z.of_nat (String.length (toString10 n)) + n)) /\
  (forall d : nat, 0 < n -> n < 10 ^ Z.of_nat d -> (String.length (toString10 n) <= d)%nat).
Proof.
  intros Hn. unfold toString10. destruct (n =? 0) eqn:E.
  - apply Z.eqb_eq in E. subst n.
    split; [discriminate|]. split; [|intros; lia].
    intros a. cbn [digitsValue String.length]. change (digitVal 10 "0") with (Some 0).
    change (Z.of_nat 1) with 1. rewrite Z.pow_1_r. f_equal. lia.
  - apply Z.eqb_neq in E. cbv zeta.
    replace (n <? 0) with false by (symmetry; apply Z.ltb_ge; lia).
    rewrite Z.abs_eq by lia.
    destruct (@digitsRadix_spec 10 (S (Z.to_nat (Z.log2 n))) n ltac:(lia)
                (@log2_fuel n ltac:(lia))) as (V & N & L).
    split; [apply N; lia|]. split; [exact V|]. intros d _ Hd. apply L. exact Hd.
Qed.

Lemma toString16_nonneg n :
  0 <= n ->
  toString16 n <> "" /\
  (forall a, digitsValue 16 (toString16 n) a =
             Some (a * 16 ^ Z.of_nat (String.length (toString16 n)) + n)).
Proof.
  intros Hn. unfold toString16. destruct (n =? 0) eqn:E.
  - apply Z.eqb_eq in E. subst n.
    split; [discriminate|].
    intros a. cbn [digitsValue String.length]. change (digitVal 16 "0") with (Some 0).
    change (Z.of_nat 1) with 1. rewrite Z.pow_1_r. f_equal. lia.
  - apply Z.eqb_neq in E. cbv zeta.
    replace (n <? 0) with false by (symmetry; apply Z.ltb_ge; lia).
    rewrite Z.abs_eq, hexDigits_radix by lia.
    destruct (@digitsRadix_spec 16 (S (Z.to_nat (Z.log2 n))) n ltac:(lia)
                (@log2_fuel n ltac:(lia))) as (V & N & _).
    split; [apply N; lia|exact V].
Qed.

Lemma toString10_neg n : n < 0 -> toString10 n = String "-" (toString10 (- n)).
Proof.
  intros Hn. unfold toString10.
  replace (n =? 0) with false by (symmetry; apply Z.eqb_neq; lia).
  replace (- n =? 0) with false by (symmetry; apply Z.eqb_neq; lia).
  cbv zeta.
  replace (n <? 0) with true by (symmetry; apply Z.ltb_lt; lia).
  replace (- n <? 0) with false by (symmetry; apply Z.ltb_ge; lia).
  rewrite Z.abs_opp. reflexivity.
Qed.

Lemma toString16_neg n : n < 0 -> toString16 n = String "-" (toString16 (- n)).
Proof.
  intros Hn. unfold toString16.
  replace (n =? 0) with false by (symmetry; apply Z.eqb_neq; lia).
  replace (- n =? 0) with false by (symmetry; apply Z.eqb_neq; lia).
  cbv zeta.
  replace (n <? 0) with true by (symmetry; apply Z.ltb_lt; lia).
  replace (- n <? 0) with false by (symmetry; apply Z.ltb_ge; lia).
  rewrite Z.abs_opp. reflexivity.
Qed.

(** What a string of digits cannot hold. *)
Fixpoint allDigitsIn (radix : Z) (s : string) : bool :=
  match s with
  | EmptyString => true
  | String c r =>
      match digitVal radix c with
      | Some _ => allDigitsIn radix r
      | None => false
      end
  end.

Lemma digitsValue_all radix s : forall a v,
  digitsValue radix s a = Some v -> allDigitsIn radix s = true.
Proof.
  induction s as [|c s IH]; intros a v E; cbn [digitsValue allDigitsIn] in *.
  - reflexivity.
  - destruct (digitVal radix c); [eapply IH; exact E|discriminate E].
Qed.

Lemma all_digitsValue radix s : forall a,
  allDigitsIn radix s = true -> exists v, digitsValue radix s a = Some v.
Proof.
  induction s as [|c s IH]; intros a E; cbn [digitsValue allDigitsIn] in *.
  - eauto.
  - destruct (digitVal radix c); [apply IH; exact E|discriminate E].
Qed.

Lemma hexVal_char c d :
  hexVal c = Some d ->
  isWhiteSpace c = false /\ Ascii.eqb c "-" = false /\ Ascii.eqb c "+" = false /\
  Ascii.eqb c "." = false /\ 0 <= d < 16.
Proof.
  destruct c as [[] [] [] [] [] [] [] []]; vm_compute; intros E;
    try discriminate E; injection E as <-;
    repeat split; try reflexivity; discriminate.
Qed.

Lemma digitVal_char radix c d :
  digitVal radix c = Some d ->
  isWhiteSpace c = false /\ Ascii.eqb c "-" = false /\ Ascii.eqb c "+" = false /\
  Ascii.eqb c "." = false.
Proof.
  unfold digitVal. destruct (hexVal c) as [d'|] eqn:E; [|discriminate].
  intros _. destruct (hexVal_char _ E) as (A & B & C & D & _). repeat split; assumption.
Qed.

Lemma decimal_char c d : digitVal 10 c = Some d -> radixOf c = None.
Proof.
  destruct c as [[] [] [] [] [] [] [] []]; vm_compute; intros E;
    try discriminate E; reflexivity.
Qed.

Lemma trimEnd_digits radix s : allDigitsIn radix s = true -> trimEnd s = s.
Proof.
  induction s as [|c s IH]; cbn [allDigitsIn trimEnd]; [reflexivity|].
  destruct (digitVal radix c) as [d|] eqn:E; [|discriminate].
  intros A. rewrite (IH A). destruct s; [|reflexivity].
  destruct (digitVal_char _ _ E) as (W & _). rewrite W. reflexivity.
Qed.

Lemma trimEnd_app s1 : forall s2,
  s2 <> "" -> trimEnd s2 = s2 -> trimEnd (s1 ++ s2) = (s1 ++ s2)%string.
Proof.
  induction s1 as [|c s1 IH]; intros s2 N E; cbn [String.append trimEnd].
  - exact E.
  - rewrite (IH s2 N E). destruct (s1 ++ s2)%string eqn:A; [|reflexivity].
    destruct s1; [cbn in A; congruence|discriminate A].
Qed.

Lemma numeral_value radix s v :
  s <> "" -> digitsValue radix s 0 = Some v -> numeral radix s = Ok v.
Proof. intros N E. unfold numeral. destruct s; [congruence|]. rewrite E. reflexivity. Qed.

(** [BigInt] of a non-empty string of decimal digits. *)
Lemma BigInt_ofString_decimal s v :
  s <> "" -> digitsValue 10 s 0 = Some v -> BigInt_ofString s = Ok v.
Proof.
  intros N E. pose proof (digitsValue_all _ _ _ E) as A.
  unfold BigInt_ofString. cbv zeta.
  destruct s as [|c0 rest]; [congruence|].
  assert (E0 := A). cbn [allDigitsIn] in E0.
  destruct (digitVal 10 c0) as [d0|] eqn:D0; [|discriminate].
  destruct (digitVal_char _ _ D0) as (W & M & P & _).
  cbn [trimStart]. rewrite W, (trimEnd_digits _ _ A).
  rewrite M, P.
  assert (X : (if Ascii.eqb c0 "0" then
                 match rest with
                 | String c1 r =>
                     match radixOf c1 with
                     | Some radix => Some (radix, r)
                     | None => None
                     end
                 | EmptyString => None
                 end
               else None) = None).
  { destruct (Ascii.eqb c0 "0"); [|reflexivity].
    destruct rest as [|c1 r]; [reflexivity|].
    cbn [allDigitsIn] in E0. destruct (digitVal 10 c1) as [d1|] eqn:D1; [|discriminate].
    rewrite (decimal_char _ D1). reflexivity. }
  rewrite X. apply numeral_value; [discriminate|exact E].
Qed.

(** [split('.')] *)
Fixpoint noDot (s : string) : bool :=
  match s with
  | EmptyString => true
  | String c r => negb (Ascii.eqb c ".") && noDot r
  end.

Lemma digits_noDot radix s : allDigitsIn radix s = true -> noDot s = true.
Proof.
  induction s as [|c s IH]; cbn [allDigitsIn noDot]; [reflexivity|].
  destruct (digitVal radix c) as [d|] eqn:E; [|discriminate].
  intros A. destruct (digitVal_char _ _ E) as (_ & _ & _ & D). rewrite D, (IH A). reflexivity.
Qed.

Lemma splitDot_cons s : splitDot s = hd "" (splitDot s) :: tl (splitDot s).
Proof.
  destruct s as [|c s]; cbn [splitDot]; [reflexivity|].
  destruct (Ascii.eqb c "."); [reflexivity|].
  destruct (splitDot s); reflexivity.
Qed.

Lemma splitDot_app s1 : forall s2,
  noDot s1 = true ->
  splitDot (s1 ++ s2) = (s1 ++ hd "" (splitDot s2))%string :: tl (splitDot s2).
Proof.
  induction s1 as [|c s1 IH]; intros s2 N; cbn [String.append].
  - apply splitDot_cons.
  - cbn [noDot] in N. apply andb_true_iff in N. destruct N as [Nc N].
    apply negb_true_iff in Nc. cbn [splitDot]. rewrite Nc, (IH s2 N). reflexivity.
Qed.

Lemma append_nil_r s : (s ++ "")%string = s.
Proof. induction s; cbn; congruence. Qed.

Lemma splitDot_noDot s : noDot s = true -> splitDot s = [s].
Proof.
  intros N. rewrite <- (append_nil_r s) at 1. rewrite (@splitDot_app s "" N).
  cbn [splitDot hd tl]. rewrite append_nil_r. reflexivity.
Qed.

Lemma splitDot_point s1 s2 :
  noDot s1 = true ->
  splitDot (s1 ++ String "." s2) = s1 :: splitDot s2.
Proof.
  intros N. rewrite (@splitDot_app s1 (String "." s2) N). cbn [splitDot Ascii.eqb].
  change (Ascii.eqb "." ".") with true. cbv iota. cbn [hd tl].
  rewrite append_nil_r. reflexivity.
Qed.

Lemma substring_prefix s1 : forall s2,
  substring 0 (String.length s1) (s1 ++ s2) = s1.
Proof.
  induction s1 as [|c s1 IH]; intros s2; cbn [String.length String.append substring].
  - destruct s2; reflexivity.
  - rewrite IH. reflexivity.
Qed.

Lemma substring_short s : forall n,
  (String.length s <= n)%nat -> substring 0 n s = s.
Proof.
  induction s as [|c s IH]; intros n L.
  - destruct n; reflexivity.
  - destruct n as [|n]; cbn [String.length] in L; [lia|].
    cbn [substring]. rewrite IH by lia. reflexivity.
Qed.

Lemma orElse_Some_empty s : orElse (Some s) "" = s.
Proof. destruct s; reflexivity. Qed.

Lemma orElse_nonempty s d : s <> "" -> orElse (Some s) d = s.
Proof. destruct s; [congruence|reflexivity]. Qed.

(** [replace(/0+$/, '')] takes zeros off the end, nothing else. *)
Lemma trimTrailingZeros_spec s :
  exists k, s = (trimTrailingZeros s ++ strRepeat "0" k)%string.
Proof.
  induction s as [|c s [k IH]]; cbn [trimTrailingZeros].
  - exists 0%nat. reflexivity.
  - destruct (trimTrailingZeros s) as [|c' r'] eqn:T.
    + destruct (Ascii.eqb c "0") eqn:E.
      * apply Ascii.eqb_eq in E. subst c. exists (S k).
        cbn [String.append strRepeat] in *. congruence.
      * exists k. cbn [String.append] in *. congruence.
    + exists k. cbn [String.append] in *. congruence.
Qed.

(* ================================================================== *)
(** ** Amounts: formatting and parsing *)

Lemma decimals_in_range d :
  0 <= d <= 18 -> (d <? 0) || (Amounts.DECIMALS_MAX <? d) = false.
Proof.
  intros Hd. apply orb_false_iff. unfold Amounts.DECIMALS_MAX.
  split; apply Z.ltb_ge; lia.
Qed.

(** [parseWithDecimals] in terms of the pieces [split] gives. *)
Lemma parse_parts text d (parts0 : string) (parts1 : list string) v :
  0 <= d <= 18 ->
  splitDot text = parts0 :: parts1 ->
  BigInt_ofString
    (orElse (Some parts0) "0" ++
     padEnd (Z.to_nat d) "0"
       (substring 0 (Z.to_nat d) (orElse (nth_error parts1 0) ""))) = Ok v ->
  (startsWithChar "-" text = false -> Amounts.parseWithDecimals text d = Amounts.Value v) /\
  Amounts.parseWithDecimals (String "-" text) d = Amounts.Value (- v).
Proof.
  intros Hd S B. cbn [nth_error] in B. unfold Amounts.parseWithDecimals. rewrite (decimals_in_range Hd).
  cbv zeta. split.
  - intros N. rewrite N, S. cbn [nth_error]. rewrite B. reflexivity.
  - cbn [startsWithChar]. change (Ascii.eqb "-" "-") with true. cbv iota.
    cbn [String.length]. rewrite Nat.sub_succ, Nat.sub_0_r.
    cbn [substring]. rewrite substring_all, S. cbn [nth_error]. rewrite B. reflexivity.
Qed.

Lemma startsWithChar_digits s t v a :
  s <> "" -> digitsValue 10 s a = Some v -> startsWithChar "-" (s ++ t) = false.
Proof.
  intros N E. destruct s as [|c s]; [congruence|].
  cbn [digitsValue] in E. cbn [String.append startsWithChar].
  destruct (digitVal 10 c) as [x|] eqn:D; [|discriminate].
  destruct (digitVal_char _ _ D) as (_ & M & _). exact M.
Qed.

Lemma pow10_pos d : 0 <= d -> 0 < 10 ^ d.
Proof. intros. apply Z.pow_pos_nonneg; lia. Qed.

(** The text [formatWithDecimals] builds for a non-negative amount, and
    what [parseWithDecimals] reads from it, with and without a sign. *)
Lemma format_body w d :
  0 <= d <= 18 -> 0 <= w ->
  let fractionalPart := Z.rem w (10 ^ d) in
  let result := toString10 (Z.quot w (10 ^ d)) in
  let body :=
    if 0 <? fractionalPart then
      let fracStr := padStart (Z.to_nat d) "0" (toString10 fractionalPart) in
      let trimmed := trimTrailingZeros fracStr in
      match trimmed with
      | EmptyString => result
      | String _ _ => (result ++ "." ++ trimmed)%string
      end
    else result in
  startsWithChar "-" body = false /\
  Amounts.parseWithDecimals body d = Amounts.Value w /\
  Amounts.parseWithDecimals (String "-" body) d = Amounts.Value (- w).
Proof.
  intros Hd Hw. cbv zeta.
  pose proof (pow10_pos (proj1 Hd)) as Hp.
  rewrite Z.quot_div_nonneg, Z.rem_mod_nonneg by lia.
  pose proof (Z.div_mod w (10 ^ d) ltac:(lia)) as Hdm.
  pose proof (Z.mod_pos_bound w (10 ^ d) Hp) as Hr.
  assert (Hq : 0 <= w / 10 ^ d) by (apply Z.div_pos; lia).
  set (q := w / 10 ^ d) in *. set (r := w mod 10 ^ d) in *.
  destruct (@toString10_nonneg _ Hq) as (NI & VI & _).
  set (I := toString10 q) in *.
  assert (DI : noDot I = true)
    by (apply (@digits_noDot 10); apply (@digitsValue_all 10 I 0 _ (VI 0))).
  assert (Hnat : Z.of_nat (Z.to_nat d) = d) by (apply Z2Nat.id; lia).
  destruct (0 <? r) eqn:R.
  - apply Z.ltb_lt in R.
    assert (Hrn : 0 <= r) by lia.
    destruct (@toString10_nonneg _ Hrn) as (NR & VR & LR).
    assert (LR' : (String.length (toString10 r) <= Z.to_nat d)%nat)
      by (apply LR; [exact R|rewrite Hnat; lia]).
    set (F := padStart (Z.to_nat d) "0" (toString10 r)).
    assert (LF : String.length F = Z.to_nat d).
    { unfold F, padStart. rewrite length_append, length_strRepeat. lia. }
    assert (VF : forall a, digitsValue 10 F a = Some (a * 10 ^ d + r)).
    { intros a. unfold F, padStart. rewrite digitsValue_app, digitsValue_zeros by lia.
      rewrite VR. f_equal. rewrite <- Z.mul_assoc, <- Z.pow_add_r by lia.
      rewrite <- Nat2Z.inj_add.
      replace (Z.to_nat d - String.length (toString10 r) + String.length (toString10 r))%nat
        with (Z.to_nat d) by lia.
      rewrite Hnat. reflexivity. }
    destruct (trimTrailingZeros_spec F) as (k & EF).
    set (T := trimTrailingZeros F) in *.
    assert (NT : T <> "").
    { intros C. rewrite C in EF. cbn [String.append] in EF.
      pose proof (VF 0) as V0. rewrite EF, digitsValue_zeros in V0 by lia.
      injection V0 as V0. lia. }
    assert (LT : (String.length T + k = Z.to_nat d)%nat).
    { pose proof (f_equal String.length EF) as LE.
      rewrite length_append, length_strRepeat in LE. lia. }
    assert (DT : noDot T = true).
    { pose proof (VF 0) as V0. rewrite EF, digitsValue_app in V0.
      destruct (digitsValue 10 T 0) as [x|] eqn:X; [|discriminate].
      apply (@digits_noDot 10). apply (@digitsValue_all 10 _ 0 _ X). }
    destruct T as [|c0 T0] eqn:ET; [congruence|]. rewrite <- ET in *.
    change (I ++ "." ++ T)%string with (I ++ String "." T)%string.
    assert (B : BigInt_ofString
                  (orElse (Some I) "0" ++
                   padEnd (Z.to_nat d) "0"
                     (substring 0 (Z.to_nat d) (orElse (nth_error [T] 0) ""))) = Ok w).
    { cbn [nth_error]. rewrite (@orElse_nonempty I "0" NI), orElse_Some_empty.
      rewrite substring_short by lia. unfold padEnd.
      replace (Z.to_nat d - String.length T)%nat with k by lia. rewrite <- EF.
      apply BigInt_ofString_decimal.
      - destruct I; [congruence|discriminate].
      - rewrite digitsValue_app, VI, VF. f_equal. lia. }
    assert (S : splitDot (I ++ String "." T) = I :: [T])
      by (rewrite (@splitDot_point I T DI), (@splitDot_noDot T DT); reflexivity).
    destruct (@parse_parts _ d I [T] w Hd S B) as [P1 P2].
    assert (N : startsWithChar "-" (I ++ String "." T) = false)
      by (apply (@startsWithChar_digits I (String "." T) _ 0 NI (VI 0))).
    split; [exact N|]. split; [exact (P1 N)|exact P2].
  - apply Z.ltb_ge in R. assert (r = 0) by lia.
    assert (B : BigInt_ofString
                  (orElse (Some I) "0" ++
                   padEnd (Z.to_nat d) "0"
                     (substring 0 (Z.to_nat d) (orElse (nth_error [] 0) ""))) = Ok w).
    { cbn [nth_error]. change (orElse None "") with "".
      rewrite (@orElse_nonempty I "0" NI).
      rewrite substring_short by (cbn; lia). unfold padEnd.
      cbn [String.length String.append]. rewrite Nat.sub_0_r.
      apply BigInt_ofString_decimal.
      - destruct I; [congruence|discriminate].
      - rewrite digitsValue_app, VI, digitsValue_zeros by lia. f_equal.
        rewrite Hnat. lia. }
    destruct (@parse_parts _ d I [] w Hd (@splitDot_noDot I DI) B) as [P1 P2].
    assert (N : startsWithChar "-" I = false).
    { rewrite <- (append_nil_r I). apply (@startsWithChar_digits I "" _ 0 NI (VI 0)). }
    split; [exact N|]. split; [exact (P1 N)|exact P2].
Qed.

(** Formatting an amount and parsing the text gives the amount back, for
    every amount, of either sign, and every number of decimals from 0 to
    18. *)
Theorem parse_format_round_trip (wei decimals : Z) :
  0 <= decimals <= Amounts.DECIMALS_MAX ->
  exists text,
    Amounts.formatWithDecimals wei decimals = Amounts.Value text /\
    Amounts.parseWithDecimals text decimals = Amounts.Value wei.
Proof.
  unfold Amounts.DECIMALS_MAX. intros Hd.
  unfold Amounts.formatWithDecimals. rewrite (decimals_in_range Hd). cbv zeta.
  destruct (wei <? 0) eqn:N.
  - apply Z.ltb_lt in N.
    destruct (@format_body (- wei) decimals Hd ltac:(lia)) as (_ & _ & P).
    cbv zeta in P. rewrite Z.opp_involutive in P.
    eexists. split; [reflexivity|exact P].
  - apply Z.ltb_ge in N.
    destruct (@format_body wei decimals Hd N) as (_ & P & _).
    eexists. split; [reflexivity|exact P].
Qed.

Lemma parse_format_round_trip_witness :
  Amounts.formatWithDecimals (-100000) 8 = Amounts.Value "-0.001" /\
  Amounts.parseWithDecimals "-0.001" 8 = Amounts.Value (-100000).
Proof.
  destruct (@parse_format_round_trip (-100000) 8 ltac:(vm_compute; split; discriminate))
    as (text & F & P).
  assert (E : text = "-0.001")
    by (vm_compute in F; injection F as <-; reflexivity).
  subst text. split; [exact F|exact P].
Defined.

(** A whole number of units is printed without a fractional part, and its
    decimal spelling is read as that many units. *)
Theorem whole_amounts_have_no_fraction (n decimals : Z) :
  0 <= decimals <= Amounts.DECIMALS_MAX ->
  Amounts.formatWithDecimals (n * 10 ^ decimals) decimals = Amounts.Value (toString10 n) /\
  Amounts.parseWithDecimals (toString10 n) decimals = Amounts.Value (n * 10 ^ decimals).
Proof.
  unfold Amounts.DECIMALS_MAX. intros Hd.
  pose proof (pow10_pos (proj1 Hd)) as Hp.
  assert (B : forall m, 0 <= m ->
            Amounts.parseWithDecimals (toString10 m) decimals
              = Amounts.Value (m * 10 ^ decimals) /\
            Amounts.parseWithDecimals (String "-" (toString10 m)) decimals
              = Amounts.Value (- (m * 10 ^ decimals))).
  { intros m Hm.
    destruct (@format_body (m * 10 ^ decimals) decimals Hd ltac:(nia)) as (_ & P1 & P2).
    cbv zeta in P1, P2. rewrite Z.rem_mul, Z.quot_mul in P1, P2 by lia.
    change (0 <? 0) with false in P1, P2. cbv iota in P1, P2. split; assumption. }
  unfold Amounts.formatWithDecimals. rewrite (decimals_in_range Hd). cbv zeta.
  destruct (n * 10 ^ decimals <? 0) eqn:N.
  - apply Z.ltb_lt in N. assert (Hn : n < 0) by nia.
    replace (- (n * 10 ^ decimals)) with (- n * 10 ^ decimals) by ring.
    rewrite Z.rem_mul, Z.quot_mul by lia. change (0 <? 0) with false. cbv iota.
    rewrite (toString10_neg Hn). split; [reflexivity|].
    destruct (B (- n) ltac:(lia)) as [_ P]. rewrite P. f_equal. ring.
  - apply Z.ltb_ge in N. assert (Hn : 0 <= n) by nia.
    rewrite Z.rem_mul, Z.quot_mul by lia. change (0 <? 0) with false. cbv iota.
    split; [reflexivity|]. apply (B n Hn).
Qed.

Lemma whole_amounts_have_no_fraction_witness :
  Amounts.formatTokens (Amounts.tokens (-42)) = Amounts.Value "-42" /\
  Amounts.parseTokens "-42" = Amounts.Value (Amounts.tokens (-42)).
Proof.
  exact (@whole_amounts_have_no_fraction (-42) 8 ltac:(vm_compute; split; discriminate)).
Defined.

(** Characters after the first [decimals] characters of the fractional part
    are never looked at: they are cut off, not rounded and not checked. *)
Theorem parse_cuts_after_decimals (integerPart fraction rest : string) (decimals : Z) :
  0 <= decimals <= Amounts.DECIMALS_MAX ->
  noDot integerPart = true -> noDot fraction = true ->
  String.length fraction = Z.to_nat decimals ->
  Amounts.parseWithDecimals (integerPart ++ "." ++ fraction ++ rest) decimals =
  Amounts.parseWithDecimals (integerPart ++ "." ++ fraction) decimals.
Proof.
  unfold Amounts.DECIMALS_MAX. intros Hd NI NF LF.
  change (integerPart ++ "." ++ fraction ++ rest)%string
    with (integerPart ++ String "." (fraction ++ rest))%string.
  change (integerPart ++ "." ++ fraction)%string
    with (integerPart ++ String "." fraction)%string.
  assert (C : forall I, noDot I = true ->
            let p1 := splitDot (I ++ String "." (fraction ++ rest)) in
            let p2 := splitDot (I ++ String "." fraction) in
            nth_error p1 0 = nth_error p2 0 /\
            substring 0 (Z.to_nat decimals) (orElse (nth_error p1 1) "") =
            substring 0 (Z.to_nat decimals) (orElse (nth_error p2 1) "")).
  { intros I HI. cbv zeta.
    rewrite (@splitDot_point I (fraction ++ rest) HI), (@splitDot_point I fraction HI).
    rewrite (@splitDot_app fraction rest NF), (@splitDot_noDot fraction NF).
    cbn [nth_error]. split; [reflexivity|].
    rewrite !orElse_Some_empty, <- LF, substring_prefix, substring_all. reflexivity. }
  unfold Amounts.parseWithDecimals. rewrite (decimals_in_range Hd). cbv zeta.
  destruct integerPart as [|c I].
  - cbn [String.append startsWithChar]. change (Ascii.eqb "." "-") with false. cbv iota.
    destruct (C "" eq_refl) as [C0 C1]. cbn [String.append] in C0, C1.
    rewrite C0, C1. reflexivity.
  - cbn [String.append startsWithChar]. destruct (Ascii.eqb c "-") eqn:M.
    + cbn [String.length]. rewrite !Nat.sub_succ, !Nat.sub_0_r.
      cbn [substring]. rewrite !substring_all.
      cbn [noDot] in NI. apply andb_true_iff in NI. destruct NI as [_ NI].
      destruct (C I NI) as [C0 C1]. rewrite C0, C1. reflexivity.
    + destruct (C (String c I) NI) as [C0 C1]. cbn [String.append] in C0, C1.
      rewrite C0, C1. reflexivity.
Qed.

Lemma parse_cuts_after_decimals_witness :
  Amounts.parseTokens "1.123456789" = Amounts.Value 112345678 /\
  Amounts.parseTokens "1.12345678xyz" = Amounts.Value 112345678.
Proof.
  assert (V : Amounts.parseWithDecimals ("1" ++ "." ++ "12345678") 8
              = Amounts.Value 112345678) by (vm_compute; reflexivity).
  split.
  - exact (eq_trans
             (@parse_cuts_after_decimals "1" "12345678" "9" 8
                ltac:(vm_compute; split; discriminate) eq_refl eq_refl eq_refl) V).
  - exact (eq_trans
             (@parse_cuts_after_decimals "1" "12345678" "xyz" 8
                ltac:(vm_compute; split; discriminate) eq_refl eq_refl eq_refl) V).
Defined.

(* ================================================================== *)
(** ** Hex strings of integers *)

Lemma strRepeat_add c a b :
  strRepeat c (a + b) = (strRepeat c a ++ strRepeat c b)%string.
Proof. induction a; cbn [Nat.add strRepeat String.append]; congruence. Qed.

Lemma bigintToHex_padEven value byteLength :
  bigintToHex value byteLength =
  ("0x" ++ match byteLength with
           | Some n => padStart (Z.to_nat (n * 2)) "0" (padEven (toString16 value))
           | None => padEven (toString16 value)
           end)%string.
Proof.
  unfold bigintToHex, padEven. cbv zeta.
  destruct (Nat.even (String.length (toString16 value))); reflexivity.
Qed.

(** The digits after [0x] are those of [toString(16)] behind zeros. *)
Lemma bigintToHex_shape value byteLength :
  exists z, bigintToHex value byteLength =
            ("0x" ++ strRepeat "0" z ++ toString16 value)%string.
Proof.
  rewrite bigintToHex_padEven.
  assert (E : exists z0, padEven (toString16 value)
                         = (strRepeat "0" z0 ++ toString16 value)%string).
  { unfold padEven. destruct (Nat.even (String.length (toString16 value))).
    - exists 0%nat. reflexivity.
    - exists 1%nat. reflexivity. }
  destruct E as (z0 & E). destruct byteLength as [n|].
  - unfold padStart.
    set (m := (Z.to_nat (n * 2) - String.length (padEven (toString16 value)))%nat).
    rewrite E. exists (m + z0)%nat.
    rewrite strRepeat_add, append_assoc. reflexivity.
  - exists z0. rewrite E. reflexivity.
Qed.

Lemma BigInt_ofString_0x body :
  body <> "" -> trimEnd body = body ->
  BigInt_ofString ("0x" ++ body) = numeral 16 body.
Proof.
  intros N T. unfold BigInt_ofString. cbv zeta.
  change (trimStart ("0x" ++ body)) with ("0x" ++ body)%string.
  rewrite (@trimEnd_app "0x" body N T). reflexivity.
Qed.

Lemma even_bytes v :
  0 <= v ->
  beValue (hexPairs (padEven (toString16 v))) = v /\
  (forall n, 0 < n -> v < 256 ^ n -> len (hexPairs (padEven (toString16 v))) <= n).
Proof.
  intros Hv. destruct (Z.eq_dec v 0) as [->|Hnz].
  - split; [reflexivity|]. intros n Hn _. change (len _) with 1. lia.
  - assert (Hs : encodeScalar v = hexPairs (padEven (toString16 v))).
    { unfold encodeScalar, padEven.
      replace (v =? 0) with false by (symmetry; apply Z.eqb_neq; lia).
      cbv zeta. destruct (Nat.even (String.length (toString16 v))); reflexivity. }
    rewrite <- Hs.
    destruct (@encodeScalar_minimal v Hv)
      as [Hval [[C _]|(_ & x & rest & E & Hx)]]; [lia|].
    split; [exact Hval|]. intros n Hn Hlt.
    rewrite E in *. rewrite len_cons.
    destruct (Z.le_gt_cases (len rest) (n - 1)) as [|Hbig]; [lia|]. exfalso.
    assert (Hb : 1 <= byteZ x).
    { pose proof (byteZ_range x). destruct (Z.eq_dec (byteZ x) 0) as [Z0|]; [|lia].
      exfalso. apply Hx. rewrite <- (toUint8_byteZ x), Z0. reflexivity. }
    unfold beValue in Hval. cbn [fold_left] in Hval.
    pose proof (@fold_be_lower rest (256 * 0 + byteZ x) ltac:(lia)) as Hl.
    assert (256 ^ n <= 256 ^ len rest) by (apply Z.pow_le_mono_r; lia).
    nia.
Qed.

(** [bigintToHex] of a non-negative value is read back by [hexToBigint],
    and by [hexToBytes] as the big-endian bytes of the value, exactly
    [byteLength] of them when the value fits; of a negative value it is not
    a hex literal at all.  [padHex] pads as [bigintToHex] does. *)
Theorem bigintToHex_round_trip (value : Z) (byteLength : option Z) :
  (0 <= value ->
   hexToBigint (bigintToHex value byteLength) = Ok value /\
   beValue (hexToBytes (bigintToHex value byteLength)) = value /\
   forall n, byteLength = Some n -> 0 < n -> value < 256 ^ n ->
             len (hexToBytes (bigintToHex value byteLength)) = n) /\
  (value < 0 -> hexToBigint (bigintToHex value byteLength) = Err SyntaxError) /\
  (forall n, padHex (bigintToHex value None) n = bigintToHex value (Some n)).
Proof.
  split; [|split];
    [| |intros n; rewrite !bigintToHex_padEven; unfold padHex;
         cbn [String.append stripHexPrefix]; reflexivity].
  - intros Hv. split; [|split].
    + destruct (bigintToHex_shape value byteLength) as (z & ->).
      destruct (@toString16_nonneg value Hv) as (NH & VH).
      assert (V : digitsValue 16 (strRepeat "0" z ++ toString16 value) 0 = Some value).
      { rewrite digitsValue_app, digitsValue_zeros, VH by lia. f_equal; lia. }
      unfold hexToBigint. rewrite BigInt_ofString_0x.
      * apply numeral_value; [|exact V].
        destruct (strRepeat "0" z); [exact NH|discriminate].
      * destruct (strRepeat "0" z); [exact NH|discriminate].
      * apply (@trimEnd_digits 16). apply (@digitsValue_all 16 _ 0 _ V).
    + rewrite bigintToHex_padEven. unfold hexToBytes. cbn [String.append stripHexPrefix].
      destruct (@even_bytes value Hv) as [B _].
      destruct byteLength as [n|]; [|exact B].
      unfold padStart.
      pose proof (padEven_even (toString16 value)) as Ev.
      set (E := padEven (toString16 value)) in *.
      destruct (Nat.even (Z.to_nat (n * 2) - String.length E)) eqn:Ed.
      * apply Nat.even_spec in Ed. destruct Ed as [k Ek]. rewrite Ek.
        rewrite hexPairs_zeros, beValue_zeros. exact B.
      * exfalso.
        assert (Hn2 : Nat.even (Z.to_nat (n * 2)) = true).
        { destruct (Z.le_gt_cases n 0) as [Hle|Hgt].
          - replace (Z.to_nat (n * 2)) with 0%nat by lia. reflexivity.
          - replace (Z.to_nat (n * 2)) with (2 * Z.to_nat n)%nat by lia.
            apply Nat.even_spec. exists (Z.to_nat n). reflexivity. }
        destruct (Nat.le_gt_cases (String.length E) (Z.to_nat (n * 2))) as [Hle|Hgt].
        -- rewrite Nat.even_sub, Hn2, Ev in Ed by exact Hle. discriminate Ed.
        -- replace (Z.to_nat (n * 2) - String.length E)%nat with 0%nat in Ed by lia.
           discriminate Ed.
    + intros n -> Hn Hlt.
      rewrite bigintToHex_padEven. unfold hexToBytes. cbn [String.append stripHexPrefix].
      destruct (@even_bytes value Hv) as [_ L]. specialize (L n Hn Hlt).
      pose proof (@hexPairs_length _ (padEven_even (toString16 value))) as H2.
      set (E := padEven (toString16 value)) in *.
      unfold padStart.
      assert (HE : (String.length E <= 2 * Z.to_nat n)%nat) by (unfold len in L; lia).
      replace (Z.to_nat (n * 2) - String.length E)%nat
        with (2 * (Z.to_nat n - List.length (hexPairs E)))%nat by lia.
      rewrite hexPairs_zeros. unfold len in *.
      rewrite length_app, repeat_length. lia.
  - intros Hv.
    destruct (bigintToHex_shape value byteLength) as (z & ->).
    rewrite (toString16_neg Hv).
    destruct (@toString16_nonneg (- value) ltac:(lia)) as (NH & VH).
    set (H := toString16 (- value)) in *.
    unfold hexToBigint. rewrite BigInt_ofString_0x.
    + unfold numeral.
      destruct (strRepeat "0" z ++ String "-" H)%string eqn:S.
      { destruct (strRepeat "0" z); discriminate S. }
      rewrite <- S, digitsValue_app, digitsValue_zeros by lia. reflexivity.
    + destruct (strRepeat "0" z); discriminate.
    + change (String "-" H) with ("-" ++ H)%string. rewrite <- append_assoc.
      apply trimEnd_app; [exact NH|].
      apply (@trimEnd_digits 16). apply (@digitsValue_all 16 _ 0 _ (VH 0)).
Qed.

Lemma bigintToHex_round_trip_witness :
  bigintToHex 4095 (Some 4) = "0x00000fff" /\
  hexToBigint "0x00000fff" = Ok 4095 /\
  len (hexToBytes "0x00000fff") = 4 /\
  hexToBigint (bigintToHex (-255) None) = Err SyntaxError.
Proof.
  destruct (bigintToHex_round_trip 4095 (Some 4)) as [P _].
  destruct (P ltac:(lia)) as (A & _ & C).
  split; [reflexivity|]. split; [exact A|]. split.
  - exact (C 4 eq_refl ltac:(lia) ltac:(reflexivity)).
  - exact (proj1 (proj2 (bigintToHex_round_trip (-255) None)) ltac:(lia)).
Defined.

(* ================================================================== *)
(** ** One encoding, one transaction *)

(** Two fields read by one decoder from one item are one field. *)
Ltac same_decoding P1 P2 B :=
  let Q1 := fresh in let Q2 := fresh in
  pose proof P1 as Q1; pose proof P2 as Q2;
  rewrite B in Q1; rewrite Q1 in Q2; injection Q2 as Q2; exact Q2.

Section Injective.
Context `{Platform}.

Lemma txItems_nth tx :
  let items := txItems tx true in
  nth_error items 1 = Some (DBytes (encodeScalar (numberValue (Tx.timestamp tx)))) /\
  nth_error items 2 = Some (DBytes (encodeScalar (txTypeCode (Tx.type tx)))) /\
  nth_error items 3 = Some (DBytes (encodeScalar (networkCode (Tx.network tx)))) /\
  nth_error items 4 = Some (optScalarItem (Tx.nonce tx)) /\
  nth_error items 5 = Some (optBytesItem (option_map hexToBytes (Tx.recipient tx))) /\
  nth_error items 6 = Some (optBytesItem (option_map hexToBytes (Tx.tokenAddress tx))) /\
  nth_error items 7 = Some (optScalarItem (Tx.amount tx)) /\
  nth_error items 8 = Some (DBytes (encodeScalar (Tx.fee tx))) /\
  nth_error items 9 = Some (optBytesItem (writtenBytes (Tx.message tx))) /\
  nth_error items 10 = Some (payloadItem (Tx.payload tx)) /\
  nth_error items 11 =
    Some (optBytesItem (option_map hexToBytes (truthy (Tx.referenceHash tx)))).
Proof. repeat split; reflexivity. Qed.

Lemma Ok_inj {A} (x y : A) : Ok x = Ok y -> x = y.
Proof. intros E. injection E as E. exact E. Qed.

(** The fields a decoder reads back are the fields that were written: two
    transactions with the same encoding are the same transaction. *)
Theorem encodeTx_is_injective (tx1 tx2 : Tx.fields) (s1 s2 : Signature) (data : bytes) :
  fieldsRoundTrip tx1 -> fieldsRoundTrip tx2 ->
  Tx.signature tx1 = Some s1 -> canonicalHex 65 s1 ->
  Tx.signature tx2 = Some s2 -> canonicalHex 65 s2 ->
  encodeTx tx1 true = Ok data -> encodeTx tx2 true = Ok data -> len data < 2 ^ 32 ->
  tx1 = tx2.
Proof.
  intros [(Hts1 & (n1 & Hn1 & Hn10) & Hrec1 & Htok1 & Ham1 & Hfee1 & Hm1 & Hpay1 & Href1)
            Hp1]
         [(Hts2 & (n2 & Hn2 & Hn20) & Hrec2 & Htok2 & Ham2 & Hfee2 & Hm2 & Hpay2 & Href2)
            Hp2]
         Hs1 Hc1 Hs2 Hc2 E1 E2 Hlen.
  pose proof (rlpDecode_encodeTx _ _ Hm1 E1 Hlen) as D1.
  pose proof (rlpDecode_encodeTx _ _ Hm2 E2 Hlen) as D2.
  rewrite D1 in D2. apply Ok_inj in D2.
  apply (f_equal (fun d => match d with DList l => l | DBytes _ => [] end)) in D2.
  cbv beta iota in D2. rename D2 into D.
  pose proof (txItems_signed _ Hs1 Hc1) as S1.
  pose proof (txItems_signed _ Hs2 Hc2) as S2.
  destruct (txItems_nth tx1) as (A1 & A2 & A3 & A4 & A5 & A6 & A7 & A8 & A9 & A10 & A11).
  destruct (txItems_nth tx2) as (B1 & B2 & B3 & B4 & B5 & B6 & B7 & B8 & B9 & B10 & B11).
  cbv zeta in *. rewrite D in A1, A2, A3, A4, A5, A6, A7, A8, A9, A10, A11, S1.
  rewrite A1 in B1. rewrite A2 in B2. rewrite A3 in B3. rewrite A4 in B4.
  rewrite A5 in B5. rewrite A6 in B6. rewrite A7 in B7. rewrite A8 in B8.
  rewrite A9 in B9. rewrite A10 in B10. rewrite A11 in B11. rewrite S1 in S2.
  clear A1 A2 A3 A4 A5 A6 A7 A8 A9 A10 A11 S1 D D1 E1 E2.
  assert (Ftime : Tx.timestamp tx1 = Tx.timestamp tx2)
    by (same_decoding (decodeInt_number _ Hts1) (decodeInt_number _ Hts2) B1).
  assert (Ftype : Tx.type tx1 = Tx.type tx2).
  { destruct (Tx.type tx1), (Tx.type tx2); try reflexivity;
      vm_compute in B2; discriminate B2. }
  assert (Fnet : Tx.network tx1 = Tx.network tx2).
  { destruct (Tx.network tx1), (Tx.network tx2); try reflexivity;
      vm_compute in B3; discriminate B3. }
  assert (N1 : optNonneg (Tx.nonce tx1)) by (rewrite Hn1; exact Hn10).
  assert (N2 : optNonneg (Tx.nonce tx2)) by (rewrite Hn2; exact Hn20).
  assert (Fnonce : Tx.nonce tx1 = Tx.nonce tx2)
    by (same_decoding (@decodeOptionalBigint_item (Tx.nonce tx1) N1)
                      (@decodeOptionalBigint_item (Tx.nonce tx2) N2) B4).
  assert (Frec : Tx.recipient tx1 = Tx.recipient tx2)
    by (same_decoding (decodeOptionalAddress_item _ Hrec1)
                      (decodeOptionalAddress_item _ Hrec2) B5).
  assert (Ftok : Tx.tokenAddress tx1 = Tx.tokenAddress tx2)
    by (same_decoding (decodeOptionalAddress_item _ Htok1)
                      (decodeOptionalAddress_item _ Htok2) B6).
  assert (Fam : Tx.amount tx1 = Tx.amount tx2)
    by (same_decoding (@decodeOptionalBigint_item (Tx.amount tx1) Ham1)
                      (@decodeOptionalBigint_item (Tx.amount tx2) Ham2) B7).
  assert (Ffee : Tx.fee tx1 = Tx.fee tx2)
    by (same_decoding (decodeBigint_scalar Hfee1) (decodeBigint_scalar Hfee2) B8).
  assert (Fmsg : Tx.message tx1 = Tx.message tx2).
  { pose proof (decodeOptionalBytes_written _ Hm1) as Q1.
    pose proof (decodeOptionalBytes_written _ Hm2) as Q2.
    rewrite B9 in Q1. rewrite Q1 in Q2. exact Q2. }
  assert (Fpay : Tx.payload tx1 = Tx.payload tx2).
  { rewrite <- Hp1, <- Hp2.
    same_decoding (@decodePayload_item _ (Tx.payload tx1) V1 Hpay1)
                  (@decodePayload_item _ (Tx.payload tx2) V1 Hpay2) B10. }
  assert (T1 : truthy (Tx.referenceHash tx1) = Tx.referenceHash tx1).
  { destruct (Tx.referenceHash tx1) as [h|]; [|reflexivity].
    apply (@canonicalHex_truthy 32 h); [lia|exact Href1]. }
  assert (T2 : truthy (Tx.referenceHash tx2) = Tx.referenceHash tx2).
  { destruct (Tx.referenceHash tx2) as [h|]; [|reflexivity].
    apply (@canonicalHex_truthy 32 h); [lia|exact Href2]. }
  rewrite T1, T2 in B11.
  assert (Fref : Tx.referenceHash tx1 = Tx.referenceHash tx2)
    by (same_decoding (decodeOptionalHash_item _ Href1)
                      (decodeOptionalHash_item _ Href2) B11).
  assert (Fsig : s1 = s2).
  { injection S2 as S2. rewrite <- (proj2 Hc1), <- (proj2 Hc2), S2. reflexivity. }
  destruct tx1, tx2. cbn [Tx.version Tx.timestamp Tx.type Tx.network Tx.nonce Tx.recipient
    Tx.tokenAddress Tx.amount Tx.fee Tx.message Tx.payload Tx.referenceHash Tx.signature] in *.
  repeat match goal with v : TxVersion |- _ => destruct v end. congruence.
Qed.

End Injective.

Lemma encodeTx_is_injective_witness :
  @encodeTx stubPlatform sampleTransfer true <> Ok sampleVoteBytes.
Proof.
  intros E.
  assert (S : canonicalHex 65 sampleSignature) by (vm_compute; split; reflexivity).
  assert (F1 : @fieldsRoundTrip stubPlatform sampleVote).
  { split; [|reflexivity].
    split; [vm_compute; split; discriminate|].
    split; [exists 0; split; [reflexivity|lia]|].
    split; [exact I|]. split; [exact I|]. split; [exact I|].
    split; [vm_compute; discriminate|].
    split; [exact I|].
    split; [vm_compute; split; discriminate|].
    vm_compute. split; reflexivity. }
  assert (F2 : @fieldsRoundTrip stubPlatform sampleTransfer).
  { split; [|reflexivity].
    split; [vm_compute; split; discriminate|].
    split; [exists 1; split; [reflexivity|lia]|].
    split; [vm_compute; split; reflexivity|].
    split; [vm_compute; split; reflexivity|].
    split; [vm_compute; discriminate|].
    split; [vm_compute; discriminate|].
    split; [exact I|].
    split; exact I. }
  assert (E1 : @encodeTx stubPlatform sampleVote true = Ok sampleVoteBytes)
    by (vm_compute; reflexivity).
  assert (L : len sampleVoteBytes < 2 ^ 32) by (vm_compute; reflexivity).
  pose proof (@encodeTx_is_injective stubPlatform sampleVote sampleTransfer
                sampleSignature sampleSignature sampleVoteBytes
                F1 F2 eq_refl S eq_refl S E1 E L) as X.
  discriminate X.
Defined.

(* ================================================================== *)
(** ** Negative scalars *)

(** A negative value is encoded without an error, as the bytes of some
    non-negative number: it is never read back. *)
Theorem negative_scalar_is_not_read_back (v : Z) :
  v < 0 ->
  exists w, decodeScalar (encodeScalar v) = Ok w /\ 0 <= w /\ w <> v.
Proof.
  intros Hv. exists (beValue (encodeScalar v)).
  pose proof (beValue_nonneg (encodeScalar v)) as Hn.
  split; [apply decodeScalar_value|]. split; [exact Hn|lia].
Qed.

Lemma negative_scalar_is_not_read_back_witness :
  encodeScalar (-1) = [xff] /\ decodeScalar (encodeScalar (-1)) = Ok 255.
Proof.
  destruct (@negative_scalar_is_not_read_back (-1) ltac:(lia)) as (w & D & _ & _).
  split; [reflexivity|].
  rewrite D. f_equal. apply Ok_inj. rewrite <- D. vm_compute. reflexivity.
Defined.
